(** * Continue Folder: token patterns, folder scan and version resolution

    A shallow embedding of the [ContinueFolder] methods of
    [continue_folder.py] that deal with tokens, patterns and folders, together
    with a model of the fragment of Python's [re] module, [int], [str] and
    [str.zfill] those methods call. *)

From Stdlib Require Import Strings.String Strings.Ascii Lists.List ZArith Lia Bool Arith.
From Stdlib Require Import Numbers.DecimalString.
From Stdlib Require Numbers.DecimalPos Numbers.DecimalFacts.
From Stdlib Require Import Sorting.Permutation Sorting.Sorted.
Import ListNotations.
Open Scope string_scope.

(** ** Outcomes of a Python call *)

Inductive exn : Type :=
| ReError        (* re.error *)
| ValueError
| TypeError
| IndexError
| OverflowError.

(** A call returns a value, raises an exception, or leaves the fragment of
    Python that is modelled here (nothing is said about it then). *)
Inductive outcome (A : Type) : Type :=
| Returns (a : A)
| Raises (e : exn)
| Unmodelled.
Arguments Returns {A} a.
Arguments Raises {A} e.
Arguments Unmodelled {A}.

Definition bind {A B : Type} (m : outcome A) (f : A -> outcome B) : outcome B :=
  match m with
  | Returns a => f a
  | Raises e => Raises e
  | Unmodelled => Unmodelled
  end.

Notation "x <- m ;; k" := (bind m (fun x => k))
  (at level 61, m at next level, right associativity).

(** ** Strings *)

Module PyStr.

Definition is_digit (c : ascii) : bool :=
  ((48 <=? nat_of_ascii c) && (nat_of_ascii c <=? 57))%nat.

Definition digit_val (c : ascii) : Z := Z.of_nat (nat_of_ascii c) - 48.

(** The white space that [int] skips around a number, on the code points
    below 256. *)
Definition is_space (c : ascii) : bool :=
  let n := nat_of_ascii c in
  (((9 <=? n) && (n <=? 13)) || (n =? 32) || (n =? 133) || (n =? 160))%nat.

Fixpoint lstrip (s : string) : string :=
  match s with
  | String c s' => if is_space c then lstrip s' else s
  | EmptyString => EmptyString
  end.

Fixpoint rev_string (s acc : string) : string :=
  match s with
  | EmptyString => acc
  | String c s' => rev_string s' (String c acc)
  end.

Definition strip (s : string) : string :=
  rev_string (lstrip (rev_string (lstrip s) "")) "".

(** Digits of an integer literal: single underscores are allowed between
    digits.  [prev] tells whether the previous character was a digit. *)
Fixpoint int_digits (s : string) (prev : bool) (acc : Z) : option Z :=
  match s with
  | EmptyString => if prev then Some acc else None
  | String c s' =>
      if is_digit c then int_digits s' true (10 * acc + digit_val c)%Z
      else if (Ascii.eqb c "_" && prev)%bool then
        match s' with
        | String d _ => if is_digit d then int_digits s' false acc else None
        | EmptyString => None
        end
      else None
  end.

(** [int(s)] for a [str] argument, base 10 (for texts short enough for the
    limit that recent versions of Python put on the number of digits; the
    names of folders are). *)
Definition int (s : string) : outcome Z :=
  let body (t : string) :=
    match int_digits t false 0%Z with
    | Some z => Returns z
    | None => Raises ValueError
    end in
  match strip s with
  | String "-" t => z <- body t ;; Returns (- z)%Z
  | String "+" t => body t
  | t => body t
  end.

(** [str(z)] for an integer. *)
Definition str (z : Z) : string := NilZero.string_of_int (Z.to_int z).

Fixpoint zeros (n : nat) : string :=
  match n with
  | O => EmptyString
  | S n' => String "0" (zeros n')
  end.

(** [s.zfill(width)]: a leading sign stays in front of the fill. *)
Definition zfill (s : string) (width : nat) : string :=
  let fill := zeros (width - String.length s) in
  match s with
  | String "+" t => String "+" (fill ++ t)
  | String "-" t => String "-" (fill ++ t)
  | _ => fill ++ s
  end.

End PyStr.

(** ** The fragment of Python's [re] used by the program *)

Module Re.

(** Abstract syntax.  Quantifiers are greedy; a non-capturing group is its
    body. *)
Inductive regex : Type :=
| RChar (c : ascii)
| RAny                                          (* [.]: anything but a newline *)
| RSet (negate : bool) (items : list (ascii * ascii))
| REmpty
| RSeq (r1 r2 : regex)
| RAlt (r1 r2 : regex)
| RRepeat (lo : nat) (hi : option nat) (r : regex)
| RGroup (i : nat) (r : regex).                 (* capturing group number i, from 1 *)

Fixpoint nullable (r : regex) : bool :=
  match r with
  | RChar _ | RAny | RSet _ _ => false
  | REmpty => true
  | RSeq r1 r2 => nullable r1 && nullable r2
  | RAlt r1 r2 => nullable r1 || nullable r2
  | RRepeat lo _ r1 => (lo =? 0)%nat || nullable r1
  | RGroup _ r1 => nullable r1
  end.

(** *** Parsing a pattern string (after [sre_parse]) *)

Inductive presult (A : Type) : Type :=
| POk (a : A)
| PErr            (* re.error *)
| PHuge           (* OverflowError: the repetition number is too large *)
| POut.           (* syntax outside the modelled fragment *)
Arguments POk {A} a.
Arguments PErr {A}.
Arguments PHuge {A}.
Arguments POut {A}.

Record pstate : Type := { groups : nat; names : list string }.

(** An element of the sequence being parsed, with the mark [sre_parse] uses
    to refuse a repeat of a repeat. *)
Definition item : Type := (regex * bool)%type.

Fixpoint seq_of (rev_items : list item) (acc : regex) : regex :=
  match rev_items with
  | [] => acc
  | (r, _) :: rest => seq_of rest (match acc with REmpty => r | _ => RSeq r acc end)
  end.

Fixpoint read_digits (s : string) (acc : string) : string * string :=
  match s with
  | String c s' => if PyStr.is_digit c then read_digits s' (acc ++ String c "") else (acc, s)
  | EmptyString => (acc, s)
  end.

Fixpoint N_of_digits (s : string) (acc : N) : N :=
  match s with
  | String c s' => N_of_digits s' (10 * acc + (N_of_ascii c - 48))%N
  | EmptyString => acc
  end.

(** [MAXREPEAT] *)
Definition maxrepeat : N := 4294967295%N.

(** What follows an opening brace: a repeat count [{m}], [{m,}], [{,n}],
    [{m,n}], or nothing of the kind (the brace is then a literal). *)
Inductive brace : Type :=
| BLiteral
| BRepeat (lo : nat) (hi : option nat) (rest : string)
| BBad            (* min repeat greater than max repeat *)
| BHuge.          (* the repetition number is too large *)

Definition parse_brace (s : string) : brace :=
  match s with
  | String "}" _ => BLiteral
  | _ =>
      let '(lo, s1) := read_digits s "" in
      let '(hi, s2) :=
        match s1 with
        | String "," s1' => read_digits s1' ""
        | _ => (lo, s1)
        end in
      match s2 with
      | String "}" rest =>
          let mn := N_of_digits lo 0 in
          let mx := N_of_digits hi 0 in
          if (maxrepeat <=? mn)%N then BHuge
          else
            match hi with
            | EmptyString => BRepeat (N.to_nat mn) None rest
            | _ =>
                if (maxrepeat <=? mx)%N then BHuge
                else if (mx <? mn)%N then BBad
                else BRepeat (N.to_nat mn) (Some (N.to_nat mx)) rest
            end
      | _ => BLiteral
      end
  end.

(** The members of a character set, up to the closing bracket. *)
Fixpoint parse_set (fuel : nat) (s : string) (acc : list (ascii * ascii))
  : presult (list (ascii * ascii) * string) :=
  match fuel with
  | O => POut
  | S f =>
      match s with
      | EmptyString => PErr                       (* unterminated character set *)
      | String c s1 =>
          if (Ascii.eqb c "]" && negb (match acc with [] => true | _ => false end))%bool
          then POk (rev acc, s1)
          else if Ascii.eqb c "\" then POut
          else
            match s1 with
            | String "-" s2 =>
                match s2 with
                | EmptyString => PErr
                | String "]" s3 => POk (rev (("-", "-") :: (c, c) :: acc)%char, s3)
                | String d s3 =>
                    if Ascii.eqb d "\" then POut
                    else if (nat_of_ascii d <? nat_of_ascii c)%nat then PErr
                    else parse_set f s3 ((c, d) :: acc)
                end
            | _ => parse_set f s1 ((c, c) :: acc)
            end
      end
  end.

Definition is_ident_start (c : ascii) : bool :=
  let n := nat_of_ascii c in
  (((65 <=? n) && (n <=? 90)) || ((97 <=? n) && (n <=? 122)) || (n =? 95))%nat.

Fixpoint all_ident (s : string) : bool :=
  match s with
  | EmptyString => true
  | String c s' => (is_ident_start c || PyStr.is_digit c) && all_ident s'
  end.

Fixpoint has_high (s : string) : bool :=
  match s with
  | EmptyString => false
  | String c s' => (127 <? nat_of_ascii c)%nat || has_high s'
  end.

Fixpoint read_name (s : string) (acc : string) : option (string * string) :=
  match s with
  | EmptyString => None
  | String ">" s' => Some (acc, s')
  | String c s' => read_name s' (acc ++ String c "")
  end.

(** How a group opens: capturing or not, with the state after the opening. *)
Definition open_group (s : string) (st : pstate)
  : presult (option nat * string * pstate) :=
  let fresh (name : option string) (rest : string) :=
    let st' := {| groups := S (groups st);
                  names := match name with Some n => n :: names st | None => names st end |} in
    POk (Some (S (groups st)), rest, st') in
  match s with
  | String "?" (String ":" rest) => POk (None, rest, st)
  | String "?" (String "P" (String "<" rest)) =>
      match read_name rest "" with
      | None => PErr                              (* missing >, unterminated name *)
      | Some (name, rest') =>
          if has_high name then POut
          else
            match name with
            | EmptyString => PErr                 (* missing group name *)
            | String c _ =>
                if negb (is_ident_start c && all_ident name) then PErr
                else if existsb (String.eqb name) (names st) then PErr
                else fresh (Some name) rest'
            end
      end
  | String "?" _ => POut
  | _ => fresh None s
  end.

Definition repeat_item (lo : nat) (hi : option nat) (rest : string)
  (items : list item) : presult (list item * string) :=
  match items with
  | [] => PErr                                    (* nothing to repeat *)
  | (_, true) :: _ => PErr                        (* multiple repeat *)
  | (r, false) :: items' =>
      match rest with
      | String "?" _ | String "+" _ => POut       (* lazy and possessive repeats *)
      | _ => if nullable r then POut
             else POk ((RRepeat lo hi r, true) :: items', rest)
      end
  end.

Fixpoint parse_seq (fuel : nat) (s : string) (items : list item) (st : pstate)
  {struct fuel} : presult (regex * string * pstate) :=
  match fuel with
  | O => POut
  | S f =>
      match s with
      | EmptyString => POk (seq_of items REmpty, s, st)
      | String c s1 =>
          let lit := parse_seq f s1 ((RChar c, false) :: items) st in
          let rep lo hi rest :=
            match repeat_item lo hi rest items with
            | POk (items', rest') => parse_seq f rest' items' st
            | PErr => PErr
            | PHuge => PHuge
            | POut => POut
            end in
          match c with
          | "|"%char | ")"%char => POk (seq_of items REmpty, s, st)
          | "\"%char | "^"%char | "$"%char => POut
          | "."%char => parse_seq f s1 ((RAny, false) :: items) st
          | "*"%char => rep 0 None s1
          | "+"%char => rep 1 None s1
          | "?"%char => rep 0 (Some 1) s1
          | "{"%char =>
              match parse_brace s1 with
              | BLiteral => lit
              | BRepeat lo hi rest => rep lo hi rest
              | BBad => PErr
              | BHuge => PHuge
              end
          | "["%char =>
              let '(neg, s2) :=
                match s1 with
                | String "^" s2 => (true, s2)
                | _ => (false, s1)
                end in
              match parse_set (S (String.length s2)) s2 [] with
              | POk (members, rest) => parse_seq f rest ((RSet neg members, false) :: items) st
              | PErr => PErr
              | PHuge => PHuge
              | POut => POut
              end
          | "("%char =>
              match open_group s1 st with
              | POk (gi, s2, st1) =>
                  match parse_alt f s2 st1 with
                  | POk (body, String ")" rest, st2) =>
                      let r := match gi with Some i => RGroup i body | None => body end in
                      parse_seq f rest ((r, false) :: items) st2
                  | POk _ => PErr                 (* missing ), unterminated subpattern *)
                  | PErr => PErr
                  | PHuge => PHuge
                  | POut => POut
                  end
              | PErr => PErr
              | PHuge => PHuge
              | POut => POut
              end
          | _ => lit
          end
      end
  end
with parse_alt (fuel : nat) (s : string) (st : pstate)
  {struct fuel} : presult (regex * string * pstate) :=
  match fuel with
  | O => POut
  | S f =>
      match parse_seq f s [] st with
      | POk (r1, String "|" rest, st1) =>
          match parse_alt f rest st1 with
          | POk (r2, rest2, st2) => POk (RAlt r1 r2, rest2, st2)
          | e => e
          end
      | other => other
      end
  end.

(** [re.compile]: the syntax tree and the number of capturing groups. *)
Definition compile (pattern : string) : presult (regex * nat) :=
  match parse_alt (2 * String.length pattern + 3) pattern {| groups := 0; names := [] |} with
  | POk (r, EmptyString, st) => POk (r, groups st)
  | POk _ => PErr                                 (* unbalanced parenthesis *)
  | PErr => PErr
  | PHuge => PHuge
  | POut => POut
  end.

(** *** Matching (backtracking, in the priority order of [sre]) *)

(** Texts of the capturing groups, by group number minus one. *)
Definition caps : Type := list (option string).

(** What remains to be matched, given the rest of the input and the group
    texts recorded so far; the answer is the input left after the match. *)
Definition cont : Type := string -> caps -> option (string * caps).

Definition in_set (c : ascii) (items : list (ascii * ascii)) : bool :=
  existsb (fun '(lo, hi) =>
    ((nat_of_ascii lo <=? nat_of_ascii c) && (nat_of_ascii c <=? nat_of_ascii hi))%nat) items.

Fixpoint set_cap (i : nat) (v : string) (cs : caps) : caps :=
  match cs, i with
  | [], _ => []
  | _, O => cs
  | _ :: cs', S O => Some v :: cs'
  | c :: cs', S i' => c :: set_cap i' v cs'
  end.

Fixpoint take (n : nat) (s : string) : string :=
  match n, s with
  | S n', String c s' => String c (take n' s')
  | _, _ => EmptyString
  end.

(** The text consumed between the input [s] and what is left of it. *)
Definition consumed (s rest : string) : string :=
  take (String.length s - String.length rest) s.

(** A greedy repeat of [mr]: as many rounds as possible first, each round
    consuming at least one character. *)
Fixpoint rep (mr : cont -> cont) (fuel lo : nat) (hi : option nat) (k : cont)
  {struct fuel} : cont :=
  fun s cs =>
    match fuel with
    | O => None
    | S f =>
        let more :=
          mr (fun s' cs' =>
                if (String.length s' <? String.length s)%nat
                then rep mr f (pred lo) (option_map pred hi) k s' cs'
                else None) s cs in
        match hi, lo with
        | Some O, _ => k s cs
        | _, S _ => more
        | _, O => match more with
                  | Some x => Some x
                  | None => k s cs
                  end
        end
    end.

Definition newline : ascii := "010"%char.

(** One character of the input against a test. *)
Definition one (p : ascii -> bool) (k : cont) : cont :=
  fun s cs =>
    match s with
    | String d s' => if p d then k s' cs else None
    | EmptyString => None
    end.

Fixpoint m (r : regex) (k : cont) {struct r} : cont :=
  match r with
  | RChar c => one (Ascii.eqb c) k
  | RAny => one (fun d => negb (Ascii.eqb d newline)) k
  | RSet neg items => one (fun d => xorb neg (in_set d items)) k
  | REmpty => k
  | RSeq r1 r2 => m r1 (m r2 k)
  | RAlt r1 r2 =>
      fun s cs =>
        match m r1 k s cs with
        | Some x => Some x
        | None => m r2 k s cs
        end
  | RRepeat lo hi r1 => fun s cs => rep (m r1) (S (String.length s)) lo hi k s cs
  | RGroup i r1 =>
      fun s cs => m r1 (fun s' cs' => k s' (set_cap i (consumed s s') cs')) s cs
  end.

Definition accept : cont := fun s cs => Some (s, cs).

(** A match at the start of [s]: what is left of [s] and the group texts. *)
Definition match_at (r : regex) (ngroups : nat) (s : string) : option (string * caps) :=
  m r accept s (repeat None ngroups).

(** A match object: [group(0)] and [groups()]. *)
Record match_obj : Type := { group0 : string; mgroups : list (option string) }.

Definition group (mo : match_obj) (i : nat) : option string :=
  match i with
  | O => Some (group0 mo)
  | S i' => nth i' (mgroups mo) None
  end.

(** [re.match(pattern, s)]. *)
Definition re_match (pattern s : string) : outcome (option match_obj) :=
  match compile pattern with
  | POk (r, n) =>
      match match_at r n s with
      | Some (rest, cs) => Returns (Some {| group0 := consumed s rest; mgroups := cs |})
      | None => Returns None
      end
  | PErr => Raises ReError
  | PHuge => Raises OverflowError
  | POut => Unmodelled
  end.

Fixpoint has_char (c : ascii) (s : string) : bool :=
  match s with
  | EmptyString => false
  | String d s' => Ascii.eqb c d || has_char c s'
  end.

(** Left to right, the leftmost match replaced and the scan resumed after
    it.  Only for patterns that cannot match the empty string. *)
Fixpoint sub_loop (fuel : nat) (r : regex) (n : nat) (repl s : string) : string :=
  match fuel with
  | O => s
  | S f =>
      match match_at r n s, s with
      | Some (rest, _), String c s' =>
          if (String.length rest <? String.length s)%nat
          then repl ++ sub_loop f r n repl rest
          else String c (sub_loop f r n repl s')
      | None, String c s' => String c (sub_loop f r n repl s')
      | _, EmptyString => EmptyString
      end
  end.

(** [re.sub(pattern, repl, s)] for a template [repl] without backslash (it
    then stands for itself). *)
Definition re_sub (pattern repl s : string) : outcome string :=
  match compile pattern with
  | POk (r, n) =>
      if (nullable r || has_char "\" repl)%bool then Unmodelled
      else Returns (sub_loop (S (String.length s)) r n repl s)
  | PErr => Raises ReError
  | PHuge => Raises OverflowError
  | POut => Unmodelled
  end.

End Re.

(** ** The program *)

(** [datetime.datetime.now()], with the fields the tokens format. *)
Record datetime : Type :=
  { year : nat; month : nat; day : nat; hour : nat; minute : nat }.

Definition two_digits (n : nat) : string := PyStr.zfill (PyStr.str (Z.of_nat n)) 2.

Fixpoint map_string (f : ascii -> ascii) (s : string) : string :=
  match s with
  | EmptyString => EmptyString
  | String c s' => String (f c) (map_string f s')
  end.

Definition lower_char (c : ascii) : ascii :=
  let n := nat_of_ascii c in
  if ((65 <=? n) && (n <=? 90))%nat then ascii_of_nat (n + 32) else c.

Definition upper_char (c : ascii) : ascii :=
  let n := nat_of_ascii c in
  if ((97 <=? n) && (n <=? 122))%nat then ascii_of_nat (n - 32) else c.

Definition lower : string -> string := map_string lower_char.
Definition upper : string -> string := map_string upper_char.

(** [now.strftime(fmt)] for the directives the program uses (C locale; the
    year of [now()] has four digits). *)
Inductive directive : Type := Dp | Dd | DI | DH | DM | Dm | Dy | DY.

Definition strftime (now : datetime) (d : directive) : string :=
  match d with
  | Dp => if (hour now <? 12)%nat then "AM" else "PM"
  | Dd => two_digits (day now)
  | DI => two_digits (match (hour now mod 12)%nat with O => 12 | h => h end)
  | DH => two_digits (hour now)
  | DM => two_digits (minute now)
  | Dm => two_digits (month now)
  | Dy => two_digits (year now mod 100)
  | DY => PyStr.str (Z.of_nat (year now))
  end.

(** The list kept for each token name: [[token, token_regex, pattern_regex,
    value]]. *)
Record token_values : Type :=
  { token : string;                     (* values[0] *)
    token_regex : option string;        (* values[1], None for most tokens *)
    pattern_regex_of : string;          (* values[2] *)
    value : string }.                   (* values[3] *)

Definition mk (t : string) (tr : option string) (pr v : string) : token_values :=
  {| token := t; token_regex := tr; pattern_regex_of := pr; value := v |}.

(** A dict in insertion order, as [items()] walks it. *)
Definition token_dict : Type := list (string * token_values).

(** A tuple of [self.folders]: the folder name, then the version when the
    tuple has a second component. *)
Definition folder_tuple : Type := (string * option Z)%type.

Record ContinueFolder : Type :=
  { now : datetime;
    tokens : token_dict;
    pattern : string;
    pattern_regex : string;
    folders : list folder_tuple;
    version_padding : nat;
    folder_new : string }.

Definition set_tokens (self : ContinueFolder) (t : token_dict) : ContinueFolder :=
  {| now := now self; tokens := t; pattern := pattern self;
     pattern_regex := pattern_regex self; folders := folders self;
     version_padding := version_padding self; folder_new := folder_new self |}.

Definition set_pattern (self : ContinueFolder) (p : string) : ContinueFolder :=
  {| now := now self; tokens := tokens self; pattern := p;
     pattern_regex := pattern_regex self; folders := folders self;
     version_padding := version_padding self; folder_new := folder_new self |}.

Definition set_pattern_regex (self : ContinueFolder) (r : string) : ContinueFolder :=
  {| now := now self; tokens := tokens self; pattern := pattern self;
     pattern_regex := r; folders := folders self;
     version_padding := version_padding self; folder_new := folder_new self |}.

Definition set_folders (self : ContinueFolder) (f : list folder_tuple) : ContinueFolder :=
  {| now := now self; tokens := tokens self; pattern := pattern self;
     pattern_regex := pattern_regex self; folders := f;
     version_padding := version_padding self; folder_new := folder_new self |}.

Definition set_version_padding (self : ContinueFolder) (n : nat) : ContinueFolder :=
  {| now := now self; tokens := tokens self; pattern := pattern self;
     pattern_regex := pattern_regex self; folders := folders self;
     version_padding := n; folder_new := folder_new self |}.

Definition set_folder_new (self : ContinueFolder) (f : string) : ContinueFolder :=
  {| now := now self; tokens := tokens self; pattern := pattern self;
     pattern_regex := pattern_regex self; folders := folders self;
     version_padding := version_padding self; folder_new := f |}.

(** [generate_tokens] *)
Definition generate_tokens (self : ContinueFolder) : ContinueFolder :=
  let f := strftime (now self) in
  set_tokens self
    [ ("am/pm",       mk "{pp}" None "[a-z]{2}" (lower (f Dp)));
      ("AM/PM",       mk "{PP}" None "[A-Z]{2}" (upper (f Dp)));
      ("Day",         mk "{DD}" None "[0-9]{2}" (f Dd));
      ("Hour (12hr)", mk "{hh}" None "[0-9]{2}" (f DI));
      ("Hour (24hr)", mk "{HH}" None "[0-9]{2}" (f DH));
      ("Minute",      mk "{mm}" None "[0-9]{2}" (f DM));
      ("Month",       mk "{MM}" None "[0-9]{2}" (f Dm));
      ("Version",     mk "{version}" (Some "{version#*}") "0*(?P<version>[1-9][0-9]*)" "1");
      ("Year (##)",   mk "{YY}" None "[0-9]{2}" (f Dy));
      ("Year (####)", mk "{YYYY}" None "[0-9]{4}" (f DY)) ].

(** [capture_tokens]: [re.error] is caught and gives [None]. *)
Definition capture_tokens (regex folder : string) : outcome (option Re.match_obj) :=
  match Re.re_match regex folder with
  | Raises ReError => Returns None
  | result => result
  end.

(** [load_pattern], from the patterns of the presets in the file's order. *)
Definition load_pattern (presets : list string) (self : ContinueFolder) : ContinueFolder :=
  match presets with
  | first :: _ => set_pattern self first
  | [] => set_pattern self "{version}"
  end.

(** The truth value of [values[1]]. *)
Definition truthy (o : option string) : bool :=
  match o with
  | Some (String _ _) => true
  | _ => false
  end.

(** The loop over [self.tokens.items()] shared by [generate_pattern_regex]
    (with [values[2]]) and [resolve_tokens] (with [values[3]]). *)
Fixpoint sub_tokens (repl : token_values -> string) (items : token_dict) (text : string)
  : outcome string :=
  match items with
  | [] => Returns text
  | (_, values) :: rest =>
      text' <- (if truthy (token_regex values)
                then Re.re_sub (match token_regex values with Some r => r | None => "" end)
                               (repl values) text
                else Re.re_sub (token values) (repl values) text) ;;
      sub_tokens repl rest text'
  end.

(** [generate_pattern_regex] *)
Definition generate_pattern_regex (self : ContinueFolder) : outcome ContinueFolder :=
  r <- sub_tokens pattern_regex_of (tokens self) (pattern self) ;;
  Returns (set_pattern_regex self r).

(** The body of the loop of [find_folders] for one folder. *)
Definition find_folder (regex folder : string) : outcome (list folder_tuple) :=
  search <- capture_tokens regex folder ;;
  match search with
  | Some mo =>
      if (List.length (Re.mgroups mo) =? 1)%nat then
        match Re.group mo 1 with
        | Some text => v <- PyStr.int text ;; Returns [(Re.group0 mo, Some v)]
        | None => Raises TypeError
        end
      else Returns [(Re.group0 mo, None)]
  | None => Returns []
  end.

Fixpoint find_folders_loop (regex : string) (dirs : list string)
  (acc : list folder_tuple) : outcome (list folder_tuple) :=
  match dirs with
  | [] => Returns acc
  | folder :: rest =>
      found <- find_folder regex folder ;;
      find_folders_loop regex rest (acc ++ found)
  end.

(** [find_folders]; [dirs] is [next(os.walk(self.path))[1]]. *)
Definition find_folders (dirs : list string) (self : ContinueFolder) : outcome ContinueFolder :=
  fs <- find_folders_loop (pattern_regex self) dirs [] ;;
  Returns (set_folders self fs).

(** [find_version_padding] *)
Definition find_version_padding (self : ContinueFolder) : outcome ContinueFolder :=
  let search := "(?:.*{version)(?P<padding>#*)}" in
  result <- capture_tokens search (pattern self) ;;
  match result with
  | Some mo =>
      match Re.group mo 1 with
      | Some g => Returns (set_version_padding self (String.length g))
      | None => Raises TypeError
      end
  | None => Returns (set_version_padding self 0)
  end.

(** [item[1]] for each item, as [sort] computes its keys. *)
Fixpoint sort_keys (fs : list folder_tuple) : outcome (list Z) :=
  match fs with
  | [] => Returns []
  | (_, Some v) :: rest => ks <- sort_keys rest ;; Returns (v :: ks)
  | (_, None) :: _ => Raises IndexError
  end.

Definition key (f : folder_tuple) : Z :=
  match snd f with Some v => v | None => 0%Z end.

Fixpoint insert_sorted (x : folder_tuple) (l : list folder_tuple) : list folder_tuple :=
  match l with
  | [] => [x]
  | y :: l' => if (key x <=? key y)%Z then x :: l else y :: insert_sorted x l'
  end.

(** [list.sort(key=lambda item: item[1])]: stable, the list unchanged when a
    key cannot be computed. *)
Definition sort_by_version (fs : list folder_tuple) : outcome (list folder_tuple) :=
  _ <- sort_keys fs ;; Returns (fold_right insert_sorted [] fs).

(** [self.folders[-1][1]] *)
Definition last_version (fs : list folder_tuple) : outcome Z :=
  match rev fs with
  | [] => Raises IndexError
  | (_, Some v) :: _ => Returns v
  | (_, None) :: _ => Raises IndexError
  end.

Fixpoint set_value (name v : string) (d : token_dict) : token_dict :=
  match d with
  | [] => []
  | (n, values) :: rest =>
      if String.eqb n name
      then (n, mk (token values) (token_regex values) (pattern_regex_of values) v) :: rest
      else (n, values) :: set_value name v rest
  end.

(** The [try] block of [update_version_token] with its handler: the sorted
    list and the next version. *)
Definition next_version (fs : list folder_tuple) : outcome (list folder_tuple * Z) :=
  match (sorted <- sort_by_version fs ;;
         v <- last_version sorted ;;
         Returns (sorted, (v + 1)%Z)) with
  | Raises IndexError => Returns (fs, 1%Z)      (* no folders with version matches *)
  | other => other
  end.

(** [update_version_token] *)
Definition update_version_token (self : ContinueFolder) : outcome ContinueFolder :=
  self <- find_version_padding self ;;
  sv <- next_version (folders self) ;;
  let '(sorted, version) := sv in
  let self := set_folders self sorted in
  Returns (set_tokens self
             (set_value "Version" (PyStr.zfill (PyStr.str version) (version_padding self))
                        (tokens self))).

(** [resolve_tokens] *)
Definition resolve_tokens (self : ContinueFolder) : outcome ContinueFolder :=
  r <- sub_tokens value (tokens self) (pattern self) ;;
  Returns (set_folder_new self r).

(** [update_folder] of the main window: one pass for the edited pattern
    [text]; the result is shown as the new folder name. *)
Definition update_folder (text : string) (dirs : list string) (self : ContinueFolder)
  : outcome ContinueFolder :=
  let self := set_pattern self text in
  self <- generate_pattern_regex self ;;
  self <- find_folders dirs self ;;
  self <- update_version_token self ;;
  resolve_tokens self.

(** The attributes as [__init__] first sets them. *)
Definition blank (t : datetime) : ContinueFolder :=
  {| now := t; tokens := []; pattern := ""; pattern_regex := "";
     folders := []; version_padding := 0; folder_new := "" |}.

(** [__init__], up to the first resolved name. *)
Definition init (t : datetime) (presets dirs : list string) : outcome ContinueFolder :=
  let self := generate_tokens (blank t) in
  let self := load_pattern presets self in
  self <- generate_pattern_regex self ;;
  self <- find_folders dirs self ;;
  self <- update_version_token self ;;
  resolve_tokens self.

(** ** Definitions that follow the specification's words *)

Module Spec.

(** [strip_prefix t s] is what follows [t] when [s] starts with [t]. *)
Fixpoint strip_prefix (t s : string) : option string :=
  match t, s with
  | EmptyString, _ => Some s
  | String c t', String d s' => if Ascii.eqb c d then strip_prefix t' s' else None
  | String _ _, EmptyString => None
  end.

(** Every occurrence of the non-empty text [old], left to right, replaced by
    [new]. *)
Fixpoint replace_loop (fuel : nat) (old new s : string) : string :=
  match fuel with
  | O => s
  | S f =>
      match strip_prefix old s, s with
      | Some rest, String _ _ => new ++ replace_loop f old new rest
      | None, String c s' => String c (replace_loop f old new s')
      | _, EmptyString => EmptyString
      end
  end.

Definition replace (old new s : string) : string :=
  replace_loop (S (String.length s)) old new s.

Fixpoint skip (p : ascii -> bool) (s : string) : string :=
  match s with
  | String c s' => if p c then skip p s' else s
  | EmptyString => EmptyString
  end.

Fixpoint count (p : ascii -> bool) (s : string) : nat :=
  match s with
  | String c s' => if p c then S (count p s') else 0
  | EmptyString => 0
  end.

Definition is_hash : ascii -> bool := Ascii.eqb "#".

Fixpoint hashes (n : nat) : string :=
  match n with
  | O => EmptyString
  | S n' => String "#" (hashes n')
  end.

(** A version token at the start of [s]: [{version], then zero or more [#],
    then [}]; the number of [#] and what follows the token. *)
Definition version_token (s : string) : option (nat * string) :=
  match strip_prefix "{version" s with
  | Some r =>
      match skip is_hash r with
      | String "}" rest => Some (count is_hash r, rest)
      | _ => None
      end
  | None => None
  end.

(** Whether a version token starts somewhere in [s]. *)
Fixpoint has_version_token (s : string) : bool :=
  match version_token s with
  | Some _ => true
  | None =>
      match s with
      | String _ s' => has_version_token s'
      | EmptyString => false
      end
  end.

(** Every version token, with any number of [#], replaced by [new]. *)
Fixpoint replace_version_loop (fuel : nat) (new s : string) : string :=
  match fuel with
  | O => s
  | S f =>
      match version_token s, s with
      | Some (_, rest), String _ _ => new ++ replace_version_loop f new rest
      | None, String c s' => String c (replace_version_loop f new s')
      | _, EmptyString => EmptyString
      end
  end.

Definition replace_version (new s : string) : string :=
  replace_version_loop (S (String.length s)) new s.

(** Whether the text [old] occurs somewhere in [s]. *)
Fixpoint occurs (old s : string) : bool :=
  match strip_prefix old s with
  | Some _ => true
  | None =>
      match s with
      | String _ s' => occurs old s'
      | EmptyString => false
      end
  end.

(** One token substituted in a text: through its extended placeholder syntax
    when it defines one, through its primary placeholder otherwise. *)
Definition substitute (values : token_values) (new text : string) : string :=
  match token_regex values with
  | Some _ => replace_version new text
  | None => replace (token values) new text
  end.

(** Whether a placeholder of the token occurs in the text. *)
Definition mentions (values : token_values) (text : string) : bool :=
  match token_regex values with
  | Some _ => has_version_token text
  | None => occurs (token values) text
  end.

(** The pattern compiler: each token's placeholder replaced by its match
    fragment. *)
Definition compile (tokens : token_dict) (pattern : string) : string :=
  fold_left (fun text nv => substitute (snd nv) (pattern_regex_of (snd nv)) text)
            tokens pattern.

(** The name resolver: each token's placeholder replaced by its current
    value. *)
Definition resolve (tokens : token_dict) (pattern : string) : string :=
  fold_left (fun text nv => substitute (snd nv) (value (snd nv)) text)
            tokens pattern.

(** The largest of [v] and the members of [vs]. *)
Fixpoint maximum (v : Z) (vs : list Z) : Z :=
  match vs with
  | [] => v
  | w :: ws => Z.max v (maximum w ws)
  end.

(** The next version of a list of versions: the largest plus one, 1 for the
    empty list. *)
Definition resolve_next (versions : list Z) : Z :=
  match versions with
  | [] => 1%Z
  | v :: vs => (maximum v vs + 1)%Z
  end.

(** Decimal digits of a positive number without a leading zero. *)
Definition is_nonzero_digit (c : ascii) : bool :=
  ((49 <=? nat_of_ascii c) && (nat_of_ascii c <=? 57))%nat.

Definition is_version_text (s : string) : bool :=
  match s with
  | String c s' =>
      is_nonzero_digit c && match skip PyStr.is_digit s' with EmptyString => true | _ => false end
  | EmptyString => false
  end.

End Spec.

(** ** Characterisations used in the proofs *)

(** The greedy star of a one-character test, by recursion on the input. *)
Fixpoint star (p : ascii -> bool) (k : Re.cont) (s : string) (cs : Re.caps)
  : option (string * Re.caps) :=
  match s with
  | String d s' =>
      if p d then
        match star p k s' cs with
        | Some x => Some x
        | None => k s cs
        end
      else k s cs
  | EmptyString => k s cs
  end.

(** The syntax tree of a literal text. *)
Fixpoint lit_regex (t : string) : Re.regex :=
  match t with
  | EmptyString => Re.REmpty
  | String c EmptyString => Re.RChar c
  | String c t' => Re.RSeq (Re.RChar c) (lit_regex t')
  end.

(** A literal text followed by [r]. *)
Fixpoint seq_lit (t : string) (r : Re.regex) : Re.regex :=
  match t with
  | EmptyString => r
  | String c t' => Re.RSeq (Re.RChar c) (seq_lit t' r)
  end.

(** The body of the version token's capturing group, [[1-9][0-9]*]. *)
Definition version_body : Re.regex :=
  Re.RSeq (Re.RSet false [("1", "9")%char])
          (Re.RRepeat 0 None (Re.RSet false [("0", "9")%char])).

Fixpoint regex_eqb (a b : Re.regex) : bool :=
  match a, b with
  | Re.RChar c, Re.RChar d => Ascii.eqb c d
  | Re.RAny, Re.RAny => true
  | Re.RSet n1 i1, Re.RSet n2 i2 =>
      Bool.eqb n1 n2 &&
      (fix eq_items (x y : list (ascii * ascii)) : bool :=
         match x, y with
         | [], [] => true
         | (a1, b1) :: x', (a2, b2) :: y' =>
             Ascii.eqb a1 a2 && Ascii.eqb b1 b2 && eq_items x' y'
         | _, _ => false
         end) i1 i2
  | Re.REmpty, Re.REmpty => true
  | Re.RSeq a1 a2, Re.RSeq b1 b2 => regex_eqb a1 b1 && regex_eqb a2 b2
  | Re.RAlt a1 a2, Re.RAlt b1 b2 => regex_eqb a1 b1 && regex_eqb a2 b2
  | Re.RRepeat l1 h1 a1, Re.RRepeat l2 h2 b1 =>
      (l1 =? l2)%nat &&
      match h1, h2 with
      | None, None => true
      | Some x, Some y => (x =? y)%nat
      | _, _ => false
      end && regex_eqb a1 b1
  | Re.RGroup i a1, Re.RGroup j b1 => (i =? j)%nat && regex_eqb a1 b1
  | _, _ => false
  end.

(** Every capturing group of [r] is a version group. *)
Fixpoint version_groups_only (r : Re.regex) : bool :=
  match r with
  | Re.RChar _ | Re.RAny | Re.RSet _ _ | Re.REmpty => true
  | Re.RSeq r1 r2 | Re.RAlt r1 r2 => version_groups_only r1 && version_groups_only r2
  | Re.RRepeat _ _ r1 => version_groups_only r1
  | Re.RGroup _ r1 => regex_eqb r1 version_body
  end.

(** The versions carried by a list of folder tuples. *)
Definition versions (fs : list folder_tuple) : list Z :=
  flat_map (fun f => match snd f with Some v => [v] | None => [] end) fs.

(** The token table of [generate_tokens] at the time [t]. *)
Definition table (t : datetime) : token_dict := tokens (generate_tokens (blank t)).

(** [d[name][3]] *)
Fixpoint get_value (name : string) (d : token_dict) : option string :=
  match d with
  | [] => None
  | (n, values) :: rest => if String.eqb n name then Some (value values) else get_value name rest
  end.

(** The syntax tree of the search of [find_version_padding]. *)
Definition padding_regex : Re.regex :=
  Re.RSeq (Re.RSeq (Re.RRepeat 0 None Re.RAny) (lit_regex "{version"))
          (Re.RSeq (Re.RGroup 1 (Re.RRepeat 0 None (Re.RChar "#"))) (Re.RChar "}")).

(** What the search does once [.*] has stopped: a version token, with its
    [#] recorded as group 1. *)
Definition token_here : Re.cont :=
  Re.m (lit_regex "{version")
       (Re.m (Re.RSeq (Re.RGroup 1 (Re.RRepeat 0 None (Re.RChar "#"))) (Re.RChar "}"))
             Re.accept).

Definition not_newline (d : ascii) : bool := negb (Ascii.eqb d Re.newline).


(** Every character of [s] passes the test [p]. *)
Fixpoint all_chars (p : ascii -> bool) (s : string) : bool :=
  match s with
  | EmptyString => true
  | String c s' => p c && all_chars p s'
  end.

(** The syntax tree of the extended placeholder of the version token,
    [{version#*}]. *)
Definition version_token_regex : Re.regex :=
  seq_lit "{version" (Re.RSeq (Re.RRepeat 0 None (Re.RChar "#")) (Re.RChar "}")).

(** A token whose placeholders the proofs know how [re.sub] reads: the
    extended placeholder of the version token, or a primary placeholder that
    compiles to its own text. *)
Definition known_placeholder (values : token_values) : Prop :=
  match token_regex values with
  | Some r => r = "{version#*}"
  | None => Re.compile (token values) = Re.POk (lit_regex (token values), 0)
            /\ token values <> ""
  end.

(** The table with the value of the version token set to [v]. *)
Definition table_with (t : datetime) (v : string) : token_dict :=
  set_value "Version" v (table t).

(** Every recorded group text is a version text. *)
Definition caps_ok (cs : Re.caps) : Prop :=
  Forall (fun c => match c with
                   | Some t => Spec.is_version_text t = true
                   | None => True
                   end) cs.

(** Whatever a match leaves to its continuation: the input without a
    prefix, as many group texts as before, and version texts only when every
    group is a version group. *)
Definition handed_on (r : Re.regex) (k : Re.cont) (s : string) (cs : Re.caps) res : Prop :=
  exists s' cs',
    k s' cs' = Some res /\ (exists w, s = w ++ s')
    /\ List.length cs' = List.length cs
    /\ (version_groups_only r = true -> caps_ok cs -> caps_ok cs').

(** Whether a folder tuple has a second component. *)
Definition has_version (f : folder_tuple) : bool :=
  match snd f with Some _ => true | None => false end.

(** The list ends with [z], a tuple with the version [mx], and no member has
    a larger version. *)
Definition ends_with_max (l : list folder_tuple) (mx : Z) : Prop :=
  (exists l0 g, l = (l0 ++ [(g, Some mx)])%list)
  /\ Forall (fun y => (key y <= mx)%Z) l.

(** A clock for the examples: 5 June 2023, 14:07. *)
Definition clock_2023 : datetime :=
  {| year := 2023; month := 6; day := 5; hour := 14; minute := 7 |}.

(** The syntax tree of a literal text followed by the match fragment of the
    version token: zeros, then the named group around [version_body]. *)
Definition version_after (pre : string) : Re.regex :=
  seq_lit pre (Re.RSeq (Re.RRepeat 0 None (Re.RChar "0")) (Re.RGroup 1 version_body)).

Definition is_zero : ascii -> bool := Ascii.eqb "0".

(** The order of [list.sort] on the keys of two folder tuples. *)
Definition key_le (a b : folder_tuple) : Prop := (key a <= key b)%Z.

(** The number that the digits of [d] write after the digits that gave
    [acc]. *)
Fixpoint value_acc (d : Decimal.uint) (acc : Z) : Z :=
  match d with
  | Decimal.Nil => acc
  | Decimal.D0 l => value_acc l (10 * acc + 0)
  | Decimal.D1 l => value_acc l (10 * acc + 1)
  | Decimal.D2 l => value_acc l (10 * acc + 2)
  | Decimal.D3 l => value_acc l (10 * acc + 3)
  | Decimal.D4 l => value_acc l (10 * acc + 4)
  | Decimal.D5 l => value_acc l (10 * acc + 5)
  | Decimal.D6 l => value_acc l (10 * acc + 6)
  | Decimal.D7 l => value_acc l (10 * acc + 7)
  | Decimal.D8 l => value_acc l (10 * acc + 8)
  | Decimal.D9 l => value_acc l (10 * acc + 9)
  end%Z.

(** [kept] is [l] with some members left out. *)
Inductive subseq {A : Type} : list A -> list A -> Prop :=
| subseq_nil : subseq [] []
| subseq_skip x kept l : subseq kept l -> subseq kept (x :: l)
| subseq_keep x kept l : subseq kept l -> subseq (x :: kept) (x :: l).

(** The number of [#] that [find_version_padding] reads in a pattern. *)
Definition padding_of (text : string) : outcome nat :=
  result <- capture_tokens "(?:.*{version)(?P<padding>#*)}" text ;;
  match result with
  | Some mo =>
      match Re.group mo 1 with
      | Some g => Returns (String.length g)
      | None => Raises TypeError
      end
  | None => Returns 0
  end.

(** One pass of [update_folder], from what it reads of the state: the clock
    and the token table. *)
Definition pass (t : datetime) (d : token_dict) (text : string) (dirs : list string)
  : outcome ContinueFolder :=
  r <- sub_tokens pattern_regex_of d text ;;
  fs <- find_folders_loop r dirs [] ;;
  p <- padding_of text ;;
  sv <- next_version fs ;;
  let d' := set_value "Version" (PyStr.zfill (PyStr.str (snd sv)) p) d in
  name <- sub_tokens value d' text ;;
  Returns {| now := t; tokens := d'; pattern := text; pattern_regex := r;
             folders := fst sv; version_padding := p; folder_new := name |}.

(** A character that stands for itself in a regular expression and is not a
    line break. *)
Definition plain (c : ascii) : bool :=
  negb (existsb (Ascii.eqb c)
          ["|"; ")"; "\"; "^"; "$"; "."; "*"; "+"; "?"; "{"; "["; "("; Re.newline]%char).

(** The items the parser has pushed after reading the literal text [pre]. *)
Fixpoint lit_items (pre : string) (items : list Re.item) : list Re.item :=
  match pre with
  | EmptyString => items
  | String c pre' => lit_items pre' ((Re.RChar c, false) :: items)
  end.

(** A pattern made of a literal text and a version token with [p] [#]. *)
Definition version_pattern (pre : string) (p : nat) : string :=
  pre ++ "{version" ++ Spec.hashes p ++ "}".

(** Whether [re.match(regex, s)] matches all of [s]. *)
Definition matches_in_full (regex s : string) : bool :=
  match Re.re_match regex s with
  | Returns (Some mo) => String.eqb (Re.group0 mo) s
  | _ => false
  end.

(** The ranges of the fields of a [datetime], for a year of four digits. *)
Definition valid_clock (t : datetime) : Prop :=
  (1000 <= Z.of_nat (year t) <= 9999)%Z /\ 1 <= month t <= 12 /\ 1 <= day t <= 31
  /\ hour t < 24 /\ minute t < 60.

(** The integers from [a] on, [len] of them. *)
Fixpoint zrange (a : Z) (len : nat) : list Z :=
  match len with
  | O => []
  | S len' => a :: zrange (a + 1) len'
  end.

(** ** The presets *)

(** The elements of [xml.etree.ElementTree], as the program uses them: a tag,
    the attributes, the text and the children in document order. *)
Module ETree.

#[local] Set Warnings "-register-all".

Inductive element : Type :=
| Element (tag : string) (attrib : list (string * string)) (text : option string)
          (children : list element).

Definition tag (e : element) : string := let '(Element t _ _ _) := e in t.
Definition attrib (e : element) : list (string * string) := let '(Element _ a _ _) := e in a.
Definition text (e : element) : option string := let '(Element _ _ x _) := e in x.
Definition children (e : element) : list element := let '(Element _ _ _ c) := e in c.

Definition set_children (e : element) (cs : list element) : element :=
  Element (tag e) (attrib e) (text e) cs.

Definition set_text (e : element) (x : option string) : element :=
  Element (tag e) (attrib e) x (children e).

(** [e.get(key)] *)
Fixpoint lookup (key : string) (a : list (string * string)) : option string :=
  match a with
  | [] => None
  | (k, v) :: rest => if String.eqb k key then Some v else lookup key rest
  end.

Definition get (e : element) (key : string) : option string := lookup key (attrib e).

(** [e.findall(t)] for a tag [t]: the direct children with that tag. *)
Definition findall (e : element) (t : string) : list element :=
  filter (fun c => String.eqb (tag c) t) (children e).

(** [e.find(t)]: the first of them, if any. *)
Definition find (e : element) (t : string) : option element :=
  match findall e t with
  | c :: _ => Some c
  | [] => None
  end.

End ETree.

(** The functions that read and change [self.presets_xml_root]; what they
    read from the widgets is given as arguments, and the writing of the file
    is left out. *)
Module Presets.

Import ETree.

(** [preset.get('name') == preset_name] *)
Definition named (preset_name : string) (preset : element) : bool :=
  match get preset "name" with
  | Some n => String.eqb n preset_name
  | None => false
  end.

(** [duplicate_check]; [preset_name] is the text of the name field. *)
Definition duplicate_check (root : element) (preset_name : string) : bool :=
  fold_left (fun duplicate preset => if named preset_name preset then true else duplicate)
            (findall root "preset") false.

(** The key of [sort_presets]: [(child.tag, child.get('name'))]. *)
Definition sort_key (child : element) : string * option string :=
  (tag child, get child "name").

(** [a < b] on two keys, as tuples compare: [None] where Python raises
    [TypeError] ([None] against a string). *)
Definition key_lt (a b : string * option string) : option bool :=
  if String.eqb (fst a) (fst b) then
    match snd a, snd b with
    | Some x, Some y => Some (String.ltb x y)
    | None, None => Some false
    | _, _ => None
    end
  else Some (String.ltb (fst a) (fst b)).

(** No comparison of two keys of the list can raise. *)
Definition comparable (cs : list element) : bool :=
  forallb (fun a =>
    forallb (fun b => match key_lt (sort_key a) (sort_key b) with
                      | Some _ => true
                      | None => false
                      end) cs) cs.

Fixpoint insert_child (x : element) (l : list element) : list element :=
  match l with
  | [] => [x]
  | y :: l' =>
      match key_lt (sort_key y) (sort_key x) with
      | Some true => y :: insert_child x l'
      | _ => x :: l
      end
  end.

(** [sorted(children, key=...)]: stable. *)
Definition sorted_children (cs : list element) : list element :=
  fold_right insert_child [] cs.

Inductive exn : Type := AttributeError.

(** The root a function leaves, also when it raises; [Unmodelled] where
    [sorted] may or may not compare [None] with a string. *)
Inductive outcome : Type :=
| Returns (root : element)
| Raises (e : exn) (root : element)
| Unmodelled.

(** [sort_presets] *)
Definition sort_presets (root : element) : outcome :=
  if comparable (children root)
  then Returns (set_children root (sorted_children (children root)))
  else Unmodelled.

(** The element [save_preset] builds. *)
Definition new_preset (preset_name preset_pattern : string) : element :=
  Element "preset" [("name", preset_name)] None
          [Element "pattern" [] (Some preset_pattern) []].

(** [save_preset]; the arguments are the texts of the name field and of the
    pattern field. *)
Definition save_preset (root : element) (preset_name preset_pattern : string) : outcome :=
  sort_presets
    (set_children root (children root ++ [new_preset preset_name preset_pattern])).

(** [preset.find('pattern').text = new_text] in the children of [preset]. *)
Fixpoint set_first_pattern (cs : list element) (new_text : string) : option (list element) :=
  match cs with
  | [] => None                                   (* find gives None: AttributeError *)
  | c :: rest =>
      if String.eqb (tag c) "pattern" then Some (set_text c (Some new_text) :: rest)
      else option_map (cons c) (set_first_pattern rest new_text)
  end.

(** The loop of [overwrite_preset] over the children of the root, the
    presets among them: the children it leaves, and whether it raised. *)
Fixpoint overwrite_loop (cs : list element) (preset_name preset_pattern : string)
  : list element * bool :=
  match cs with
  | [] => ([], false)
  | c :: rest =>
      if (String.eqb (tag c) "preset" && named preset_name c)%bool then
        match set_first_pattern (children c) preset_pattern with
        | Some cs' =>
            let '(rest', raised) := overwrite_loop rest preset_name preset_pattern in
            (set_children c cs' :: rest', raised)
        | None => (c :: rest, true)
        end
      else
        let '(rest', raised) := overwrite_loop rest preset_name preset_pattern in
        (c :: rest', raised)
  end.

(** [overwrite_preset] *)
Definition overwrite_preset (root : element) (preset_name preset_pattern : string) : outcome :=
  let '(cs, raised) := overwrite_loop (children root) preset_name preset_pattern in
  if raised then Raises AttributeError (set_children root cs)
  else Returns (set_children root cs).

(** [save_button]; [confirm] is the answer to the overwrite dialog. *)
Definition save_button (root : element) (preset_name preset_pattern : string)
  (confirm : bool) : outcome :=
  if duplicate_check root preset_name then
    if confirm then overwrite_preset root preset_name preset_pattern
    else Returns root
  else save_preset root preset_name preset_pattern.

(** [get_selected_preset]: [None] when the first preset has no name. *)
Definition get_selected_preset (root : element) : option string :=
  match findall root "preset" with
  | preset :: _ => get preset "name"
  | [] => Some ""
  end.

(** [get_preset_names] *)
Definition get_preset_names (root : element) : list (option string) :=
  map (fun preset => get preset "name") (findall root "preset").

(** What [update_pattern] does to the pattern field. *)
Inductive pattern_update : Type :=
| Keep                                    (* no call of setText *)
| SetText (text : option string)
| NoPattern.                              (* AttributeError: find gave None *)

Fixpoint update_pattern_loop (presets : list element) (preset_name : string)
  : pattern_update :=
  match presets with
  | [] => Keep
  | preset :: rest =>
      if named preset_name preset then
        match find preset "pattern" with
        | Some p => SetText (text p)
        | None => NoPattern
        end
      else update_pattern_loop rest preset_name
  end.

(** [update_pattern]; [preset_name] is the text of the preset button. *)
Definition update_pattern (root : element) (preset_name : string) : pattern_update :=
  match preset_name with
  | EmptyString => Keep
  | _ => update_pattern_loop (findall root "preset") preset_name
  end.

(** [preset_delete_button], up to the reload of the file: when the dialog is
    confirmed, each preset of that name is removed from the root, the
    element itself; [preset_name] is the text of the preset button. *)
Definition preset_delete_button (root : element) (preset_name : string) (confirm : bool)
  : element :=
  if confirm then
    set_children root
      (filter (fun c => negb (String.eqb (tag c) "preset" && named preset_name c))
              (children root))
  else root.

(** [load_pattern] on the root: the text of the pattern of the first preset,
    [{version}] without presets. *)
Definition load_pattern (root : element) : pattern_update :=
  match findall root "preset" with
  | preset :: _ =>
      match find preset "pattern" with
      | Some p => SetText (text p)
      | None => NoPattern
      end
  | [] => SetText (Some "{version}")
  end.

End Presets.

(** The children are in the order of [sort_presets]. *)
Definition key_sorted (cs : list ETree.element) : Prop :=
  StronglySorted
    (fun a b => Presets.key_lt (Presets.sort_key b) (Presets.sort_key a) = Some false) cs.

(** The presets of a root that have the name [n]. *)
Definition presets_named (root : ETree.element) (n : string) : list ETree.element :=
  filter (Presets.named n) (ETree.findall root "preset").

(** What the loop of [overwrite_preset] does to one child: the tag and the
    name stay, and a child that is not a preset of the name stays as it is. *)
Definition overwritten (n pat : string) (c c' : ETree.element) : Prop :=
  Presets.sort_key c' = Presets.sort_key c
  /\ ((String.eqb (ETree.tag c) "preset" && Presets.named n c)%bool = false -> c' = c).

(** ** The creation of the reel and of the folder *)

Definition is_ascii (c : ascii) : bool := (nat_of_ascii c <? 128)%nat.

(** [s.encode('ascii', 'ignore')]: the characters outside ASCII are left
    out. *)
Fixpoint encode_ascii_ignore (s : string) : string :=
  match s with
  | EmptyString => EmptyString
  | String c s' =>
      if is_ascii c then String c (encode_ascii_ignore s') else encode_ascii_ignore s'
  end.

(** [create_desktop_reel]: the name given to [create_reel]. *)
Definition create_desktop_reel (self : ContinueFolder) : string :=
  encode_ascii_ignore (folder_new self).

Definition starts_with_slash (s : string) : bool :=
  match s with
  | String "/" _ => true
  | _ => false
  end.

Fixpoint ends_with_slash (s : string) : bool :=
  match s with
  | EmptyString => false
  | String c EmptyString => Ascii.eqb c "/"
  | String _ s' => ends_with_slash s'
  end.

(** [os.path.join(a, b)] of [posixpath]. *)
Definition join (a b : string) : string :=
  if starts_with_slash b then b
  else if (match a with EmptyString => true | _ => false end || ends_with_slash a)%bool
       then a ++ b
       else a ++ "/" ++ b.

(** [create_media_hub_folder]: the path given to [os.mkdir]; [path] is
    [self.path]. *)
Definition create_media_hub_folder (path : string) (self : ContinueFolder) : string :=
  join path (folder_new self).

(** The syntax tree of a literal text, a dot, a literal text and the match
    fragment of the version token. *)
Definition version_after_dot (pre1 pre2 : string) : Re.regex :=
  seq_lit pre1 (Re.RSeq Re.RAny (version_after pre2)).

(** A pattern made of a literal text, the token of the year with four
    digits, a literal text and a version token. *)
Definition year_pattern (pre1 pre2 : string) (p : nat) : string :=
  pre1 ++ "{YYYY}" ++ version_pattern pre2 p.

(** Four digits, then a literal text and the match fragment of the version
    token, after a literal text. *)
Definition version_after_year (pre1 pre2 : string) : Re.regex :=
  seq_lit pre1 (Re.RSeq (Re.RRepeat 4 (Some 4) (Re.RSet false [("0", "9")%char]))
                        (version_after pre2)).

(** ** Lemmas on strings *)

Section Strings.

Lemma append_nil_r (s : string) : s ++ "" = s.
Proof. induction s; simpl; congruence. Qed.

Lemma append_assoc (a b c : string) : (a ++ b) ++ c = a ++ (b ++ c).
Proof. induction a; simpl; congruence. Qed.

Lemma length_append (a b : string) :
  String.length (a ++ b) = String.length a + String.length b.
Proof. induction a; simpl; congruence. Qed.

Lemma take_append (a b : string) : Re.take (String.length a) (a ++ b) = a.
Proof. induction a; simpl; [destruct b; reflexivity | congruence]. Qed.

Lemma consumed_append (a b : string) : Re.consumed (a ++ b) b = a.
Proof.
  unfold Re.consumed. rewrite length_append.
  replace (String.length a + String.length b - String.length b) with (String.length a) by lia.
  apply take_append.
Qed.

Lemma strip_prefix_append (t s : string) : Spec.strip_prefix t (t ++ s) = Some s.
Proof.
  induction t as [|c t IH]; simpl; [reflexivity|].
  now rewrite Ascii.eqb_refl.
Qed.

Lemma strip_prefix_sound (t s rest : string) :
  Spec.strip_prefix t s = Some rest -> s = t ++ rest.
Proof.
  revert s. induction t as [|c t IH]; intros s H; simpl in *.
  - congruence.
  - destruct s as [|d s]; [discriminate|].
    destruct (Ascii.eqb c d) eqn:E; [|discriminate].
    apply Ascii.eqb_eq in E. subst d. f_equal. auto.
Qed.

Lemma skip_count (p : ascii -> bool) (s : string) :
  String.length s = Spec.count p s + String.length (Spec.skip p s).
Proof.
  induction s as [|c s IH]; simpl; [reflexivity|].
  destruct (p c); simpl; lia.
Qed.

Lemma consumed_skip_length (p : ascii -> bool) (s : string) :
  String.length (Re.consumed s (Spec.skip p s)) = Spec.count p s.
Proof.
  unfold Re.consumed. rewrite (skip_count p s) at 1.
  replace (Spec.count p s + String.length (Spec.skip p s) - String.length (Spec.skip p s))
    with (Spec.count p s) by lia.
  induction s as [|c s IH]; simpl; [reflexivity|].
  destruct (p c); simpl; [now rewrite IH | reflexivity].
Qed.

End Strings.

(** ** The matcher on literal texts and on stars of one character *)

Section Matcher.

Lemma m_seq_lit (t : string) (r : Re.regex) (k : Re.cont) (s : string) (cs : Re.caps) :
  Re.m (seq_lit t r) k s cs =
  match Spec.strip_prefix t s with
  | Some rest => Re.m r k rest cs
  | None => None
  end.
Proof.
  revert s. induction t as [|c t IH]; intros s; simpl; [reflexivity|].
  unfold Re.one. destruct s as [|d s]; [reflexivity|].
  destruct (Ascii.eqb c d); [apply IH | reflexivity].
Qed.

Lemma lit_regex_seq (c : ascii) (t : string) :
  lit_regex (String c t) = match t with
                           | EmptyString => Re.RChar c
                           | _ => Re.RSeq (Re.RChar c) (lit_regex t)
                           end.
Proof. destruct t; reflexivity. Qed.

Lemma m_lit (t : string) (k : Re.cont) (s : string) (cs : Re.caps) :
  Re.m (lit_regex t) k s cs =
  match Spec.strip_prefix t s with
  | Some rest => k rest cs
  | None => None
  end.
Proof.
  revert s. induction t as [|c t IH]; intros s; [reflexivity|].
  rewrite lit_regex_seq. destruct t as [|c' t].
  - simpl. unfold Re.one. destruct s as [|d s]; [reflexivity|].
    destruct (Ascii.eqb c d); reflexivity.
  - change (Re.m (Re.RSeq (Re.RChar c) (lit_regex (String c' t))) k s cs)
      with (Re.one (Ascii.eqb c) (Re.m (lit_regex (String c' t)) k) s cs).
    unfold Re.one. destruct s as [|d s]; [reflexivity|].
    change (Spec.strip_prefix (String c (String c' t)) (String d s))
      with (if Ascii.eqb c d then Spec.strip_prefix (String c' t) s else None).
    destruct (Ascii.eqb c d); [apply IH | reflexivity].
Qed.

(** The greedy repeat of a one-character test is the star. *)
Lemma rep_one_star (p : ascii -> bool) (k : Re.cont) (s : string) :
  forall fuel cs, String.length s < fuel ->
    Re.rep (Re.one p) fuel 0 None k s cs = star p k s cs.
Proof.
  induction s as [|d s IH]; intros fuel cs Hf; destruct fuel as [|f]; try (simpl in Hf; lia).
  - reflexivity.
  - simpl in Hf. simpl. destruct (p d); [|reflexivity].
    assert (Hlt : (String.length s <? S (String.length s))%nat = true)
      by (apply Nat.ltb_lt; lia).
    rewrite Hlt. rewrite IH by lia. reflexivity.
Qed.

Lemma m_star_char (c : ascii) (k : Re.cont) (s : string) (cs : Re.caps) :
  Re.m (Re.RRepeat 0 None (Re.RChar c)) k s cs = star (Ascii.eqb c) k s cs.
Proof. cbv beta delta [Re.m] iota. apply rep_one_star. lia. Qed.

Lemma m_star_any (k : Re.cont) (s : string) (cs : Re.caps) :
  Re.m (Re.RRepeat 0 None Re.RAny) k s cs =
  star (fun d => negb (Ascii.eqb d Re.newline)) k s cs.
Proof. cbv beta delta [Re.m] iota. apply rep_one_star. lia. Qed.

Lemma m_star_set (neg : bool) (items : list (ascii * ascii)) (k : Re.cont)
  (s : string) (cs : Re.caps) :
  Re.m (Re.RRepeat 0 None (Re.RSet neg items)) k s cs =
  star (fun d => xorb neg (Re.in_set d items)) k s cs.
Proof. cbv beta delta [Re.m] iota. apply rep_one_star. lia. Qed.

(** When what follows cannot start with a repeated character, the star takes
    all of them. *)
Lemma star_all (p : ascii -> bool) (k : Re.cont) :
  (forall d s cs, p d = true -> k (String d s) cs = None) ->
  forall s cs, star p k s cs = k (Spec.skip p s) cs.
Proof.
  intros Hk s. induction s as [|d s IH]; intros cs; simpl; [reflexivity|].
  destruct (p d) eqn:E; [|reflexivity].
  rewrite IH. destruct (k (Spec.skip p s) cs) eqn:Ek; [reflexivity|].
  now apply Hk.
Qed.

(** When what follows succeeds after all the repeated characters, that is the
    star's answer. *)
Lemma star_greedy (p : ascii -> bool) (k : Re.cont) (s : string) (cs : Re.caps) x :
  k (Spec.skip p s) cs = Some x -> star p k s cs = Some x.
Proof.
  induction s as [|d s IH]; simpl; [auto|].
  destruct (p d); [|auto]. intros H. now rewrite (IH H).
Qed.

Lemma star_prefix (p : ascii -> bool) (k : Re.cont) (pre rest : string) (cs : Re.caps) x :
  all_chars p pre = true ->
  star p k rest cs = Some x -> star p k (pre ++ rest) cs = Some x.
Proof.
  induction pre as [|c pre IH]; simpl; [auto|].
  intros Hp Hs. apply andb_true_iff in Hp as [Hc Hp].
  rewrite Hc. now rewrite (IH Hp Hs).
Qed.

(** When what follows succeeds nowhere in [s], so does the star. *)
Lemma star_none (p : ascii -> bool) (k : Re.cont) (s : string) (cs : Re.caps) :
  (forall a b, s = a ++ b -> k b cs = None) -> star p k s cs = None.
Proof.
  induction s as [|d s IH]; intros H; simpl.
  - apply (H "" ""). reflexivity.
  - assert (Hs : star p k s cs = None).
    { apply IH. intros a b E. apply (H (String d a) b). simpl. now rewrite E. }
    rewrite Hs. destruct (p d); apply (H "" (String d s)); reflexivity.
Qed.

End Matcher.

(** ** [re.sub] on the placeholders is textual replacement *)

Section Substitution.

Lemma match_at_lit (t : string) (n : nat) (s : string) :
  Re.match_at (lit_regex t) n s =
  match Spec.strip_prefix t s with
  | Some rest => Some (rest, repeat None n)
  | None => None
  end.
Proof. unfold Re.match_at. now rewrite m_lit. Qed.

Lemma strip_prefix_shorter (t s rest : string) :
  t <> "" -> Spec.strip_prefix t s = Some rest -> String.length rest < String.length s.
Proof.
  intros Ht H. apply strip_prefix_sound in H. subst s. rewrite length_append.
  destruct t; [congruence | simpl; lia].
Qed.

Lemma sub_loop_lit (t : string) (n : nat) (repl : string) :
  t <> "" ->
  forall fuel s, Re.sub_loop fuel (lit_regex t) n repl s = Spec.replace_loop fuel t repl s.
Proof.
  intros Ht. induction fuel as [|f IH]; intros s; [reflexivity|].
  simpl. rewrite match_at_lit.
  destruct (Spec.strip_prefix t s) as [rest|] eqn:E; destruct s as [|c s']; try reflexivity.
  - apply (strip_prefix_shorter _ _ _ Ht) in E.
    apply Nat.ltb_lt in E. rewrite E. now rewrite IH.
  - now rewrite IH.
Qed.

Lemma nullable_lit (t : string) : t <> "" -> Re.nullable (lit_regex t) = false.
Proof.
  destruct t as [|c t]; [congruence|]. intros _. rewrite lit_regex_seq.
  destruct t; reflexivity.
Qed.

(** Substituting a placeholder that compiles to its own text. *)
Lemma re_sub_lit (t repl : string) (n : nat) (s : string) :
  Re.compile t = Re.POk (lit_regex t, n) -> t <> "" ->
  Re.has_char "\" repl = false ->
  Re.re_sub t repl s = Returns (Spec.replace t repl s).
Proof.
  intros Hc Ht Hr. unfold Re.re_sub. rewrite Hc, (nullable_lit _ Ht), Hr. simpl orb.
  cbv iota. unfold Spec.replace. now rewrite sub_loop_lit.
Qed.

Lemma one_close_hash (k : Re.cont) (d : ascii) (s : string) (cs : Re.caps) :
  Spec.is_hash d = true -> Re.one (Ascii.eqb "}") k (String d s) cs = None.
Proof.
  unfold Spec.is_hash. intros H. apply Ascii.eqb_eq in H. subst d. reflexivity.
Qed.

Lemma match_at_version_token (s : string) :
  Re.match_at version_token_regex 0 s =
  match Spec.version_token s with
  | Some (_, rest) => Some (rest, [])
  | None => None
  end.
Proof.
  unfold Re.match_at, version_token_regex, Spec.version_token.
  rewrite m_seq_lit. destruct (Spec.strip_prefix "{version" s) as [r|]; [|reflexivity].
  change (Re.m (Re.RSeq (Re.RRepeat 0 None (Re.RChar "#")) (Re.RChar "}")) Re.accept r
            (repeat None 0))
    with (Re.m (Re.RRepeat 0 None (Re.RChar "#")) (Re.one (Ascii.eqb "}") Re.accept) r []).
  rewrite m_star_char.
  rewrite (star_all (Ascii.eqb "#") _ (one_close_hash Re.accept)).
  fold Spec.is_hash. destruct (Spec.skip Spec.is_hash r) as [|d r']; [reflexivity|].
  unfold Re.one, Re.accept.
  destruct (Ascii.eqb "}" d) eqn:E.
  - apply Ascii.eqb_eq in E. subst d. reflexivity.
  - destruct d as [[] [] [] [] [] [] [] []]; try reflexivity; discriminate.
Qed.

Lemma version_token_shorter (s rest : string) (n : nat) :
  Spec.version_token s = Some (n, rest) -> String.length rest < String.length s.
Proof.
  unfold Spec.version_token.
  destruct (Spec.strip_prefix "{version" s) as [r|] eqn:E; [|discriminate].
  apply strip_prefix_sound in E. subst s.
  pose proof (skip_count Spec.is_hash r) as Hc.
  destruct (Spec.skip Spec.is_hash r) as [|d r'] eqn:Es; [discriminate|].
  destruct d as [[] [] [] [] [] [] [] []]; try discriminate.
  intros H. injection H as _ <-. rewrite length_append. simpl in *. lia.
Qed.

Lemma sub_loop_version (repl : string) :
  forall fuel s,
    Re.sub_loop fuel version_token_regex 0 repl s = Spec.replace_version_loop fuel repl s.
Proof.
  induction fuel as [|f IH]; intros s; [reflexivity|].
  simpl. rewrite match_at_version_token.
  destruct (Spec.version_token s) as [[n rest]|] eqn:E; destruct s as [|c s']; try reflexivity.
  - apply version_token_shorter in E. apply Nat.ltb_lt in E. rewrite E. now rewrite IH.
  - now rewrite IH.
Qed.

(** Substituting the extended placeholder of the version token. *)
Lemma re_sub_version (repl s : string) :
  Re.has_char "\" repl = false ->
  Re.re_sub "{version#*}" repl s = Returns (Spec.replace_version repl s).
Proof.
  intros Hr. unfold Re.re_sub.
  change (Re.compile "{version#*}") with (Re.POk (version_token_regex, 0)).
  cbv iota beta. change (Re.nullable version_token_regex) with false.
  rewrite Hr. simpl orb. cbv iota. unfold Spec.replace_version.
  now rewrite sub_loop_version.
Qed.

(** The textual replacement, by its equations. *)
Lemma replace_loop_fuel (old new : string) :
  old <> "" ->
  forall f1 f2 s, String.length s < f1 -> String.length s < f2 ->
    Spec.replace_loop f1 old new s = Spec.replace_loop f2 old new s.
Proof.
  intros Ho. induction f1 as [|f1 IH]; intros f2 s H1 H2; [lia|].
  destruct f2 as [|f2]; [lia|]. cbn [Spec.replace_loop].
  destruct (Spec.strip_prefix old s) as [rest|] eqn:E; destruct s as [|c s]; try reflexivity.
  - apply (strip_prefix_shorter _ _ _ Ho) in E. f_equal. apply IH; lia.
  - simpl in H1, H2. f_equal. apply IH; lia.
Qed.

Lemma replace_loop_S (f : nat) (old new s : string) :
  Spec.replace_loop (S f) old new s =
  match Spec.strip_prefix old s, s with
  | Some rest, String _ _ => new ++ Spec.replace_loop f old new rest
  | None, String c s' => String c (Spec.replace_loop f old new s')
  | _, EmptyString => EmptyString
  end.
Proof. reflexivity. Qed.

Lemma replace_here (old new s : string) :
  old <> "" -> Spec.replace old new (old ++ s) = new ++ Spec.replace old new s.
Proof.
  intros Ho. unfold Spec.replace. rewrite (replace_loop_S (String.length (old ++ s))).
  rewrite strip_prefix_append. destruct old as [|c old]; [congruence|].
  cbn [append]. f_equal. apply replace_loop_fuel; [discriminate| |lia].
  simpl. rewrite length_append. lia.
Qed.

Lemma replace_next (old new : string) (c : ascii) (s : string) :
  old <> "" -> Spec.strip_prefix old (String c s) = None ->
  Spec.replace old new (String c s) = String c (Spec.replace old new s).
Proof.
  intros Ho H. unfold Spec.replace. rewrite (replace_loop_S (String.length (String c s))).
  now rewrite H.
Qed.

Lemma replace_version_loop_fuel (new : string) :
  forall f1 f2 s, String.length s < f1 -> String.length s < f2 ->
    Spec.replace_version_loop f1 new s = Spec.replace_version_loop f2 new s.
Proof.
  induction f1 as [|f1 IH]; intros f2 s H1 H2; [lia|].
  destruct f2 as [|f2]; [lia|]. cbn [Spec.replace_version_loop].
  destruct (Spec.version_token s) as [[k rest]|] eqn:E; destruct s as [|c s]; try reflexivity.
  - apply version_token_shorter in E. f_equal. apply IH; lia.
  - simpl in H1, H2. f_equal. apply IH; lia.
Qed.

Lemma replace_version_loop_S (f : nat) (new s : string) :
  Spec.replace_version_loop (S f) new s =
  match Spec.version_token s, s with
  | Some (_, rest), String _ _ => new ++ Spec.replace_version_loop f new rest
  | None, String c s' => String c (Spec.replace_version_loop f new s')
  | _, EmptyString => EmptyString
  end.
Proof. reflexivity. Qed.

Lemma replace_version_here (new s rest : string) (k : nat) :
  Spec.version_token s = Some (k, rest) ->
  Spec.replace_version new s = new ++ Spec.replace_version new rest.
Proof.
  intros H. unfold Spec.replace_version. rewrite (replace_version_loop_S (String.length s)).
  rewrite H. pose proof (version_token_shorter _ _ _ H) as Hl.
  destruct s as [|c s]; [simpl in Hl; lia|].
  f_equal. apply replace_version_loop_fuel; lia.
Qed.

Lemma replace_version_next (new : string) (c : ascii) (s : string) :
  Spec.version_token (String c s) = None ->
  Spec.replace_version new (String c s) = String c (Spec.replace_version new s).
Proof.
  intros H. unfold Spec.replace_version.
  rewrite (replace_version_loop_S (String.length (String c s))).
  now rewrite H.
Qed.

End Substitution.

(** ** The token table *)

Section Table.

Lemma all_chars_append (p : ascii -> bool) (a b : string) :
  all_chars p (a ++ b) = all_chars p a && all_chars p b.
Proof. induction a as [|c a IH]; simpl; [reflexivity|]. now rewrite IH, andb_assoc. Qed.

Lemma all_chars_has_char (p : ascii -> bool) (c : ascii) (s : string) :
  p c = false -> all_chars p s = true -> Re.has_char c s = false.
Proof.
  intros Hc. induction s as [|d s IH]; simpl; [reflexivity|].
  intros H. apply andb_true_iff in H as [Hd Hs]. rewrite (IH Hs), orb_false_r.
  destruct (Ascii.eqb c d) eqn:E; [|reflexivity].
  apply Ascii.eqb_eq in E. congruence.
Qed.

Lemma digits_uint (u : Decimal.uint) :
  all_chars PyStr.is_digit (NilEmpty.string_of_uint u) = true.
Proof. induction u; simpl; auto. Qed.

Lemma digits_uint_zero (u : Decimal.uint) :
  all_chars PyStr.is_digit (NilZero.string_of_uint u) = true.
Proof. destruct u; try reflexivity; apply (digits_uint (_ u)). Qed.

Lemma str_nonneg (z : Z) :
  (0 <= z)%Z -> exists u, PyStr.str z = NilZero.string_of_uint u.
Proof.
  intros H. unfold PyStr.str. destruct z as [|q|q]; [eexists; reflexivity.. | lia].
Qed.

Lemma digits_str (z : Z) : (0 <= z)%Z -> all_chars PyStr.is_digit (PyStr.str z) = true.
Proof. intros H. destruct (str_nonneg z H) as [u ->]. apply digits_uint_zero. Qed.

Lemma digits_zeros (n : nat) : all_chars PyStr.is_digit (PyStr.zeros n) = true.
Proof. induction n; simpl; auto. Qed.

(** Zero-filling a text that starts with a digit puts the zeros in front. *)
Lemma zfill_digits (s : string) (w : nat) :
  all_chars PyStr.is_digit s = true ->
  PyStr.zfill s w = PyStr.zeros (w - String.length s) ++ s.
Proof.
  intros H. unfold PyStr.zfill. destruct s as [|c s]; [reflexivity|].
  simpl in H. apply andb_true_iff in H as [Hc _].
  destruct c as [[] [] [] [] [] [] [] []]; try reflexivity; discriminate.
Qed.

Lemma digits_zfill (s : string) (w : nat) :
  all_chars PyStr.is_digit s = true -> all_chars PyStr.is_digit (PyStr.zfill s w) = true.
Proof.
  intros H. rewrite (zfill_digits _ _ H), all_chars_append, digits_zeros. exact H.
Qed.

Lemma digits_two (n : nat) : all_chars PyStr.is_digit (two_digits n) = true.
Proof. apply digits_zfill, digits_str. lia. Qed.

Lemma digits_no_backslash (s : string) :
  all_chars PyStr.is_digit s = true -> Re.has_char "\" s = false.
Proof. now apply all_chars_has_char. Qed.

Lemma digits_no_brace (s : string) :
  all_chars PyStr.is_digit s = true -> Re.has_char "{" s = false.
Proof. now apply all_chars_has_char. Qed.

(** [sub_tokens] on known placeholders substitutes them textually. *)
Lemma sub_tokens_spec (repl : token_values -> string) (items : token_dict) :
  Forall (fun nv => known_placeholder (snd nv)
                    /\ Re.has_char "\" (repl (snd nv)) = false) items ->
  forall text,
    sub_tokens repl items text =
    Returns (fold_left (fun text nv => Spec.substitute (snd nv) (repl (snd nv)) text)
                       items text).
Proof.
  induction 1 as [|[name values] items [Hk Hr] _ IH]; intros text; [reflexivity|].
  cbn [sub_tokens fold_left snd] in *. unfold known_placeholder in Hk.
  unfold Spec.substitute at 2. destruct (token_regex values) as [r|].
  - subst r. cbn [truthy]. rewrite (re_sub_version _ _ Hr). apply IH.
  - destruct Hk as [Hc Hne]. cbn [truthy]. rewrite (re_sub_lit _ _ _ _ Hc Hne Hr). apply IH.
Qed.

Lemma table_known (t : datetime) (v : string) :
  Forall (fun nv => known_placeholder (snd nv)) (table_with t v).
Proof.
  unfold table_with, table, generate_tokens, set_tokens, tokens, known_placeholder.
  cbn [set_value String.eqb Ascii.eqb Bool.eqb mk token token_regex pattern_regex_of value].
  repeat constructor; discriminate.
Qed.

Lemma table_fragments (t : datetime) (v : string) :
  Forall (fun nv => Re.has_char "\" (pattern_regex_of (snd nv)) = false) (table_with t v).
Proof.
  unfold table_with, table, generate_tokens, set_tokens, tokens.
  cbn [set_value String.eqb Ascii.eqb Bool.eqb mk token token_regex pattern_regex_of value].
  repeat constructor.
Qed.

Lemma ampm_lower (t : datetime) : Re.has_char "\" (lower (strftime t Dp)) = false.
Proof. unfold strftime. destruct (hour t <? 12)%nat; reflexivity. Qed.

Lemma ampm_upper (t : datetime) : Re.has_char "\" (upper (strftime t Dp)) = false.
Proof. unfold strftime. destruct (hour t <? 12)%nat; reflexivity. Qed.

Lemma table_values (t : datetime) (v : string) :
  Re.has_char "\" v = false ->
  Forall (fun nv => Re.has_char "\" (value (snd nv)) = false) (table_with t v).
Proof.
  intros Hv.
  unfold table_with, table, generate_tokens, set_tokens, tokens.
  cbn [set_value String.eqb Ascii.eqb Bool.eqb mk token token_regex pattern_regex_of value now].
  repeat constructor; cbn [snd value];
    try apply ampm_lower; try apply ampm_upper; try exact Hv;
    apply digits_no_backslash; unfold strftime; try apply digits_two.
  apply digits_str. lia.
Qed.

Lemma Forall_and {A : Type} (P Q : A -> Prop) (l : list A) :
  Forall P l -> Forall Q l -> Forall (fun x => P x /\ Q x) l.
Proof. induction 1; inversion 1; constructor; auto. Qed.

(** The compiler's loop over the table. *)
Lemma compile_table (t : datetime) (v text : string) :
  sub_tokens pattern_regex_of (table_with t v) text =
  Returns (Spec.compile (table_with t v) text).
Proof. apply sub_tokens_spec, Forall_and; [apply table_known | apply table_fragments]. Qed.

(** The resolver's loop over the table. *)
Lemma resolve_table (t : datetime) (v text : string) :
  Re.has_char "\" v = false ->
  sub_tokens value (table_with t v) text = Returns (Spec.resolve (table_with t v) text).
Proof.
  intros Hv. apply sub_tokens_spec, Forall_and; [apply table_known | now apply table_values].
Qed.

End Table.

(** ** What a match consumed and recorded *)

Section Soundness.

Lemma items_eqb_eq (x y : list (ascii * ascii)) :
  (fix eq_items (x y : list (ascii * ascii)) : bool :=
     match x, y with
     | [], [] => true
     | (a1, b1) :: x', (a2, b2) :: y' =>
         Ascii.eqb a1 a2 && Ascii.eqb b1 b2 && eq_items x' y'
     | _, _ => false
     end) x y = true -> x = y.
Proof.
  revert y. induction x as [|[a1 b1] x IH]; intros [|[a2 b2] y] H; try discriminate; auto.
  apply andb_true_iff in H as [H H3]. apply andb_true_iff in H as [H1 H2].
  apply Ascii.eqb_eq in H1, H2. subst. f_equal. auto.
Qed.

Lemma regex_eqb_eq (a b : Re.regex) : regex_eqb a b = true -> a = b.
Proof.
  revert b. induction a; intros [] H; simpl in H; try discriminate; auto.
  - apply Ascii.eqb_eq in H. now subst.
  - apply andb_true_iff in H as [H1 H2]. apply Bool.eqb_prop in H1.
    apply items_eqb_eq in H2. now subst.
  - apply andb_true_iff in H as [H1 H2]. f_equal; auto.
  - apply andb_true_iff in H as [H1 H2]. f_equal; auto.
  - apply andb_true_iff in H as [H H3]. apply andb_true_iff in H as [H1 H2].
    apply Nat.eqb_eq in H1. subst. f_equal; auto.
    destruct hi as [x|], hi0 as [y|]; try discriminate; auto.
    apply Nat.eqb_eq in H2. now subst.
  - apply andb_true_iff in H as [H1 H2]. apply Nat.eqb_eq in H1. subst. f_equal; auto.
Qed.

Lemma one_sound (p : ascii -> bool) (k : Re.cont) (s : string) (cs : Re.caps) res :
  Re.one p k s cs = Some res ->
  exists d s', s = String d s' /\ p d = true /\ k s' cs = Some res.
Proof.
  unfold Re.one. destruct s as [|d s']; [discriminate|].
  destruct (p d) eqn:E; [|discriminate]. eauto.
Qed.

Lemma star_sound (p : ascii -> bool) (k : Re.cont) (s : string) (cs : Re.caps) res :
  star p k s cs = Some res ->
  exists a b, s = a ++ b /\ all_chars p a = true /\ k b cs = Some res.
Proof.
  induction s as [|d s IH]; simpl; intros H.
  - exists "", "". auto.
  - destruct (p d) eqn:E.
    + destruct (star p k s cs) as [x|] eqn:Es.
      * injection H as ->. destruct (IH eq_refl) as (a & b & -> & Ha & Hk).
        exists (String d a), b. simpl. rewrite E, Ha. auto.
      * exists "", (String d s). auto.
    + exists "", (String d s). auto.
Qed.

Lemma skip_all (p : ascii -> bool) (s : string) :
  all_chars p s = true -> Spec.skip p s = "".
Proof.
  induction s as [|c s IH]; simpl; [reflexivity|].
  intros H. apply andb_true_iff in H as [Hc Hs]. rewrite Hc. auto.
Qed.

Lemma in_set_digit (d : ascii) : Re.in_set d [("0", "9")%char] = PyStr.is_digit d.
Proof. unfold Re.in_set, PyStr.is_digit. simpl. apply orb_false_r. Qed.

Lemma in_set_nonzero (d : ascii) : Re.in_set d [("1", "9")%char] = Spec.is_nonzero_digit d.
Proof. unfold Re.in_set, Spec.is_nonzero_digit. simpl. apply orb_false_r. Qed.

Lemma all_chars_ext (p q : ascii -> bool) (s : string) :
  (forall c, p c = q c) -> all_chars p s = all_chars q s.
Proof. intros H. induction s as [|c s IH]; simpl; [reflexivity|]. now rewrite H, IH. Qed.

(** The body of the version group consumes a version text and records
    nothing. *)
Lemma version_body_sound (k : Re.cont) (s : string) (cs : Re.caps) res :
  Re.m version_body k s cs = Some res ->
  exists w s', s = w ++ s' /\ Spec.is_version_text w = true /\ k s' cs = Some res.
Proof.
  unfold version_body.
  change (Re.m (Re.RSeq ?a ?b) k) with (Re.m a (Re.m b k)).
  change (Re.m (Re.RSet false [("1", "9")%char]) ?k')
    with (Re.one (fun d => xorb false (Re.in_set d [("1", "9")%char])) k').
  intros H. apply one_sound in H as (d & s1 & -> & Hd & H).
  rewrite m_star_set in H. apply star_sound in H as (a & b & -> & Ha & Hk).
  exists (String d a), b. repeat split; auto.
  simpl. rewrite xorb_false_l, in_set_nonzero in Hd. rewrite Hd.
  rewrite (skip_all PyStr.is_digit); [reflexivity|].
  rewrite <- Ha. apply all_chars_ext. intros c. now rewrite xorb_false_l, in_set_digit.
Qed.

Lemma set_cap_length (i : nat) (v : string) (cs : Re.caps) :
  List.length (Re.set_cap i v cs) = List.length cs.
Proof.
  revert i. induction cs as [|c cs IH]; intros i; [destruct i; reflexivity|].
  destruct i as [|[|i]]; simpl; auto.
  specialize (IH (S i)). simpl in IH. now rewrite IH.
Qed.

Lemma set_cap_ok (i : nat) (v : string) (cs : Re.caps) :
  Spec.is_version_text v = true -> caps_ok cs -> caps_ok (Re.set_cap i v cs).
Proof.
  intros Hv. unfold caps_ok. revert i.
  induction cs as [|c cs IH]; intros i H; [destruct i; constructor|].
  inversion H; subst. destruct i as [|[|i]]; simpl.
  - exact H.
  - constructor; auto.
  - constructor; auto. apply (IH (S i)). assumption.
Qed.

Lemma rep_sound (r : Re.regex) (lo0 : nat) (hi0 : option nat) :
  (forall k s cs res, Re.m r k s cs = Some res -> handed_on r k s cs res) ->
  forall fuel lo hi k s cs res,
    Re.rep (Re.m r) fuel lo hi k s cs = Some res ->
    handed_on (Re.RRepeat lo0 hi0 r) k s cs res.
Proof.
  intros IHr. induction fuel as [|f IH]; intros lo hi k s cs res H; [discriminate|].
  assert (Hk : k s cs = Some res -> handed_on (Re.RRepeat lo0 hi0 r) k s cs res).
  { intros E. exists s, cs. split; [exact E|]. split; [exists ""; reflexivity|]. auto. }
  assert (Hmore :
    Re.m r (fun s' cs' =>
              if (String.length s' <? String.length s)%nat
              then Re.rep (Re.m r) f (pred lo) (option_map pred hi) k s' cs'
              else None) s cs = Some res ->
    handed_on (Re.RRepeat lo0 hi0 r) k s cs res).
  { intros E. apply IHr in E as (s1 & cs1 & E & [w1 Hw1] & Hl & Hok).
    destruct (String.length s1 <? String.length s)%nat; [|discriminate].
    apply IH in E as (s2 & cs2 & E & [w2 Hw2] & Hl2 & Hok2).
    exists s2, cs2. split; [exact E|]. split.
    { exists (w1 ++ w2). now rewrite append_assoc, <- Hw2. }
    split; [congruence|].
    intros Hv Hc. apply Hok2; auto. }
  simpl in H. destruct hi as [[|h]|]; destruct lo as [|lo]; auto;
    match type of H with
    | match ?x with _ => _ end = _ => destruct x eqn:E; [injection H as ->|]; auto
    end.
Qed.

Lemma m_sound (r : Re.regex) :
  forall k s cs res, Re.m r k s cs = Some res -> handed_on r k s cs res.
Proof.
  assert (Hone : forall r' p k s cs res,
            Re.one p k s cs = Some res -> handed_on r' k s cs res).
  { intros r' p k s cs res H. apply one_sound in H as (d & s' & -> & _ & H).
    exists s', cs. split; [exact H|]. split; [exists (String d ""); reflexivity|]. auto. }
  induction r as [c| |neg items| |r1 IH1 r2 IH2|r1 IH1 r2 IH2|lo hi r1 IH1|i r1 IH1];
    intros k s cs res H.
  - exact (Hone _ _ _ _ _ _ H).
  - exact (Hone _ _ _ _ _ _ H).
  - exact (Hone _ _ _ _ _ _ H).
  - exists s, cs. split; [exact H|]. split; [exists ""; reflexivity|]. auto.
  - simpl in H. apply IH1 in H as (s1 & cs1 & H & [w1 Hw1] & Hl1 & Hok1).
    apply IH2 in H as (s2 & cs2 & H & [w2 Hw2] & Hl2 & Hok2).
    exists s2, cs2. split; [exact H|]. split.
    { exists (w1 ++ w2). now rewrite append_assoc, <- Hw2. }
    split; [congruence|].
    simpl. intros Hv Hc. apply andb_true_iff in Hv as [Hv1 Hv2]. auto.
  - simpl in H. destruct (Re.m r1 k s cs) eqn:E.
    + injection H as ->. apply IH1 in E as (s1 & cs1 & E & Hw & Hl & Hok).
      exists s1, cs1. split; [exact E|]. split; [exact Hw|]. split; [exact Hl|].
      simpl. intros Hv Hc. apply andb_true_iff in Hv as [Hv1 Hv2]. auto.
    + apply IH2 in H as (s1 & cs1 & E' & Hw & Hl & Hok).
      exists s1, cs1. split; [exact E'|]. split; [exact Hw|]. split; [exact Hl|].
      simpl. intros Hv Hc. apply andb_true_iff in Hv as [Hv1 Hv2]. auto.
  - change (Re.rep (Re.m r1) (S (String.length s)) lo hi k s cs = Some res) in H.
    exact (rep_sound r1 lo hi IH1 _ _ _ _ _ _ _ H).
  - simpl in H. destruct (regex_eqb r1 version_body) eqn:Ev.
    + apply regex_eqb_eq in Ev. subst r1.
      apply version_body_sound in H as (w & s' & -> & Hw & H).
      rewrite consumed_append in H.
      exists s', (Re.set_cap i w cs). split; [exact H|]. split; [exists w; reflexivity|].
      split; [apply set_cap_length|].
      intros _ Hc. now apply set_cap_ok.
    + apply IH1 in H as (s' & cs' & H & Hw & Hl & _).
      exists s', (Re.set_cap i (Re.consumed s s') cs'). split; [exact H|].
      split; [exact Hw|]. split; [now rewrite set_cap_length|].
      simpl. congruence.
Qed.

End Soundness.

(** ** [int] on version texts *)

Section IntOfText.

Lemma digit_not_space (c : ascii) : PyStr.is_digit c = true -> PyStr.is_space c = false.
Proof. destruct c as [[] [] [] [] [] [] [] []]; try reflexivity; discriminate. Qed.

Lemma lstrip_digits (s : string) : all_chars PyStr.is_digit s = true -> PyStr.lstrip s = s.
Proof.
  destruct s as [|c s]; [reflexivity|]. simpl. intros H.
  apply andb_true_iff in H as [Hc _]. now rewrite (digit_not_space _ Hc).
Qed.

Lemma all_chars_rev (p : ascii -> bool) (s acc : string) :
  all_chars p (PyStr.rev_string s acc) = all_chars p s && all_chars p acc.
Proof.
  revert acc. induction s as [|c s IH]; intros acc; simpl; [reflexivity|].
  rewrite IH. simpl. destruct (p c), (all_chars p s); reflexivity.
Qed.

Lemma rev_string_twice (s a b : string) :
  PyStr.rev_string (PyStr.rev_string s a) b = PyStr.rev_string a (s ++ b).
Proof. revert a b. induction s as [|c s IH]; intros a b; simpl; [reflexivity|]. now rewrite IH. Qed.

Lemma strip_digits (s : string) : all_chars PyStr.is_digit s = true -> PyStr.strip s = s.
Proof.
  intros H. unfold PyStr.strip. rewrite (lstrip_digits _ H).
  rewrite lstrip_digits by (rewrite all_chars_rev, H; reflexivity).
  rewrite rev_string_twice. simpl. apply append_nil_r.
Qed.

Lemma int_unsigned (c : ascii) (s : string) :
  PyStr.is_digit c = true -> all_chars PyStr.is_digit s = true ->
  PyStr.int (String c s) =
  match PyStr.int_digits (String c s) false 0%Z with
  | Some z => Returns z
  | None => Raises ValueError
  end.
Proof.
  intros Hc Hs. unfold PyStr.int. rewrite strip_digits by (simpl; now rewrite Hc, Hs).
  destruct c as [[] [] [] [] [] [] [] []]; try reflexivity; discriminate.
Qed.

Lemma digit_val_nonneg (c : ascii) : PyStr.is_digit c = true -> (0 <= PyStr.digit_val c)%Z.
Proof.
  unfold PyStr.is_digit, PyStr.digit_val. intros H.
  apply andb_true_iff in H as [H _]. apply Nat.leb_le in H. lia.
Qed.

Lemma int_digits_all (s : string) :
  all_chars PyStr.is_digit s = true ->
  forall acc, (0 <= acc)%Z ->
    exists z, PyStr.int_digits s true acc = Some z /\ (acc <= z)%Z.
Proof.
  induction s as [|c s IH]; simpl; intros H acc Hacc.
  - exists acc. split; [reflexivity | lia].
  - apply andb_true_iff in H as [Hc Hs]. rewrite Hc.
    pose proof (digit_val_nonneg _ Hc) as Hd.
    destruct (IH Hs (10 * acc + PyStr.digit_val c)%Z) as (z & E & Hz); [lia|].
    exists z. split; [exact E | lia].
Qed.

Lemma nonzero_is_digit (c : ascii) : Spec.is_nonzero_digit c = true -> PyStr.is_digit c = true.
Proof.
  unfold Spec.is_nonzero_digit, PyStr.is_digit. intros H.
  apply andb_true_iff in H as [H1 H2]. apply Nat.leb_le in H1.
  rewrite H2, andb_true_r. apply Nat.leb_le. lia.
Qed.

Lemma skip_empty_all (p : ascii -> bool) (s : string) :
  Spec.skip p s = "" -> all_chars p s = true.
Proof.
  induction s as [|c s IH]; simpl; [reflexivity|].
  destruct (p c); [auto | discriminate].
Qed.

Lemma version_text_digits (w : string) :
  Spec.is_version_text w = true ->
  exists c s, w = String c s /\ Spec.is_nonzero_digit c = true
              /\ all_chars PyStr.is_digit s = true.
Proof.
  destruct w as [|c s]; [discriminate|]. simpl. intros H.
  apply andb_true_iff in H as [Hc Hs]. exists c, s. repeat split; auto.
  apply skip_empty_all. destruct (Spec.skip PyStr.is_digit s); [reflexivity | discriminate].
Qed.

(** A version text parses, and to an integer that is at least 1. *)
Lemma int_version_text (w : string) :
  Spec.is_version_text w = true -> exists v, PyStr.int w = Returns v /\ (1 <= v)%Z.
Proof.
  intros H. apply version_text_digits in H as (c & s & -> & Hc & Hs).
  rewrite (int_unsigned _ _ (nonzero_is_digit _ Hc) Hs). simpl.
  rewrite (nonzero_is_digit _ Hc).
  assert (Hd : (1 <= PyStr.digit_val c)%Z).
  { unfold Spec.is_nonzero_digit, PyStr.digit_val in *.
    apply andb_true_iff in Hc as [H1 _]. apply Nat.leb_le in H1. lia. }
  destruct (int_digits_all s Hs (0 + PyStr.digit_val c)%Z) as (z & E & Hz); [lia|].
  exists z. simpl in E. rewrite E. split; [reflexivity | lia].
Qed.

End IntOfText.

(** ** The scan *)

Section Scan.

Lemma repeat_none_ok (n : nat) : caps_ok (repeat None n).
Proof. induction n; constructor; auto. Qed.

Lemma match_at_sound (r : Re.regex) (n : nat) (s rest : string) (cs : Re.caps) :
  Re.match_at r n s = Some (rest, cs) ->
  s = Re.consumed s rest ++ rest
  /\ List.length cs = n /\ (version_groups_only r = true -> caps_ok cs).
Proof.
  intros H. apply m_sound in H as (s' & cs' & E & [w Hw] & Hl & Hok).
  injection E as -> ->. rewrite repeat_length in Hl.
  split; [subst s; now rewrite consumed_append|]. split; [exact Hl|].
  intros Hv. apply Hok; [exact Hv | apply repeat_none_ok].
Qed.

Lemma capture_tokens_error (regex folder : string) :
  Re.compile regex = Re.PErr -> capture_tokens regex folder = Returns None.
Proof. intros H. unfold capture_tokens, Re.re_match. now rewrite H. Qed.

Lemma find_folder_error (regex folder : string) :
  Re.compile regex = Re.PErr -> find_folder regex folder = Returns [].
Proof. intros H. unfold find_folder. now rewrite (capture_tokens_error _ _ H). Qed.

Lemma capture_tokens_compiled (regex folder : string) (r : Re.regex) (n : nat) :
  Re.compile regex = Re.POk (r, n) ->
  capture_tokens regex folder =
  Returns match Re.match_at r n folder with
          | Some (rest, cs) => Some {| Re.group0 := Re.consumed folder rest; Re.mgroups := cs |}
          | None => None
          end.
Proof.
  intros H. unfold capture_tokens, Re.re_match. rewrite H.
  destruct (Re.match_at r n folder) as [[rest cs]|]; reflexivity.
Qed.

(** What one folder adds to the list: nothing, or one tuple that has a
    version exactly when the regex has one group; with version groups only,
    that version is at least 1. *)
Lemma find_folder_compiled (regex folder : string) (r : Re.regex) (n : nat) l :
  Re.compile regex = Re.POk (r, n) ->
  find_folder regex folder = Returns l ->
  Forall (fun f => has_version f = (n =? 1)%nat
                   /\ (version_groups_only r = true ->
                       forall v, snd f = Some v -> (1 <= v)%Z)) l.
Proof.
  intros Hc. unfold find_folder. rewrite (capture_tokens_compiled _ _ _ _ Hc).
  cbn [bind]. destruct (Re.match_at r n folder) as [[rest cs]|] eqn:E.
  2:{ intros H. injection H as <-. constructor. }
  apply match_at_sound in E as (_ & Hl & Hok). cbn [Re.mgroups Re.group Re.group0].
  rewrite Hl. destruct (n =? 1)%nat eqn:En.
  - destruct (nth 0 cs None) as [text|] eqn:Et; [|discriminate].
    destruct (PyStr.int text) as [v| |] eqn:Ei; cbn [bind]; try discriminate.
    intros H. injection H as <-. constructor; [|constructor].
    split; [reflexivity|]. cbn [snd]. intros Hv v' Hv'. injection Hv' as <-.
    specialize (Hok Hv). destruct cs as [|c cs]; [discriminate|].
    simpl in Et. subst c. inversion Hok as [|? ? Ht _]; subst.
    apply int_version_text in Ht as (v' & Ei' & Hge). congruence.
  - intros H. injection H as <-. constructor; [|constructor].
    split; [reflexivity|]. cbn [snd]. discriminate.
Qed.

Lemma find_folders_loop_Forall (P : folder_tuple -> Prop) (regex : string) :
  (forall folder l, find_folder regex folder = Returns l -> Forall P l) ->
  forall dirs acc fs,
    find_folders_loop regex dirs acc = Returns fs -> Forall P acc -> Forall P fs.
Proof.
  intros HP. induction dirs as [|d dirs IH]; intros acc fs H Hacc; simpl in H.
  - now injection H as <-.
  - destruct (find_folder regex d) as [l| |] eqn:E; try discriminate.
    cbn [bind] in H. apply (IH _ _ H). apply Forall_app. split; [exact Hacc|].
    exact (HP _ _ E).
Qed.

Lemma find_folders_loop_error (regex : string) :
  Re.compile regex = Re.PErr ->
  forall dirs acc, find_folders_loop regex dirs acc = Returns acc.
Proof.
  intros H. induction dirs as [|d dirs IH]; intros acc; simpl; [reflexivity|].
  rewrite (find_folder_error _ _ H). cbn [bind]. now rewrite app_nil_r.
Qed.

Lemma find_folders_loop_none (regex : string) :
  forall dirs acc,
    Forall (fun d => capture_tokens regex d = Returns None) dirs ->
    find_folders_loop regex dirs acc = Returns acc.
Proof.
  induction dirs as [|d dirs IH]; intros acc H; simpl; [reflexivity|].
  inversion H as [|? ? Hd Hrest]; subst. unfold find_folder. rewrite Hd.
  cbn [bind]. rewrite app_nil_r. now apply IH.
Qed.

End Scan.

(** ** The next version *)

Section NextVersion.

Lemma versions_none (fs : list folder_tuple) :
  Forall (fun f => has_version f = false) fs -> versions fs = [].
Proof.
  induction 1 as [|[g [v|]] fs H _ IH]; simpl; auto. discriminate.
Qed.

Lemma next_version_none (fs : list folder_tuple) :
  Forall (fun f => has_version f = false) fs -> next_version fs = Returns (fs, 1%Z).
Proof.
  intros H. destruct H as [|[g [v|]] fs H _]; [reflexivity | discriminate | reflexivity].
Qed.

Lemma sort_keys_all (fs : list folder_tuple) :
  Forall (fun f => has_version f = true) fs -> exists ks, sort_keys fs = Returns ks.
Proof.
  induction 1 as [|[g [v|]] fs H _ [ks IH]]; simpl; try discriminate; eauto.
  rewrite IH. simpl. eauto.
Qed.

Lemma insert_sorted_max (g : string) (v : Z) (l : list folder_tuple) (mx : Z) :
  ends_with_max l mx -> ends_with_max (insert_sorted (g, Some v) l) (Z.max v mx).
Proof.
  intros [(l0 & g0 & ->) Hall]. revert Hall.
  induction l0 as [|y l0 IH]; intros Hall.
  - simpl. unfold key at 1 2. cbn [snd]. destruct (v <=? mx)%Z eqn:E.
    + apply Z.leb_le in E. rewrite Z.max_r by lia. split.
      * exists [(g, Some v)], g0. reflexivity.
      * repeat constructor; unfold key; cbn [snd]; lia.
    + apply Z.leb_gt in E. rewrite Z.max_l by lia. split.
      * exists [(g0, Some mx)], g. reflexivity.
      * repeat constructor; unfold key; cbn [snd]; lia.
  - inversion Hall as [|? ? Hy Hrest]; subst.
    cbn [insert_sorted app]. destruct (key (g, Some v) <=? key y)%Z eqn:E.
    + apply Z.leb_le in E. unfold key at 1 in E. cbn [snd] in E.
      rewrite Z.max_r by lia. split.
      * exists ((g, Some v) :: y :: l0), g0. reflexivity.
      * constructor; [unfold key; cbn [snd]; lia | exact Hall].
    + destruct (IH Hrest) as [(l1 & g1 & E1) Hall1]. split.
      * exists (y :: l1), g1. cbn [app]. now rewrite E1.
      * constructor; [lia | exact Hall1].
Qed.

Lemma sort_max (fs : list folder_tuple) (g : string) (v : Z) :
  Forall (fun f => has_version f = true) fs ->
  ends_with_max (fold_right insert_sorted [] ((g, Some v) :: fs))
                (Spec.maximum v (versions fs)).
Proof.
  intros H. revert g v. induction H as [|[g' [v'|]] fs Hf _ IH]; intros g v.
  - simpl. split; [exists [], g; reflexivity|].
    repeat constructor. unfold key. cbn [snd]. lia.
  - change (versions ((g', Some v') :: fs)) with (v' :: versions fs).
    cbn [Spec.maximum]. change (fold_right insert_sorted [] ((g, Some v) :: ?l))
      with (insert_sorted (g, Some v) (fold_right insert_sorted [] l)).
    apply insert_sorted_max, IH.
  - discriminate.
Qed.

Lemma next_version_all (fs : list folder_tuple) :
  fs <> [] -> Forall (fun f => has_version f = true) fs ->
  exists sorted, next_version fs = Returns (sorted, Spec.resolve_next (versions fs)).
Proof.
  intros Hne H. destruct (sort_keys_all _ H) as [ks Hks].
  destruct fs as [|[g [v|]] fs]; [congruence| |inversion H; discriminate].
  inversion H as [|? ? _ Hrest]; subst.
  destruct (sort_max fs g v Hrest) as [(l0 & g0 & E) _].
  exists (fold_right insert_sorted [] ((g, Some v) :: fs)).
  unfold next_version, sort_by_version. rewrite Hks. cbn [bind].
  match goal with
  | |- context [last_version ?x] =>
      assert (Hl : last_version x = Returns (Spec.maximum v (versions fs)))
  end.
  { unfold last_version.
    replace (rev _) with (rev (l0 ++ [(g0, Some (Spec.maximum v (versions fs)))])%list)
      by (f_equal; symmetry; exact E).
    rewrite rev_app_distr. reflexivity. }
  rewrite Hl. reflexivity.
Qed.

(** Tuples that all have a version, or that all have none: the next version
    is the largest version plus one, or 1. *)
Lemma next_version_uniform (b : bool) (fs : list folder_tuple) :
  Forall (fun f => has_version f = b) fs ->
  exists sorted, next_version fs = Returns (sorted, Spec.resolve_next (versions fs)).
Proof.
  intros H. destruct fs as [|f fs]; [exists []; reflexivity|].
  destruct b.
  - apply next_version_all; [discriminate | exact H].
  - exists (f :: fs). rewrite (next_version_none _ H), (versions_none _ H). reflexivity.
Qed.

End NextVersion.

(** ** The padding search *)

Section Padding.

Lemma padding_regex_compiled :
  Re.compile "(?:.*{version)(?P<padding>#*)}" = Re.POk (padding_regex, 1).
Proof. reflexivity. Qed.

Lemma match_at_padding (s : string) :
  Re.match_at padding_regex 1 s = star not_newline token_here s [None].
Proof.
  unfold Re.match_at, padding_regex.
  change (Re.m (Re.RSeq (Re.RSeq ?a ?b) ?c) Re.accept) with (Re.m a (Re.m b (Re.m c Re.accept))).
  unfold token_here. apply m_star_any.
Qed.

Lemma hash_then_close (s : string) (d : ascii) (s' : string) (cs : Re.caps) :
  Spec.is_hash d = true ->
  (fun s1 cs1 => Re.one (Ascii.eqb "}") Re.accept s1
                   (Re.set_cap 1 (Re.consumed s s1) cs1)) (String d s') cs = None.
Proof. intros H. cbv beta. now apply one_close_hash. Qed.

(** A version token at the start of the input, seen by the search. *)
Lemma token_here_spec (s : string) :
  token_here s [None] =
  match Spec.strip_prefix "{version" s with
  | Some r =>
      match Spec.skip Spec.is_hash r with
      | String "}" rest => Some (rest, [Some (Re.consumed r (Spec.skip Spec.is_hash r))])
      | _ => None
      end
  | None => None
  end.
Proof.
  unfold token_here. rewrite m_lit.
  destruct (Spec.strip_prefix "{version" s) as [r|]; [|reflexivity].
  change (Re.m (Re.RSeq (Re.RGroup 1 (Re.RRepeat 0 None (Re.RChar "#"))) (Re.RChar "}"))
               Re.accept r [None])
    with (Re.m (Re.RRepeat 0 None (Re.RChar "#"))
               (fun s1 cs1 => Re.one (Ascii.eqb "}") Re.accept s1
                                (Re.set_cap 1 (Re.consumed r s1) cs1)) r [None]).
  rewrite m_star_char.
  rewrite (star_all (Ascii.eqb "#") _ (hash_then_close r)).
  fold Spec.is_hash. destruct (Spec.skip Spec.is_hash r) as [|d r'] eqn:E; [reflexivity|].
  unfold Re.one, Re.accept. destruct (Ascii.eqb "}" d) eqn:Ed.
  - apply Ascii.eqb_eq in Ed. subst d. reflexivity.
  - destruct d as [[] [] [] [] [] [] [] []]; try reflexivity; discriminate.
Qed.

Lemma token_here_none (s : string) :
  Spec.version_token s = None -> token_here s [None] = None.
Proof.
  rewrite token_here_spec. unfold Spec.version_token.
  destruct (Spec.strip_prefix "{version" s) as [r|]; [|reflexivity].
  destruct (Spec.skip Spec.is_hash r) as [|d r']; [reflexivity|].
  destruct d as [[] [] [] [] [] [] [] []]; try reflexivity; discriminate.
Qed.

Lemma skip_hashes (k : nat) (post : string) :
  Spec.skip Spec.is_hash (Spec.hashes k ++ String "}" post) = String "}" post.
Proof. induction k; simpl; auto. Qed.

Lemma length_hashes (k : nat) : String.length (Spec.hashes k) = k.
Proof. induction k; simpl; auto. Qed.

Lemma token_here_token (k : nat) (post : string) :
  token_here ("{version" ++ Spec.hashes k ++ String "}" post) [None]
  = Some (post, [Some (Spec.hashes k)]).
Proof.
  rewrite token_here_spec, strip_prefix_append, skip_hashes.
  now rewrite consumed_append.
Qed.

Lemma has_version_token_eq (s : string) :
  Spec.has_version_token s =
  match Spec.version_token s with
  | Some _ => true
  | None => match s with
            | String _ s' => Spec.has_version_token s'
            | EmptyString => false
            end
  end.
Proof. destruct s; reflexivity. Qed.

Lemma no_token_anywhere (s : string) :
  Spec.has_version_token s = false ->
  forall a b, s = a ++ b -> Spec.version_token b = None.
Proof.
  intros H a. revert s H. induction a as [|c a IH]; intros s H b E; simpl in E; subst s.
  - rewrite has_version_token_eq in H.
    destruct (Spec.version_token b); [discriminate | reflexivity].
  - apply (IH (a ++ b)); [|reflexivity].
    rewrite has_version_token_eq in H.
    destruct (Spec.version_token (String c (a ++ b))); [discriminate | exact H].
Qed.

Lemma version_token_brace (c : ascii) (s : string) :
  Ascii.eqb "{" c = false -> Spec.version_token (String c s) = None.
Proof. intros H. unfold Spec.version_token. cbn [Spec.strip_prefix]. now rewrite H. Qed.

Lemma has_version_token_skip (u post : string) :
  Re.has_char "{" u = false ->
  Spec.has_version_token (u ++ post) = Spec.has_version_token post.
Proof.
  induction u as [|c u IH]; [reflexivity|]. cbn [Re.has_char]. intros H.
  apply orb_false_iff in H as [Hc Hu]. cbn [append Spec.has_version_token].
  rewrite (version_token_brace _ _ Hc). auto.
Qed.

Lemma has_char_append (c : ascii) (a b : string) :
  Re.has_char c (a ++ b) = Re.has_char c a || Re.has_char c b.
Proof. induction a as [|d a IH]; simpl; [reflexivity|]. now rewrite IH, orb_assoc. Qed.

Lemma has_char_hashes (k : nat) : Re.has_char "{" (Spec.hashes k) = false.
Proof. induction k; simpl; auto. Qed.

Lemma star_no_token (s : string) :
  Spec.has_version_token s = false -> star not_newline token_here s [None] = None.
Proof.
  intros H. apply star_none. intros a b E.
  apply token_here_none. exact (no_token_anywhere s H a b E).
Qed.

(** The search finds the version token that no line break precedes and that
    no version token follows. *)
Lemma match_at_padding_token (pre post : string) (k : nat) :
  Re.has_char Re.newline pre = false ->
  Spec.has_version_token post = false ->
  Re.match_at padding_regex 1 (pre ++ "{version" ++ Spec.hashes k ++ String "}" post)
  = Some (post, [Some (Spec.hashes k)]).
Proof.
  intros Hpre Hpost. rewrite match_at_padding. apply star_prefix.
  - clear -Hpre. induction pre as [|c pre IH]; [reflexivity|].
    cbn [Re.has_char all_chars] in *. apply orb_false_iff in Hpre as [Hc Hp].
    unfold not_newline at 1. rewrite Ascii.eqb_sym, Hc. cbn [negb andb]. auto.
  - change ("{version" ++ Spec.hashes k ++ String "}" post)
      with (String "{" ("version" ++ Spec.hashes k ++ String "}" post)).
    cbn [star]. change (not_newline "{") with true. cbv iota.
    rewrite star_no_token.
    + apply (token_here_token k post).
    + change (String "}" post) with ("}" ++ post).
      rewrite <- !append_assoc, has_version_token_skip; [exact Hpost|].
      rewrite !has_char_append, has_char_hashes. reflexivity.
Qed.

(** The search always returns, with a padding. *)
Lemma find_version_padding_returns (self : ContinueFolder) :
  exists n, find_version_padding self = Returns (set_version_padding self n).
Proof.
  unfold find_version_padding.
  rewrite (capture_tokens_compiled _ _ _ _ padding_regex_compiled).
  cbn [bind]. rewrite match_at_padding.
  destruct (star not_newline token_here (pattern self) [None]) as [[rest cs]|] eqn:E;
    [|exists 0; reflexivity].
  apply star_sound in E as (a & b & _ & _ & E). rewrite token_here_spec in E.
  destruct (Spec.strip_prefix "{version" b) as [r|]; [|discriminate].
  destruct (Spec.skip Spec.is_hash r) as [|d r'] eqn:Es; [discriminate|].
  destruct d as [[] [] [] [] [] [] [] []]; try discriminate.
  injection E as _ <-. cbn [Re.group Re.mgroups nth]. eauto.
Qed.

End Padding.

(** ** The properties of the specification *)

Section VersionResolver.

Lemma maximum_ge (v : Z) (vs : list Z) :
  forall w, In w (v :: vs) -> (w <= Spec.maximum v vs)%Z.
Proof.
  revert v. induction vs as [|u vs IH]; intros v w [<-|Hin]; simpl; try lia.
  - destruct Hin.
  - specialize (IH u w Hin). lia.
Qed.

Lemma maximum_in (v : Z) (vs : list Z) : In (Spec.maximum v vs) (v :: vs).
Proof.
  revert v. induction vs as [|u vs IH]; intros v; [left; reflexivity|].
  cbn [Spec.maximum]. destruct (Z.max_spec v (Spec.maximum u vs)) as [[_ ->]|[_ ->]].
  - right. apply IH.
  - left. reflexivity.
Qed.

Lemma find_folder_huge (regex folder : string) :
  Re.compile regex = Re.PHuge -> find_folder regex folder = Raises OverflowError.
Proof. intros H. unfold find_folder, capture_tokens, Re.re_match. now rewrite H. Qed.

Lemma find_folder_outside (regex folder : string) :
  Re.compile regex = Re.POut -> find_folder regex folder = Unmodelled.
Proof. intros H. unfold find_folder, capture_tokens, Re.re_match. now rewrite H. Qed.

(** The tuples of one scan all have a version, or all have none. *)
Lemma scan_uniform (regex : string) (dirs : list string) (fs : list folder_tuple) :
  find_folders_loop regex dirs [] = Returns fs ->
  exists b, Forall (fun f => has_version f = b) fs.
Proof.
  intros H. destruct (Re.compile regex) as [[r n]| | |] eqn:Ec.
  - exists (n =? 1)%nat.
    apply (find_folders_loop_Forall _ regex) with (dirs := dirs) (acc := []); auto.
    intros folder l Hl. pose proof (find_folder_compiled _ _ _ _ _ Ec Hl) as Hf.
    eapply Forall_impl; [|exact Hf]. intros f [Hv _]. exact Hv.
  - rewrite (find_folders_loop_error _ Ec) in H. injection H as <-.
    exists true. constructor.
  - destruct dirs as [|d dirs]; simpl in H.
    + injection H as <-. exists true. constructor.
    + rewrite (find_folder_huge _ _ Ec) in H. discriminate.
  - destruct dirs as [|d dirs]; simpl in H.
    + injection H as <-. exists true. constructor.
    + rewrite (find_folder_outside _ _ Ec) in H. discriminate.
Qed.

Lemma update_version_token_next (self : ContinueFolder) (sorted : list folder_tuple) (v : Z) :
  next_version (folders self) = Returns (sorted, v) ->
  exists self',
    update_version_token self = Returns self'
    /\ folders self' = sorted
    /\ pattern self' = pattern self
    /\ pattern_regex self' = pattern_regex self
    /\ tokens self' =
       set_value "Version" (PyStr.zfill (PyStr.str v) (version_padding self')) (tokens self).
Proof.
  intros H. destruct (find_version_padding_returns self) as [n Hn].
  unfold update_version_token. rewrite Hn. cbn [bind].
  change (folders (set_version_padding self n)) with (folders self).
  rewrite H. cbn [bind]. eexists. split; [reflexivity|]. repeat split.
Qed.

(** On the folder tuples of any scan, the version resolver returns the
    largest version plus one when at least one tuple carries a version
    (compared as integers), and 1 when none does: when the directory is
    empty, when no entry matched, or when the compiled regex has no
    capturing group. *)
Theorem next_version_of_scan (regex : string) (dirs : list string) (fs : list folder_tuple) :
  find_folders_loop regex dirs [] = Returns fs ->
  (exists sorted, next_version fs = Returns (sorted, Spec.resolve_next (versions fs)))
  /\ (forall self, folders self = fs ->
        exists self',
          update_version_token self = Returns self'
          /\ tokens self' =
             set_value "Version"
               (PyStr.zfill (PyStr.str (Spec.resolve_next (versions fs)))
                            (version_padding self'))
               (tokens self))
  /\ (forall v, In v (versions fs) -> (v + 1 <= Spec.resolve_next (versions fs))%Z)
  /\ (versions fs <> [] -> In (Spec.resolve_next (versions fs) - 1)%Z (versions fs))
  /\ (versions fs = [] -> Spec.resolve_next (versions fs) = 1%Z)
  /\ (dirs = [] -> versions fs = [])
  /\ (Forall (fun d => capture_tokens regex d = Returns None) dirs -> versions fs = [])
  /\ (forall r, Re.compile regex = Re.POk (r, 0) -> versions fs = []).
Proof.
  intros H. destruct (scan_uniform _ _ _ H) as [b Hb].
  destruct (next_version_uniform b fs Hb) as [sorted Hn].
  split; [eauto|]. split.
  { intros self Hf. rewrite <- Hf in Hn.
    destruct (update_version_token_next self sorted _ Hn) as (self' & E & _ & _ & _ & Ht).
    rewrite Hf in Ht. eauto. }
  split.
  { intros v Hin. destruct (versions fs) as [|w ws]; [destruct Hin|].
    cbn [Spec.resolve_next]. pose proof (maximum_ge w ws v Hin). lia. }
  split.
  { intros Hne. destruct (versions fs) as [|w ws]; [congruence|].
    cbn [Spec.resolve_next]. replace (Spec.maximum w ws + 1 - 1)%Z with (Spec.maximum w ws) by lia.
    apply maximum_in. }
  split; [intros ->; reflexivity|]. split.
  { intros ->. simpl in H. now injection H as <-. }
  split.
  { intros Hd. rewrite (find_folders_loop_none _ _ _ Hd) in H. now injection H as <-. }
  intros r Hc. apply versions_none.
  apply (find_folders_loop_Forall _ regex) with (dirs := dirs) (acc := []); auto.
  intros folder l Hl. pose proof (find_folder_compiled _ _ _ _ _ Hc Hl) as Hf.
  eapply Forall_impl; [|exact Hf]. intros f [Hv _]. exact Hv.
Qed.

(** Folders named 10, 11 and 9 (the order of their names as texts) against
    the version fragment: the next version is 12. *)
Lemma next_version_of_scan_witness :
  exists sorted,
    next_version [("10", Some 10%Z); ("11", Some 11%Z); ("9", Some 9%Z)]
    = Returns (sorted, 12%Z).
Proof.
  exact (proj1 (next_version_of_scan "0*(?P<version>[1-9][0-9]*)" ["10"; "11"; "9"]
                  [("10", Some 10%Z); ("11", Some 11%Z); ("9", Some 9%Z)] eq_refl)).
Defined.

(** C1.  For a pattern without a version token the version resolver is to
    return 1 whatever the directory holds.  The pattern [([0-9])] has no
    version token, yet [find_folders] reads the pattern's own capturing
    group as the version (its guard counts the groups of [groups()], which
    are not the named ones only, as its comment has it): with a folder
    named 5 the list carries the version 5 and the resolver returns 6. *)
Lemma group_without_version_token :
  Spec.has_version_token "([0-9])" = false
  /\ (exists self,
        init clock_2023 ["([0-9])"] ["5"] = Returns self
        /\ folders self = [("5", Some 5%Z)]
        /\ get_value "Version" (tokens self) = Some "6")
  /\ (exists sorted, next_version [("5", Some 5%Z)] = Returns (sorted, 6%Z)).
Proof.
  split; [reflexivity|]. split.
  - eexists. split; [vm_compute; reflexivity|]. split; reflexivity.
  - eexists. reflexivity.
Qed.

End VersionResolver.

Section PaddingDetection.

(** The padding detection reads the raw pattern: for a version token
    ([{version], zero or more [#], [}]) that no line break precedes and no
    version token follows, it returns the token's number of [#]; for a
    pattern without a version token it returns 0. *)
Lemma padding_of_version_token (self : ContinueFolder) :
  (forall pre k post,
      pattern self = pre ++ "{version" ++ Spec.hashes k ++ String "}" post ->
      Re.has_char Re.newline pre = false ->
      Spec.has_version_token post = false ->
      find_version_padding self = Returns (set_version_padding self k))
  /\ (Spec.has_version_token (pattern self) = false ->
      find_version_padding self = Returns (set_version_padding self 0)).
Proof.
  split.
  - intros pre k post Hp Hpre Hpost. unfold find_version_padding.
    rewrite (capture_tokens_compiled _ _ _ _ padding_regex_compiled). cbn [bind].
    rewrite Hp, (match_at_padding_token _ _ _ Hpre Hpost).
    cbn [Re.group Re.mgroups nth]. now rewrite length_hashes.
  - intros Hno. unfold find_version_padding.
    rewrite (capture_tokens_compiled _ _ _ _ padding_regex_compiled). cbn [bind].
    rewrite match_at_padding, (star_no_token _ Hno). reflexivity.
Qed.

Lemma padding_of_version_token_example :
  find_version_padding (set_pattern (blank clock_2023) "proj_{YYYY}_{version##}")
  = Returns (set_version_padding
               (set_pattern (blank clock_2023) "proj_{YYYY}_{version##}") 2)
  /\ find_version_padding (set_pattern (blank clock_2023) "{YYYY}_{MM}")
     = Returns (set_version_padding (set_pattern (blank clock_2023) "{YYYY}_{MM}") 0).
Proof.
  split.
  - apply (proj1 (padding_of_version_token
                    (set_pattern (blank clock_2023) "proj_{YYYY}_{version##}"))
             "proj_{YYYY}_" 2 ""); reflexivity.
  - apply (proj2 (padding_of_version_token
                    (set_pattern (blank clock_2023) "{YYYY}_{MM}"))); reflexivity.
Defined.

(** C4.  The padding detection is to return the number of [#] of the
    version token of every pattern; for a version token with two [#] that
    follows a line break, the search does not see the token and the padding
    is 0, while the pattern compiler does substitute that token. *)
Theorem padding_after_line_break :
  let text := String "a" (String Re.newline "{version##}") in
  let self := set_pattern (blank clock_2023) text in
  text = String "a" (String Re.newline "") ++ "{version" ++ Spec.hashes 2 ++ String "}" ""
  /\ Spec.has_version_token text = true
  /\ find_version_padding self = Returns (set_version_padding self 0)
  /\ Spec.compile (table_with clock_2023 "1") text
     = String "a" (String Re.newline "0*(?P<version>[1-9][0-9]*)").
Proof. repeat split. Qed.

End PaddingDetection.

Section InvalidRegex.


Lemma table_with_twice (t : datetime) (v w : string) :
  set_value "Version" w (table_with t v) = table_with t w.
Proof. reflexivity. Qed.









End InvalidRegex.

Section Scanner.

Lemma group_fails_on_zero (k : Re.cont) (d : ascii) (s : string) (cs : Re.caps) :
  is_zero d = true -> Re.m (Re.RGroup 1 version_body) k (String d s) cs = None.
Proof. unfold is_zero. intros H. apply Ascii.eqb_eq in H. subst d. reflexivity. Qed.

Lemma skip_zeros (k : nat) (c : ascii) (s : string) :
  is_zero c = false -> Spec.skip is_zero (PyStr.zeros k ++ String c s) = String c s.
Proof. intros H. induction k; simpl; [|exact IHk]. fold (is_zero c). now rewrite H. Qed.

Lemma skip_zeros_only (k : nat) : Spec.skip is_zero (PyStr.zeros k) = "".
Proof. induction k; simpl; auto. Qed.

Lemma nonzero_not_zero (c : ascii) : Spec.is_nonzero_digit c = true -> is_zero c = false.
Proof. destruct c as [[] [] [] [] [] [] [] []]; try reflexivity; discriminate. Qed.

Lemma skip_ext (p q : ascii -> bool) (s : string) :
  (forall c, p c = q c) -> Spec.skip p s = Spec.skip q s.
Proof. intros H. induction s as [|c s IH]; simpl; [reflexivity|]. now rewrite H, IH. Qed.

Lemma skip_append_all (p : ascii -> bool) (a rest : string) :
  all_chars p a = true -> Spec.skip p (a ++ rest) = Spec.skip p rest.
Proof.
  induction a as [|c a IH]; simpl; [reflexivity|].
  intros H. apply andb_true_iff in H as [Hc Ha]. rewrite Hc. auto.
Qed.

(** The group of the version token on a version text followed by no digit. *)
Lemma version_group_match (w rest : string) (cs : Re.caps) :
  Spec.is_version_text w = true -> Spec.skip PyStr.is_digit rest = rest ->
  Re.m (Re.RGroup 1 version_body) Re.accept (w ++ rest) cs
  = Some (rest, Re.set_cap 1 w cs).
Proof.
  intros Hw Hrest. apply version_text_digits in Hw as (c & a & -> & Hc & Ha).
  change (Re.m (Re.RGroup 1 version_body) Re.accept (String c a ++ rest) cs)
    with (Re.one (fun d => xorb false (Re.in_set d [("1", "9")%char]))
            (Re.m (Re.RRepeat 0 None (Re.RSet false [("0", "9")%char]))
               (fun s' cs' => Re.accept s'
                  (Re.set_cap 1 (Re.consumed (String c a ++ rest) s') cs')))
            (String c (a ++ rest)) cs).
  unfold Re.one. rewrite xorb_false_l, in_set_nonzero, Hc, m_star_set.
  apply star_greedy.
  rewrite (skip_ext _ PyStr.is_digit) by (intros d; now rewrite xorb_false_l, in_set_digit).
  rewrite (skip_append_all _ _ _ Ha), Hrest.
  unfold Re.accept. now rewrite consumed_append.
Qed.

(** Leading zeros are consumed before the group. *)
Lemma match_version_after (pre : string) (k : nat) (w rest : string) :
  Spec.is_version_text w = true -> Spec.skip PyStr.is_digit rest = rest ->
  Re.match_at (version_after pre) 1 (pre ++ PyStr.zeros k ++ w ++ rest)
  = Some (rest, [Some w]).
Proof.
  intros Hw Hrest. unfold Re.match_at, version_after.
  rewrite m_seq_lit, strip_prefix_append.
  change (Re.m (Re.RSeq ?a ?b) Re.accept) with (Re.m a (Re.m b Re.accept)).
  rewrite m_star_char. fold is_zero.
  rewrite (star_all is_zero _ (group_fails_on_zero Re.accept)).
  destruct (version_text_digits _ Hw) as (c & a & E & Hc & Ha).
  rewrite E at 1. cbn [append]. rewrite (skip_zeros _ _ _ (nonzero_not_zero _ Hc)).
  change (String c (a ++ rest)) with (String c a ++ rest). rewrite <- E.
  now rewrite version_group_match.
Qed.

(** A name that ends in zeros only does not match. *)
Lemma no_match_zeros (pre : string) (k : nat) :
  Re.match_at (version_after pre) 1 (pre ++ PyStr.zeros k) = None.
Proof.
  unfold Re.match_at, version_after. rewrite m_seq_lit, strip_prefix_append.
  change (Re.m (Re.RSeq ?a ?b) Re.accept) with (Re.m a (Re.m b Re.accept)).
  rewrite m_star_char. fold is_zero.
  rewrite (star_all is_zero _ (group_fails_on_zero Re.accept)).
  now rewrite skip_zeros_only.
Qed.

(** An entry is matched from its start, and what follows the match is
    left aside; an entry without a match adds nothing and raises nothing; a
    match is recorded with its full matched text; when the only capturing
    groups of the regex are version groups (and there is exactly one), the text
    of the group is a version text (a non-zero digit followed by digits,
    hence without the leading zeros) and the integer it parses to is
    recorded; on the version fragment, the zeros in front are part of the
    match and not of the group. *)
Theorem scanner_records_match :
  (forall regex folder mo,
      capture_tokens regex folder = Returns (Some mo) ->
      exists trailing, folder = Re.group0 mo ++ trailing)
  /\ (forall regex folder,
        capture_tokens regex folder = Returns None ->
        find_folder regex folder = Returns [])
  /\ (forall regex folder mo l,
        capture_tokens regex folder = Returns (Some mo) ->
        find_folder regex folder = Returns l ->
        exists version, l = [(Re.group0 mo, version)])
  /\ (forall regex r folder mo text,
        Re.compile regex = Re.POk (r, 1) -> version_groups_only r = true ->
        capture_tokens regex folder = Returns (Some mo) ->
        Re.group mo 1 = Some text ->
        Spec.is_version_text text = true
        /\ exists v, PyStr.int text = Returns v
                     /\ find_folder regex folder = Returns [(Re.group0 mo, Some v)])
  /\ (forall k w rest,
        Spec.is_version_text w = true -> Spec.skip PyStr.is_digit rest = rest ->
        capture_tokens "0*(?P<version>[1-9][0-9]*)" (PyStr.zeros k ++ w ++ rest)
        = Returns (Some {| Re.group0 := PyStr.zeros k ++ w; Re.mgroups := [Some w] |})).
Proof.
  split.
  { intros regex folder mo H. unfold capture_tokens, Re.re_match in H.
    destruct (Re.compile regex) as [[r n]| | |]; try discriminate.
    destruct (Re.match_at r n folder) as [[rest cs]|] eqn:E; try discriminate.
    injection H as <-. apply match_at_sound in E as [E _]. exists rest. exact E. }
  split.
  { intros regex folder H. unfold find_folder. now rewrite H. }
  split.
  { intros regex folder mo l H. unfold find_folder. rewrite H. cbn [bind].
    destruct (List.length (Re.mgroups mo) =? 1)%nat.
    - destruct (Re.group mo 1) as [text|]; [|discriminate].
      destruct (PyStr.int text) as [v| |]; cbn [bind]; try discriminate.
      intros E. injection E as <-. eauto.
    - intros E. injection E as <-. eauto. }
  split.
  { intros regex r folder mo text Hc Hv H Hg.
    rewrite (capture_tokens_compiled _ _ _ _ Hc) in H.
    destruct (Re.match_at r 1 folder) as [[rest cs]|] eqn:E; [|discriminate].
    injection H as H.
    pose proof (match_at_sound _ _ _ _ _ E) as (_ & Hl & Hok). specialize (Hok Hv).
    assert (Ht : Spec.is_version_text text = true).
    { subst mo. cbn [Re.group Re.mgroups] in Hg.
      destruct cs as [|c cs]; [discriminate|]. simpl in Hg. subst c.
      now inversion Hok. }
    split; [exact Ht|]. destruct (int_version_text _ Ht) as (v & Ei & _).
    exists v. split; [exact Ei|].
    unfold find_folder. rewrite (capture_tokens_compiled _ _ _ _ Hc).
    cbn [bind]. rewrite E, H.
    replace (Re.mgroups mo) with cs by (now subst mo).
    rewrite Hl, Nat.eqb_refl, Hg. now rewrite Ei. }
  intros k w rest Hw Hrest.
  rewrite (capture_tokens_compiled "0*(?P<version>[1-9][0-9]*)" _ (version_after "") 1
             eq_refl).
  pose proof (match_version_after "" k w rest Hw Hrest) as E. cbn [append] in E.
  rewrite E. do 3 f_equal.
  now rewrite <- (append_assoc (PyStr.zeros k) w rest), consumed_append.
Qed.

Lemma scanner_records_match_witness :
  capture_tokens "0*(?P<version>[1-9][0-9]*)" "0012_final"
  = Returns (Some {| Re.group0 := "0012"; Re.mgroups := [Some "12"] |})
  /\ exists v, PyStr.int "12" = Returns v
               /\ find_folder "0*(?P<version>[1-9][0-9]*)" "0012_final"
                  = Returns [("0012", Some v)].
Proof.
  split.
  - exact (proj2 (proj2 (proj2 (proj2 scanner_records_match))) 2 "12" "_final"
             eq_refl eq_refl).
  - exact (proj2 (proj1 (proj2 (proj2 (proj2 scanner_records_match)))
             "0*(?P<version>[1-9][0-9]*)" (version_after "") "0012_final"
             {| Re.group0 := "0012"; Re.mgroups := [Some "12"] |} "12"
             eq_refl eq_refl eq_refl eq_refl)).
Defined.

(** C2.  When the regex contains the version group, the scanner is to
    record the integer of its text.  The regex compiled from
    [(a)_{version}] contains the version group, but with the group of the
    pattern's own text [groups()] has two members (it does not return the
    named groups only, as the comment of the guard has it), and for the
    folder [a_3] the match is recorded without a version. *)
Lemma own_group_hides_version :
  Spec.compile (table_with clock_2023 "1") "(a)_{version}" = "(a)_0*(?P<version>[1-9][0-9]*)"
  /\ capture_tokens "(a)_0*(?P<version>[1-9][0-9]*)" "a_3"
     = Returns (Some {| Re.group0 := "a_3"; Re.mgroups := [Some "a"; Some "3"] |})
  /\ find_folder "(a)_0*(?P<version>[1-9][0-9]*)" "a_3" = Returns [("a_3", None)].
Proof. repeat split. Qed.

End Scanner.

Section VersionsPositive.

Lemma versions_Forall (P : Z -> Prop) (fs : list folder_tuple) :
  Forall (fun f => forall v, snd f = Some v -> P v) fs -> Forall P (versions fs).
Proof.
  induction 1 as [|[g [v|]] fs Hf _ IH]; simpl; auto.
Qed.

Lemma compile_pattern (t : datetime) (v text : string) (self : ContinueFolder) :
  generate_pattern_regex (set_pattern (set_tokens self (table_with t v)) text)
  = Returns (set_pattern_regex (set_pattern (set_tokens self (table_with t v)) text)
               (Spec.compile (table_with t v) text)).
Proof. unfold generate_pattern_regex. cbn [tokens pattern set_pattern set_tokens].
  now rewrite compile_table. Qed.

(** With version groups as the only capturing groups of the compiled
    pattern, every version the scan records is at least 1; the pattern
    [proj_{version##}] compiles to such a regex, and a name that is [proj_]
    followed by zeros only ([proj_00] for one) does not match it and adds
    nothing to the list. *)
Theorem versions_at_least_one :
  (forall regex r n dirs fs,
      Re.compile regex = Re.POk (r, n) -> version_groups_only r = true ->
      find_folders_loop regex dirs [] = Returns fs ->
      Forall (fun v => (1 <= v)%Z) (versions fs))
  /\ (forall t v self,
        generate_pattern_regex
          (set_pattern (set_tokens self (table_with t v)) "proj_{version##}")
        = Returns (set_pattern_regex
                     (set_pattern (set_tokens self (table_with t v)) "proj_{version##}")
                     "proj_0*(?P<version>[1-9][0-9]*)"))
  /\ (exists r, Re.compile "proj_0*(?P<version>[1-9][0-9]*)" = Re.POk (r, 1)
                /\ version_groups_only r = true)
  /\ (forall k,
        capture_tokens "proj_0*(?P<version>[1-9][0-9]*)" ("proj_" ++ PyStr.zeros k)
        = Returns None
        /\ find_folder "proj_0*(?P<version>[1-9][0-9]*)" ("proj_" ++ PyStr.zeros k)
           = Returns [])
  /\ find_folders_loop "proj_0*(?P<version>[1-9][0-9]*)" ["proj_00"; "proj_0"; "proj_03"] []
     = Returns [("proj_03", Some 3%Z)].
Proof.
  split.
  { intros regex r n dirs fs Hc Hv H. apply versions_Forall.
    apply (find_folders_loop_Forall _ regex) with (dirs := dirs) (acc := []); auto.
    intros folder l Hl. pose proof (find_folder_compiled _ _ _ _ _ Hc Hl) as Hf.
    eapply Forall_impl; [|exact Hf]. intros f [_ Hge]. auto. }
  split.
  { intros t v self. rewrite compile_pattern. reflexivity. }
  split.
  { exists (version_after "proj_"). split; reflexivity. }
  split; [|reflexivity].
  intros k.
  assert (E : capture_tokens "proj_0*(?P<version>[1-9][0-9]*)" ("proj_" ++ PyStr.zeros k)
              = Returns None).
  { rewrite (capture_tokens_compiled "proj_0*(?P<version>[1-9][0-9]*)" _
               (version_after "proj_") 1 eq_refl).
    now rewrite (no_match_zeros "proj_" k). }
  split; [exact E|]. unfold find_folder. now rewrite E.
Qed.

Lemma versions_at_least_one_witness :
  Forall (fun v => (1 <= v)%Z)
         (versions [("proj_2023_01", Some 1%Z); ("proj_2023_09", Some 9%Z)]).
Proof.
  exact (proj1 versions_at_least_one
           "proj_[0-9]{4}_0*(?P<version>[1-9][0-9]*)"
           (seq_lit "proj_"
              (Re.RSeq (Re.RRepeat 4 (Some 4) (Re.RSet false [("0", "9")%char]))
                       (version_after "_")))
           1 ["proj_2023_01"; "proj_2023_00"; "proj_2023_09"]
           [("proj_2023_01", Some 1%Z); ("proj_2023_09", Some 9%Z)]
           eq_refl eq_refl eq_refl).
Defined.

(** C10.  Every version the scanner extracts is to be at least 1, so that
    an entry of zeros never enters the list of folders.  The pattern
    [([0-9])] has no version token; [find_folders] reads the pattern's own
    capturing group as the version (its guard counts the groups of
    [groups()], not the named ones only), and the folder named 0 enters the
    list with the version 0. *)
Theorem zero_version_from_own_group :
  Spec.has_version_token "([0-9])" = false
  /\ find_folder "([0-9])" "0" = Returns [("0", Some 0%Z)]
  /\ (exists self,
        init clock_2023 ["([0-9])"] ["0"] = Returns self
        /\ folders self = [("0", Some 0%Z)]
        /\ ~ Forall (fun v => (1 <= v)%Z) (versions (folders self))).
Proof.
  split; [reflexivity|]. split; [vm_compute; reflexivity|].
  eexists. split; [vm_compute; reflexivity|]. split; [reflexivity|].
  cbn [folders versions flat_map snd app]. intros H. inversion H; lia.
Qed.

End VersionsPositive.

Section Compiler.

(** C3.  The pattern compiler substitutes, for every token of the table, the
    extended placeholder syntax when the token defines one and the primary
    placeholder otherwise, each occurrence replaced by the token's match
    fragment: a version token with any number of [#] where the text has one,
    the placeholder text itself where the text has it, and the next character
    kept otherwise.  A date pattern and the version token with and without
    [#] compile as the docstring says. *)
Theorem compiler_substitutes_placeholders (t : datetime) (v text : string)
  (self : ContinueFolder) :
  generate_pattern_regex (set_pattern (set_tokens self (table_with t v)) text)
  = Returns (set_pattern_regex (set_pattern (set_tokens self (table_with t v)) text)
               (Spec.compile (table_with t v) text))
  /\ (forall values fragment s rest k,
        token_regex values <> None -> Spec.version_token s = Some (k, rest) ->
        Spec.substitute values fragment s = fragment ++ Spec.substitute values fragment rest)
  /\ (forall values fragment c s,
        token_regex values <> None -> Spec.version_token (String c s) = None ->
        Spec.substitute values fragment (String c s)
        = String c (Spec.substitute values fragment s))
  /\ (forall values fragment s,
        token_regex values = None -> token values <> "" ->
        Spec.substitute values fragment (token values ++ s)
        = fragment ++ Spec.substitute values fragment s)
  /\ (forall values fragment c s,
        token_regex values = None -> token values <> "" ->
        Spec.strip_prefix (token values) (String c s) = None ->
        Spec.substitute values fragment (String c s)
        = String c (Spec.substitute values fragment s))
  /\ Spec.compile (table_with t v) "{YYYY}_{MM}_{DD}" = "[0-9]{4}_[0-9]{2}_[0-9]{2}"
  /\ Spec.compile (table_with t v) "{version}" = "0*(?P<version>[1-9][0-9]*)"
  /\ Spec.compile (table_with t v) "{version##}" = "0*(?P<version>[1-9][0-9]*)".
Proof.
  split; [apply compile_pattern|]. split.
  { intros values fragment s rest k Hx Hs. unfold Spec.substitute.
    destruct (token_regex values); [|congruence]. exact (replace_version_here _ _ _ _ Hs). }
  split.
  { intros values fragment c s Hx Hs. unfold Spec.substitute.
    destruct (token_regex values); [|congruence]. exact (replace_version_next _ _ _ Hs). }
  split.
  { intros values fragment s Hx Ht. unfold Spec.substitute. rewrite Hx.
    now apply replace_here. }
  split.
  { intros values fragment c s Hx Ht Hs. unfold Spec.substitute. rewrite Hx.
    now apply replace_next. }
  repeat split.
Qed.

Lemma compiler_substitutes_placeholders_witness :
  Spec.substitute (mk "{DD}" None "[0-9]{2}" "05") "[0-9]{2}" ("{DD}" ++ "_{DD}")
  = "[0-9]{2}" ++ Spec.substitute (mk "{DD}" None "[0-9]{2}" "05") "[0-9]{2}" "_{DD}"
  /\ Spec.substitute (mk "{version}" (Some "{version#*}") "0*" "1") "0*" "{version###}_a"
     = "0*" ++ Spec.substitute (mk "{version}" (Some "{version#*}") "0*" "1") "0*" "_a".
Proof.
  split.
  - apply (proj1 (proj2 (proj2 (proj2
             (compiler_substitutes_placeholders clock_2023 "1" "" (blank clock_2023)))))
             (mk "{DD}" None "[0-9]{2}" "05") "[0-9]{2}" "_{DD}");
      [reflexivity | discriminate].
  - apply (proj1 (proj2 (compiler_substitutes_placeholders clock_2023 "1" ""
                           (blank clock_2023)))
             (mk "{version}" (Some "{version#*}") "0*" "1") "0*" "{version###}_a" "_a" 3);
      [discriminate | reflexivity].
Defined.

End Compiler.

Section Rendering.

Lemma length_zeros (n : nat) : String.length (PyStr.zeros n) = n.
Proof. induction n; simpl; auto. Qed.

(** C5.  A next version that is not negative is rendered as its decimal
    digits with zeros in front up to the padding, and as its digits alone
    when they are at least as many as the padding; 3 with the padding 2 is
    rendered 03.  With the padding 0, that of a pattern without version
    token, any integer is rendered as [str] gives it. *)
Theorem version_is_zero_filled (v : Z) (p : nat) :
  (0 <= v)%Z ->
  all_chars PyStr.is_digit (PyStr.str v) = true
  /\ PyStr.zfill (PyStr.str v) p
     = PyStr.zeros (p - String.length (PyStr.str v)) ++ PyStr.str v
  /\ String.length (PyStr.zfill (PyStr.str v) p) = Nat.max p (String.length (PyStr.str v))
  /\ (p <= String.length (PyStr.str v) -> PyStr.zfill (PyStr.str v) p = PyStr.str v)
  /\ PyStr.zfill (PyStr.str 3) 2 = "03"
  /\ (forall z, PyStr.zfill (PyStr.str z) 0 = PyStr.str z)
  /\ (forall self sorted,
        next_version (folders self) = Returns (sorted, v) ->
        exists self',
          update_version_token self = Returns self'
          /\ tokens self' =
             set_value "Version" (PyStr.zfill (PyStr.str v) (version_padding self'))
                       (tokens self)).
Proof.
  intros Hv. pose proof (digits_str v Hv) as Hd.
  pose proof (zfill_digits _ p Hd) as Hz.
  split; [exact Hd|]. split; [exact Hz|]. split.
  { rewrite Hz, length_append, length_zeros. lia. }
  split.
  { intros Hp. rewrite Hz. replace (p - String.length (PyStr.str v)) with 0 by lia.
    reflexivity. }
  split; [reflexivity|]. split.
  { intros z. unfold PyStr.zfill. cbn [Nat.sub PyStr.zeros append].
    destruct (PyStr.str z) as [|c r]; [reflexivity|].
    destruct c as [[] [] [] [] [] [] [] []]; reflexivity. }
  intros self sorted Hn.
  destruct (update_version_token_next self sorted v Hn) as (self' & E & _ & _ & _ & Ht).
  eauto.
Qed.

Lemma version_is_zero_filled_witness :
  PyStr.zfill (PyStr.str 10) 3 = PyStr.zeros (3 - String.length (PyStr.str 10)) ++ PyStr.str 10.
Proof.
  apply (proj1 (proj2 (version_is_zero_filled 10 3 ltac:(lia)))).
Defined.

End Rendering.

Section NameResolver.

Lemma occurs_eq (old s : string) :
  Spec.occurs old s =
  match Spec.strip_prefix old s with
  | Some _ => true
  | None => match s with
            | String _ s' => Spec.occurs old s'
            | EmptyString => false
            end
  end.
Proof. destruct s; reflexivity. Qed.

Lemma replace_absent (old new : string) (s : string) :
  Spec.occurs old s = false -> forall fuel, Spec.replace_loop fuel old new s = s.
Proof.
  induction s as [|c s IH]; intros H fuel; destruct fuel as [|f]; try reflexivity.
  - cbn [Spec.replace_loop]. now destruct (Spec.strip_prefix old "").
  - rewrite occurs_eq in H. cbn [Spec.replace_loop].
    destruct (Spec.strip_prefix old (String c s)); [discriminate|].
    now rewrite IH.
Qed.

Lemma replace_version_absent (new : string) (s : string) :
  Spec.has_version_token s = false ->
  forall fuel, Spec.replace_version_loop fuel new s = s.
Proof.
  induction s as [|c s IH]; intros H fuel; destruct fuel as [|f]; try reflexivity.
  rewrite has_version_token_eq in H. cbn [Spec.replace_version_loop].
  destruct (Spec.version_token (String c s)) as [[k rest]|]; [discriminate|].
  now rewrite IH.
Qed.

(** A token that the text does not mention leaves it as it is. *)
Lemma substitute_absent (values : token_values) (new text : string) :
  Spec.mentions values text = false -> Spec.substitute values new text = text.
Proof.
  unfold Spec.mentions, Spec.substitute. destruct (token_regex values); intros H.
  - now apply replace_version_absent.
  - now apply replace_absent.
Qed.

Lemma resolve_absent (items : token_dict) (text : string) :
  existsb (fun nv => Spec.mentions (snd nv) text) items = false ->
  Spec.resolve items text = text.
Proof.
  unfold Spec.resolve. induction items as [|nv items IH]; [reflexivity|].
  cbn [existsb fold_left]. intros H. apply orb_false_iff in H as [H1 H2].
  rewrite (substitute_absent _ _ _ H1). auto.
Qed.

Lemma occurs_no_brace (old s : string) :
  Re.has_char "{" s = false -> Spec.occurs (String "{" old) s = false.
Proof.
  induction s as [|c s IH]; [reflexivity|]. cbn [Re.has_char]. intros H.
  apply orb_false_iff in H as [Hc Hs]. rewrite occurs_eq. cbn [Spec.strip_prefix].
  rewrite Hc. auto.
Qed.

Lemma resolve_pattern (t : datetime) (v text : string) (self : ContinueFolder) :
  Re.has_char "\" v = false ->
  resolve_tokens (set_pattern (set_tokens self (table_with t v)) text)
  = Returns (set_folder_new (set_pattern (set_tokens self (table_with t v)) text)
               (Spec.resolve (table_with t v) text)).
Proof.
  intros Hv. unfold resolve_tokens. cbn [tokens pattern set_pattern set_tokens].
  now rewrite (resolve_table _ _ _ Hv).
Qed.

(** The example pattern with an unknown placeholder, for any version value
    made of digits. *)
Lemma resolve_unknown (t : datetime) (v : string) :
  Re.has_char "{" v = false ->
  Spec.resolve (table_with t v) "{unknown}_v{version}" = "{unknown}_v" ++ v.
Proof.
  intros Hv. unfold Spec.resolve, table_with, table, generate_tokens, set_tokens, tokens.
  cbn [set_value String.eqb Ascii.eqb Bool.eqb mk token token_regex pattern_regex_of value
       fold_left snd].
  repeat match goal with
  | |- context [Spec.substitute ?x ?new "{unknown}_v{version}"] =>
      match x with
      | context [Some "{version#*}"] => fail 1
      | _ => change (Spec.substitute x new "{unknown}_v{version}")
               with "{unknown}_v{version}"
      end
  end.
  match goal with
  | |- context [Spec.substitute ?x v "{unknown}_v{version}"] =>
      change (Spec.substitute x v "{unknown}_v{version}") with ("{unknown}_v" ++ (v ++ ""))
  end.
  rewrite append_nil_r.
  assert (Hyy : Spec.occurs "{YY}" ("{unknown}_v" ++ v) = false).
  { change (Spec.occurs "{YY}" ("{unknown}_v" ++ v)) with (Spec.occurs "{YY}" v).
    now apply occurs_no_brace. }
  assert (Hyyyy : Spec.occurs "{YYYY}" ("{unknown}_v" ++ v) = false).
  { change (Spec.occurs "{YYYY}" ("{unknown}_v" ++ v)) with (Spec.occurs "{YYYY}" v).
    now apply occurs_no_brace. }
  rewrite (substitute_absent (mk "{YY}" None _ _) _ _ Hyy).
  now rewrite (substitute_absent (mk "{YYYY}" None _ _) _ _ Hyyyy).
Qed.

(** C7.  A pattern in which no placeholder of the table occurs is resolved
    to itself, whatever other text in braces it holds; and the pattern
    [{unknown}_v{version}] is resolved to [{unknown}_v] followed by the
    current value of the version token. *)
Theorem unknown_placeholders_pass_through (t : datetime) (n p : nat)
  (self : ContinueFolder) :
  (forall text,
      existsb (fun nv => Spec.mentions (snd nv) text)
              (table_with t (PyStr.zfill (PyStr.str (Z.of_nat n)) p)) = false ->
      resolve_tokens
        (set_pattern (set_tokens self (table_with t (PyStr.zfill (PyStr.str (Z.of_nat n)) p)))
                     text)
      = Returns
          (set_folder_new
             (set_pattern
                (set_tokens self (table_with t (PyStr.zfill (PyStr.str (Z.of_nat n)) p)))
                text)
             text))
  /\ resolve_tokens
       (set_pattern (set_tokens self (table_with t (PyStr.zfill (PyStr.str (Z.of_nat n)) p)))
                    "{unknown}_v{version}")
     = Returns
         (set_folder_new
            (set_pattern
               (set_tokens self (table_with t (PyStr.zfill (PyStr.str (Z.of_nat n)) p)))
               "{unknown}_v{version}")
            ("{unknown}_v" ++ PyStr.zfill (PyStr.str (Z.of_nat n)) p)).
Proof.
  assert (Hd : all_chars PyStr.is_digit (PyStr.zfill (PyStr.str (Z.of_nat n)) p) = true)
    by (apply digits_zfill, digits_str; lia).
  split.
  - intros text H. rewrite resolve_pattern by now apply digits_no_backslash.
    now rewrite (resolve_absent _ _ H).
  - rewrite resolve_pattern by now apply digits_no_backslash.
    rewrite resolve_unknown by now apply digits_no_brace. reflexivity.
Qed.

Lemma unknown_placeholders_pass_through_witness :
  resolve_tokens
    (set_pattern (set_tokens (blank clock_2023)
                             (table_with clock_2023 (PyStr.zfill (PyStr.str (Z.of_nat 7)) 3)))
                 "{unknown}_{shot}")
  = Returns
      (set_folder_new
         (set_pattern (set_tokens (blank clock_2023)
                                  (table_with clock_2023
                                     (PyStr.zfill (PyStr.str (Z.of_nat 7)) 3)))
                      "{unknown}_{shot}")
         "{unknown}_{shot}").
Proof.
  apply (proj1 (unknown_placeholders_pass_through clock_2023 7 3 (blank clock_2023))).
  reflexivity.
Defined.

End NameResolver.

Section EndToEnd.

Lemma generated_table (t : datetime) :
  generate_tokens (blank t) = set_tokens (blank t) (table_with t "1").
Proof. reflexivity. Qed.

(** One pass of [__init__] after [generate_tokens] and [load_pattern], for a
    scan of which the result is known. *)
Lemma init_pass (t : datetime) (text : string) (dirs : list string)
  (fs sorted : list folder_tuple) (v : Z) (p : nat) :
  find_folders_loop (Spec.compile (table_with t "1") text) dirs [] = Returns fs ->
  next_version fs = Returns (sorted, v) ->
  (0 <= v)%Z ->
  find_version_padding (set_pattern (blank t) text)
  = Returns (set_version_padding (set_pattern (blank t) text) p) ->
  exists self,
    init t [text] dirs = Returns self
    /\ pattern self = text
    /\ pattern_regex self = Spec.compile (table_with t "1") text
    /\ folders self = sorted
    /\ version_padding self = p
    /\ get_value "Version" (tokens self) = Some (PyStr.zfill (PyStr.str v) p)
    /\ folder_new self
       = Spec.resolve (table_with t (PyStr.zfill (PyStr.str v) p)) text.
Proof.
  intros Hscan Hnext Hv Hpad. unfold init, load_pattern.
  rewrite generated_table, compile_pattern. cbn [bind].
  unfold find_folders. cbn [pattern_regex set_pattern_regex]. rewrite Hscan. cbn [bind].
  unfold update_version_token.
  assert (Hpad' : forall self, pattern self = text ->
            find_version_padding self = Returns (set_version_padding self p)).
  { intros self Hp. unfold find_version_padding in *. rewrite Hp.
    cbn [pattern set_pattern] in Hpad.
    destruct (capture_tokens _ text) as [[mo|]| |]; cbn [bind] in *; try discriminate.
    - destruct (Re.group mo 1); [|discriminate].
      injection Hpad as Hpad. now rewrite Hpad.
    - injection Hpad as Hpad. now rewrite <- Hpad. }
  rewrite Hpad' by reflexivity. cbn [bind folders set_version_padding set_folders].
  rewrite Hnext. cbn [bind]. unfold resolve_tokens.
  cbn [tokens pattern set_tokens set_folders set_version_padding set_pattern_regex
       set_pattern version_padding].
  rewrite table_with_twice.
  rewrite resolve_table by (apply digits_no_backslash, digits_zfill, digits_str; exact Hv).
  cbn [bind]. eexists. split; [reflexivity|]. repeat split.
Qed.

(** C8.  With the pattern [proj_{YYYY}_{version##}], the listed folders and
    a clock in 2023, the three [proj_2023_NN] folders match with the versions
    1, 2 and 9, the next version is 10 and the name [proj_2023_10]; with the
    pattern [{version}] and an empty directory the name is 1. *)
Theorem continue_sequence_end_to_end :
  (forall t, year t = 2023 ->
     exists self,
       init t ["proj_{YYYY}_{version##}"]
            ["proj_2023_01"; "proj_2023_02"; "proj_2023_09"; "unrelated_folder"]
       = Returns self
       /\ pattern_regex self = "proj_[0-9]{4}_0*(?P<version>[1-9][0-9]*)"
       /\ folders self = [("proj_2023_01", Some 1%Z); ("proj_2023_02", Some 2%Z);
                          ("proj_2023_09", Some 9%Z)]
       /\ get_value "Version" (tokens self) = Some "10"
       /\ folder_new self = "proj_2023_10")
  /\ (forall t,
        exists self,
          init t ["{version}"] [] = Returns self
          /\ folders self = []
          /\ folder_new self = "1").
Proof.
  split.
  - intros [y mo d h mi] Hy. cbn [year] in Hy. subst y.
    destruct (init_pass {| year := 2023; month := mo; day := d; hour := h; minute := mi |}
                "proj_{YYYY}_{version##}"
                ["proj_2023_01"; "proj_2023_02"; "proj_2023_09"; "unrelated_folder"]
                [("proj_2023_01", Some 1%Z); ("proj_2023_02", Some 2%Z);
                 ("proj_2023_09", Some 9%Z)]
                [("proj_2023_01", Some 1%Z); ("proj_2023_02", Some 2%Z);
                 ("proj_2023_09", Some 9%Z)]
                10%Z 2 eq_refl eq_refl ltac:(lia) eq_refl)
      as (self & E & _ & Hr & Hf & _ & Hv & Hn).
    exists self. split; [exact E|]. split; [exact Hr|]. split; [exact Hf|].
    split; [exact Hv|]. exact Hn.
  - intros t.
    destruct (init_pass t "{version}" [] [] [] 1%Z 0 eq_refl eq_refl ltac:(lia) eq_refl)
      as (self & E & _ & _ & Hf & _ & _ & Hn).
    exists self. split; [exact E|]. split; [exact Hf|]. exact Hn.
Qed.

Lemma continue_sequence_end_to_end_witness :
  exists self,
    init clock_2023 ["proj_{YYYY}_{version##}"]
         ["proj_2023_01"; "proj_2023_02"; "proj_2023_09"; "unrelated_folder"]
    = Returns self
    /\ pattern_regex self = "proj_[0-9]{4}_0*(?P<version>[1-9][0-9]*)"
    /\ folders self = [("proj_2023_01", Some 1%Z); ("proj_2023_02", Some 2%Z);
                       ("proj_2023_09", Some 9%Z)]
    /\ get_value "Version" (tokens self) = Some "10"
    /\ folder_new self = "proj_2023_10".
Proof.
  apply (proj1 continue_sequence_end_to_end clock_2023). reflexivity.
Defined.

End EndToEnd.

(** ** Further properties of the code *)

Section SortedFolders.

Lemma insert_sorted_perm (x : folder_tuple) (l : list folder_tuple) :
  Permutation (x :: l) (insert_sorted x l).
Proof.
  induction l as [|y l IH]; simpl; [constructor; constructor|].
  destruct (key x <=? key y)%Z; [apply Permutation_refl|].
  eapply perm_trans; [apply perm_swap|]. now constructor.
Qed.

Lemma insert_sorted_Forall (P : folder_tuple -> Prop) x l :
  P x -> Forall P l -> Forall P (insert_sorted x l).
Proof.
  intros Hx Hl. eapply Permutation_Forall; [apply insert_sorted_perm|]. now constructor.
Qed.

Lemma insert_sorted_sorted (x : folder_tuple) (l : list folder_tuple) :
  StronglySorted key_le l -> StronglySorted key_le (insert_sorted x l).
Proof.
  induction 1 as [|y l Hs IH Hy]; simpl; [repeat constructor|].
  destruct (key x <=? key y)%Z eqn:E.
  - apply Z.leb_le in E. constructor; [now constructor|].
    constructor; [exact E|]. eapply Forall_impl; [|exact Hy].
    unfold key_le. intros; lia.
  - apply Z.leb_gt in E. constructor; [exact IH|].
    apply insert_sorted_Forall; [unfold key_le; lia | exact Hy].
Qed.

Lemma insert_sorted_filter (x : folder_tuple) (l : list folder_tuple) (k : Z) :
  StronglySorted key_le l ->
  filter (fun f => (key f =? k)%Z) (insert_sorted x l)
  = filter (fun f => (key f =? k)%Z) (x :: l).
Proof.
  induction 1 as [|y l Hs IH Hy]; [reflexivity|].
  cbn [insert_sorted]. destruct (key x <=? key y)%Z eqn:E; [reflexivity|].
  apply Z.leb_gt in E. cbn [filter] in *. rewrite IH.
  destruct (key x =? k)%Z eqn:Ex; destruct (key y =? k)%Z eqn:Ey; try reflexivity.
  apply Z.eqb_eq in Ex, Ey. lia.
Qed.

Lemma sort_fold_sorted (fs : list folder_tuple) :
  StronglySorted key_le (fold_right insert_sorted [] fs).
Proof. induction fs; simpl; [constructor | now apply insert_sorted_sorted]. Qed.

Lemma sort_fold_perm (fs : list folder_tuple) :
  Permutation fs (fold_right insert_sorted [] fs).
Proof.
  induction fs as [|x fs IH]; simpl; [constructor|].
  eapply perm_trans; [|apply insert_sorted_perm]. now constructor.
Qed.

Lemma sort_fold_filter (fs : list folder_tuple) (k : Z) :
  filter (fun f => (key f =? k)%Z) (fold_right insert_sorted [] fs)
  = filter (fun f => (key f =? k)%Z) fs.
Proof.
  induction fs as [|x fs IH]; [reflexivity|].
  cbn [fold_right]. rewrite insert_sorted_filter by apply sort_fold_sorted.
  cbn [filter]. now rewrite IH.
Qed.

Lemma sort_keys_has_version (fs : list folder_tuple) (ks : list Z) :
  sort_keys fs = Returns ks -> Forall (fun f => has_version f = true) fs.
Proof.
  revert ks. induction fs as [|[g [v|]] fs IH]; intros ks H; simpl in H;
    [constructor| |discriminate].
  destruct (sort_keys fs) as [ks'| |] eqn:E; try discriminate.
  constructor; [reflexivity|]. eauto.
Qed.

Lemma last_version_sorted (f : folder_tuple) (fs : list folder_tuple) :
  Forall (fun f => has_version f = true) (f :: fs) ->
  exists v, last_version (fold_right insert_sorted [] (f :: fs)) = Returns v.
Proof.
  intros H. inversion H as [|? ? Hf Hrest]; subst.
  destruct f as [g [v|]]; [|discriminate].
  destruct (sort_max fs g v Hrest) as [(l0 & g0 & E) _].
  exists (Spec.maximum v (versions fs)). unfold last_version.
  replace (rev _) with (rev (l0 ++ [(g0, Some (Spec.maximum v (versions fs)))])%list)
    by (f_equal; symmetry; exact E).
  rewrite rev_app_distr. reflexivity.
Qed.

Lemma sort_keys_raises (fs : list folder_tuple) (e : exn) :
  sort_keys fs = Raises e ->
  e = IndexError /\ ~ Forall (fun f => has_version f = true) fs.
Proof.
  induction fs as [|[g [v|]] fs IH]; simpl; intros H; try discriminate.
  - destruct (sort_keys fs) as [ks|e'|] eqn:E; try discriminate.
    cbn [bind] in H. injection H as <-. destruct (IH eq_refl) as [-> Hn].
    split; [reflexivity|]. intros Hall. inversion Hall; auto.
  - injection H as <-. split; [reflexivity|].
    intros Hall. inversion Hall; discriminate.
Qed.

Lemma sort_keys_modelled (fs : list folder_tuple) : sort_keys fs <> Unmodelled.
Proof.
  induction fs as [|[g [v|]] fs IH]; simpl; try discriminate.
  destruct (sort_keys fs); try discriminate. congruence.
Qed.

(** [update_version_token] always returns.  When every tuple has a version it
    leaves [self.folders] sorted by version, with the same tuples, those of
    equal version in their former order; when some tuple has no version the
    list is left as it was. *)
Theorem update_version_token_sorts (self : ContinueFolder) :
  exists self',
    update_version_token self = Returns self'
    /\ Permutation (folders self) (folders self')
    /\ (Forall (fun f => has_version f = true) (folders self) ->
        StronglySorted key_le (folders self')
        /\ forall k, filter (fun f => (key f =? k)%Z) (folders self')
                     = filter (fun f => (key f =? k)%Z) (folders self))
    /\ (~ Forall (fun f => has_version f = true) (folders self) ->
        folders self' = folders self).
Proof.
  assert (Hn : exists sorted v,
             next_version (folders self) = Returns (sorted, v)
             /\ (sorted = folders self
                 /\ (Forall (fun f => has_version f = true) (folders self) ->
                     folders self = [])
                 \/ sorted = fold_right insert_sorted [] (folders self)
                    /\ Forall (fun f => has_version f = true) (folders self))).
  { unfold next_version, sort_by_version.
    destruct (sort_keys (folders self)) as [ks|e|] eqn:Ek.
    - pose proof (sort_keys_has_version _ _ Ek) as Hall. cbn [bind].
      destruct (folders self) as [|f fs] eqn:Ef.
      + exists [], 1%Z. split; [reflexivity|]. left. auto.
      + destruct (last_version_sorted f fs Hall) as [v El]. rewrite El. cbn [bind].
        exists (fold_right insert_sorted [] (f :: fs)), (v + 1)%Z.
        split; [reflexivity|]. right. auto.
    - destruct (sort_keys_raises _ _ Ek) as [-> Hnot].
      exists (folders self), 1%Z. split; [reflexivity|]. left.
      split; [reflexivity|]. intros H. contradiction.
    - exfalso. exact (sort_keys_modelled _ Ek). }
  destruct Hn as (sorted & v & Hn & Hcase).
  destruct (update_version_token_next self sorted v Hn) as (self' & E & Hf & _).
  exists self'. split; [exact E|]. rewrite Hf.
  destruct Hcase as [[-> Hempty]|[-> Hall]].
  - split; [apply Permutation_refl|]. split.
    + intros Hall. rewrite (Hempty Hall). split; [constructor | reflexivity].
    + reflexivity.
  - split; [apply sort_fold_perm|]. split.
    + intros _. split; [apply sort_fold_sorted | apply sort_fold_filter].
    + intros Hnot. contradiction.
Qed.

End SortedFolders.

Lemma update_version_token_sorts_witness :
  exists self',
    update_version_token
      (set_folders (blank clock_2023) [("b_2", Some 2%Z); ("a_1", Some 1%Z)]) = Returns self'
    /\ StronglySorted key_le (folders self').
Proof.
  destruct (update_version_token_sorts
              (set_folders (blank clock_2023) [("b_2", Some 2%Z); ("a_1", Some 1%Z)]))
    as (self' & E & _ & Hs & _).
  exists self'. split; [exact E|]. apply Hs. repeat constructor.
Defined.

Section ScanOrder.

Lemma find_folders_loop_acc (regex : string) (dirs : list string) :
  forall acc,
    find_folders_loop regex dirs acc
    = (found <- find_folders_loop regex dirs [] ;; Returns (acc ++ found)%list).
Proof.
  induction dirs as [|d dirs IH]; intros acc; simpl.
  - now rewrite app_nil_r.
  - destruct (find_folder regex d) as [l| |]; cbn [bind]; try reflexivity.
    rewrite (IH (acc ++ l)%list), (IH l).
    destruct (find_folders_loop regex dirs []) as [found| |]; cbn [bind]; try reflexivity.
    now rewrite app_assoc.
Qed.

Lemma find_folders_loop_app (regex : string) (a b : list string) :
  forall acc,
    find_folders_loop regex (a ++ b) acc
    = (fa <- find_folders_loop regex a acc ;; find_folders_loop regex b fa).
Proof.
  induction a as [|d a IH]; intros acc; simpl; [reflexivity|].
  destruct (find_folder regex d) as [l| |]; cbn [bind]; auto.
Qed.

Lemma find_folder_entry (regex folder : string) (l : list folder_tuple) :
  find_folder regex folder = Returns l ->
  l = [] \/ exists name version trailing,
              l = [(name, version)] /\ folder = name ++ trailing.
Proof.
  unfold find_folder.
  destruct (capture_tokens regex folder) as [[mo|]| |] eqn:E; cbn [bind]; try discriminate.
  - assert (Hp : exists trailing, folder = Re.group0 mo ++ trailing).
    { unfold capture_tokens, Re.re_match in E.
      destruct (Re.compile regex) as [[r n]| | |]; try discriminate.
      destruct (Re.match_at r n folder) as [[rest cs]|] eqn:Em; try discriminate.
      injection E as <-. apply match_at_sound in Em as [Em _]. exists rest. exact Em. }
    destruct Hp as [trailing Hp].
    destruct (List.length (Re.mgroups mo) =? 1)%nat.
    + destruct (Re.group mo 1) as [text|]; [|discriminate].
      destruct (PyStr.int text) as [v| |]; cbn [bind]; try discriminate.
      intros H. injection H as <-. right. eauto.
    + intros H. injection H as <-. right. eauto.
  - intros H. injection H as <-. now left.
Qed.

(** The scan keeps the order of the listing: the list of a listing in two
    parts is the list of the first part followed by that of the second, and
    the names recorded are initial parts of entries of the listing, one at
    most for each entry, in their order. *)
Theorem scan_keeps_listing_order (regex : string) (dirs : list string)
  (fs : list folder_tuple) :
  find_folders_loop regex dirs [] = Returns fs ->
  (exists kept,
      subseq kept dirs
      /\ Forall2 (fun f d => exists trailing, d = fst f ++ trailing) fs kept)
  /\ (forall a b, dirs = (a ++ b)%list ->
        exists fa fb,
          find_folders_loop regex a [] = Returns fa
          /\ find_folders_loop regex b [] = Returns fb
          /\ fs = (fa ++ fb)%list).
Proof.
  intros H. split.
  - revert fs H. induction dirs as [|d dirs IH]; intros fs H; simpl in H.
    + injection H as <-. exists []. split; constructor.
    + destruct (find_folder regex d) as [l| |] eqn:El; cbn [bind] in H; try discriminate.
      rewrite find_folders_loop_acc in H.
      destruct (find_folders_loop regex dirs []) as [found| |]; cbn [bind] in H;
        try discriminate.
      injection H as <-. destruct (IH found eq_refl) as (kept & Hk & Hf).
      destruct (find_folder_entry _ _ _ El) as [->|(name & version & trailing & -> & Hd)].
      * exists kept. split; [now constructor | exact Hf].
      * exists (d :: kept). split; [now constructor|].
        constructor; [exists trailing; exact Hd | exact Hf].
  - intros a b ->. rewrite find_folders_loop_app in H.
    destruct (find_folders_loop regex a []) as [fa| |]; cbn [bind] in H; try discriminate.
    rewrite find_folders_loop_acc in H.
    destruct (find_folders_loop regex b []) as [fb| |]; cbn [bind] in H; try discriminate.
    injection H as <-. eauto.
Qed.

Lemma scan_keeps_listing_order_witness :
  exists kept,
    subseq kept ["proj_01"; "other"; "proj_02_old"]
    /\ Forall2 (fun f d => exists trailing, d = fst f ++ trailing)
               [("proj_01", Some 1%Z); ("proj_02", Some 2%Z)] kept.
Proof.
  exact (proj1 (scan_keeps_listing_order "proj_0*(?P<version>[1-9][0-9]*)"
                  ["proj_01"; "other"; "proj_02_old"]
                  [("proj_01", Some 1%Z); ("proj_02", Some 2%Z)] eq_refl)).
Defined.

End ScanOrder.

Section IntOfStr.

Lemma int_digits_uint (d : Decimal.uint) :
  forall acc, PyStr.int_digits (NilEmpty.string_of_uint d) true acc = Some (value_acc d acc).
Proof.
  induction d; intros acc; cbn [NilEmpty.string_of_uint value_acc];
    try reflexivity; cbn [PyStr.int_digits]; rewrite IHd; reflexivity.
Qed.

Lemma int_digits_prev (s : string) (c : ascii) (acc : Z) (prev : bool) :
  PyStr.is_digit c = true ->
  PyStr.int_digits (String c s) prev acc = PyStr.int_digits (String c s) true acc.
Proof. intros H. cbn [PyStr.int_digits]. now rewrite H. Qed.

Lemma value_acc_pos (d : Decimal.uint) (acc : positive) :
  value_acc d (Zpos acc) = Zpos (Pos.of_uint_acc d acc).
Proof.
  revert acc. induction d; intros acc; cbn [value_acc Pos.of_uint_acc];
    try reflexivity;
    match goal with
    | |- value_acc _ ?z = Zpos (Pos.of_uint_acc _ ?q) =>
        replace z with (Zpos q) by lia; apply IHd
    end.
Qed.

Lemma value_acc_zero (d : Decimal.uint) : value_acc d 0 = Z.of_N (Pos.of_uint d).
Proof.
  induction d; cbn [value_acc Pos.of_uint]; try reflexivity;
    try (change (10 * 0 + 0)%Z with 0%Z; exact IHd);
    match goal with
    | |- value_acc _ ?z = _ =>
        let q := eval compute in (Z.to_pos z) in
        change z with (Zpos q); apply value_acc_pos
    end.
Qed.

Lemma str_pos (p : positive) :
  PyStr.str (Zpos p) = NilEmpty.string_of_uint (Pos.to_uint p)
  /\ exists c s, NilEmpty.string_of_uint (Pos.to_uint p) = String c s
                 /\ PyStr.is_digit c = true /\ all_chars PyStr.is_digit s = true.
Proof.
  assert (E : PyStr.str (Zpos p) = NilEmpty.string_of_uint (Pos.to_uint p)).
  { unfold PyStr.str. cbn [Z.to_int NilZero.string_of_int NilZero.string_of_uint].
    pose proof (DecimalPos.Unsigned.to_uint_nonnil p) as Hn.
    destruct (Pos.to_uint p); [congruence|reflexivity..]. }
  split; [exact E|].
  pose proof (digits_uint (Pos.to_uint p)) as Hd.
  pose proof (DecimalPos.Unsigned.to_uint_nonnil p) as Hn.
  destruct (NilEmpty.string_of_uint (Pos.to_uint p)) as [|c s] eqn:Es.
  - destruct (Pos.to_uint p); try congruence; discriminate.
  - simpl in Hd. apply andb_true_iff in Hd as [Hc Hs]. eauto.
Qed.

Lemma int_digits_str_pos (p : positive) (prev : bool) :
  PyStr.int_digits (PyStr.str (Zpos p)) prev 0 = Some (Zpos p).
Proof.
  destruct (str_pos p) as [E (c & s & Es & Hc & Hs)]. rewrite E, Es.
  rewrite (int_digits_prev _ _ _ _ Hc), <- Es, int_digits_uint, value_acc_zero.
  now rewrite DecimalPos.Unsigned.of_to.
Qed.

Lemma int_digits_zeros (k : nat) (s : string) :
  PyStr.int_digits (PyStr.zeros k ++ s) true 0 = PyStr.int_digits s true 0.
Proof. induction k; simpl; auto. Qed.

Lemma strip_no_space (s : string) :
  all_chars (fun c => negb (PyStr.is_space c)) s = true -> PyStr.strip s = s.
Proof.
  intros H.
  assert (Hl : forall u, all_chars (fun c => negb (PyStr.is_space c)) u = true ->
                         PyStr.lstrip u = u).
  { intros [|c u]; [reflexivity|]. simpl. intros Hu.
    apply andb_true_iff in Hu as [Hc _]. now destruct (PyStr.is_space c). }
  unfold PyStr.strip. rewrite (Hl s H).
  rewrite Hl by (rewrite all_chars_rev, H; reflexivity).
  rewrite rev_string_twice. simpl. apply append_nil_r.
Qed.

Lemma digits_no_space (s : string) :
  all_chars PyStr.is_digit s = true ->
  all_chars (fun c => negb (PyStr.is_space c)) s = true.
Proof.
  induction s as [|c s IH]; simpl; [reflexivity|]. intros H.
  apply andb_true_iff in H as [Hc Hs]. now rewrite (digit_not_space _ Hc), IH.
Qed.

Lemma int_all_digits (s : string) (z : Z) :
  all_chars PyStr.is_digit s = true ->
  PyStr.int_digits s false 0 = Some z -> PyStr.int s = Returns z.
Proof.
  destruct s as [|c s]; [discriminate|]. intros H Hv.
  simpl in H. apply andb_true_iff in H as [Hc Hs].
  now rewrite (int_unsigned _ _ Hc Hs), Hv.
Qed.

Lemma int_digits_zeros_str (k : nat) (q : positive) :
  PyStr.int_digits (PyStr.zeros k ++ PyStr.str (Zpos q)) false 0 = Some (Zpos q).
Proof.
  destruct k as [|k].
  - apply int_digits_str_pos.
  - cbn [PyStr.zeros append]. rewrite int_digits_prev by reflexivity.
    change (String "0" (PyStr.zeros k ++ PyStr.str (Z.pos q)))
      with (PyStr.zeros (S k) ++ PyStr.str (Z.pos q)).
    rewrite int_digits_zeros. apply int_digits_str_pos.
Qed.

Lemma digits_str_pos (q : positive) : all_chars PyStr.is_digit (PyStr.str (Zpos q)) = true.
Proof.
  destruct (str_pos q) as [E (c & s & Es & Hc & Hs)].
  rewrite E, Es. simpl. now rewrite Hc, Hs.
Qed.

(** What [str] and [zfill] write, [int] reads back. *)
Lemma int_zfill_str (z : Z) (p : nat) :
  PyStr.int (PyStr.zfill (PyStr.str z) p) = Returns z.
Proof.
  destruct z as [|q|q].
  - change (PyStr.str 0) with "0".
    rewrite zfill_digits by reflexivity.
    apply int_all_digits.
    + rewrite all_chars_append, digits_zeros; reflexivity.
    + change (String.length "0") with 1.
      destruct (p - 1) as [|k]; [reflexivity|].
      cbn [PyStr.zeros append]. rewrite int_digits_prev by reflexivity.
      change (String "0" (PyStr.zeros k ++ "0")) with (PyStr.zeros (S k) ++ "0").
      now rewrite int_digits_zeros.
  - rewrite (zfill_digits _ _ (digits_str_pos q)).
    apply int_all_digits.
    + rewrite all_chars_append, digits_zeros. apply digits_str_pos.
    + apply int_digits_zeros_str.
  - assert (Es : PyStr.str (Zneg q) = String "-" (PyStr.str (Zpos q))).
    { destruct (str_pos q) as [E _]. rewrite E. unfold PyStr.str.
      cbn [Z.to_int NilZero.string_of_int NilZero.string_of_uint].
      pose proof (DecimalPos.Unsigned.to_uint_nonnil q) as Hn.
      destruct (Pos.to_uint q); [congruence|reflexivity..]. }
    rewrite Es. unfold PyStr.zfill. cbn [String.length].
    set (k := p - S (String.length (PyStr.str (Z.pos q)))).
    assert (Hd : all_chars PyStr.is_digit (PyStr.zeros k ++ PyStr.str (Zpos q)) = true)
      by (rewrite all_chars_append, digits_zeros; apply digits_str_pos).
    unfold PyStr.int. rewrite strip_no_space.
    2:{ cbn [all_chars]. rewrite (digits_no_space _ Hd). reflexivity. }
    rewrite int_digits_zeros_str. reflexivity.
Qed.

End IntOfStr.

Section PassState.

Lemma sub_tokens_set_value (name v : string) (d : token_dict) (text : string) :
  sub_tokens pattern_regex_of (set_value name v d) text = sub_tokens pattern_regex_of d text.
Proof.
  revert text. induction d as [|[n values] d IH]; intros text; [reflexivity|].
  cbn [set_value]. destruct (String.eqb n name).
  - reflexivity.
  - cbn [sub_tokens]. destruct (truthy (token_regex values));
      (destruct (Re.re_sub _ _ text); cbn [bind]; auto).
Qed.

Lemma set_value_twice (name v w : string) (d : token_dict) :
  set_value name v (set_value name w d) = set_value name v d.
Proof.
  induction d as [|[n values] d IH]; [reflexivity|].
  cbn [set_value]. destruct (String.eqb n name) eqn:E; cbn [set_value]; rewrite E.
  - reflexivity.
  - now rewrite IH.
Qed.

Lemma set_value_agree (name v : string) (d1 d2 : token_dict) :
  set_value name "" d1 = set_value name "" d2 ->
  set_value name v d1 = set_value name v d2.
Proof.
  intros H. rewrite <- (set_value_twice name v "" d1), H. apply set_value_twice.
Qed.

Lemma update_folder_pass (text : string) (dirs : list string) (self : ContinueFolder) :
  update_folder text dirs self = pass (now self) (tokens self) text dirs.
Proof.
  destruct self as [t d p0 r0 f0 w0 n0].
  unfold pass, padding_of, update_folder, generate_pattern_regex, find_folders,
    update_version_token, find_version_padding, resolve_tokens.
  cbv [set_pattern set_pattern_regex set_folders set_version_padding set_tokens
       set_folder_new now tokens pattern pattern_regex folders version_padding folder_new].
  destruct (sub_tokens pattern_regex_of d text) as [r| |]; cbn [bind]; try reflexivity.
  destruct (find_folders_loop r dirs []) as [fs| |]; cbn [bind]; try reflexivity.
  match goal with |- context [capture_tokens ?x text] =>
    destruct (capture_tokens x text) as [[mo|]| |] end; cbn [bind]; try reflexivity.
  - destruct (Re.group mo 1) as [g|]; cbn [bind]; try reflexivity.
    destruct (next_version fs) as [[sorted v]| |]; cbn [bind fst snd]; reflexivity.
  - destruct (next_version fs) as [[sorted v]| |]; cbn [bind fst snd]; reflexivity.
Qed.

(** The pass of [update_folder] as a function of the clock's tokens, the
    text and the listing alone. *)
Lemma update_folder_agree (text : string) (dirs : list string) (s1 s2 : ContinueFolder) :
  now s1 = now s2 ->
  set_value "Version" "" (tokens s1) = set_value "Version" "" (tokens s2) ->
  update_folder text dirs s1 = update_folder text dirs s2.
Proof.
  intros Hn Hd. rewrite !update_folder_pass, Hn. unfold pass.
  rewrite <- (sub_tokens_set_value "Version" "" (tokens s1)), Hd, sub_tokens_set_value.
  destruct (sub_tokens pattern_regex_of (tokens s2) text) as [r| |]; cbn [bind];
    try reflexivity.
  destruct (find_folders_loop r dirs []) as [fs| |]; cbn [bind]; try reflexivity.
  destruct (padding_of text) as [p| |]; cbn [bind]; try reflexivity.
  destruct (next_version fs) as [sv| |]; cbn [bind]; try reflexivity.
  now rewrite (set_value_agree "Version" _ _ _ Hd).
Qed.

(** What a pass leaves of the state it started from. *)
Lemma update_folder_frame (text : string) (dirs : list string) (self s' : ContinueFolder) :
  update_folder text dirs self = Returns s' ->
  now s' = now self /\ pattern s' = text
  /\ exists v, tokens s' = set_value "Version" v (tokens self).
Proof.
  rewrite update_folder_pass. unfold pass.
  destruct (sub_tokens pattern_regex_of (tokens self) text) as [r| |]; cbn [bind];
    [|discriminate|discriminate].
  destruct (find_folders_loop r dirs []) as [fs| |]; cbn [bind]; [|discriminate|discriminate].
  destruct (padding_of text) as [p| |]; cbn [bind]; [|discriminate|discriminate].
  destruct (next_version fs) as [sv| |]; cbn [bind]; [|discriminate|discriminate].
  match goal with |- context [sub_tokens value ?d text] =>
    destruct (sub_tokens value d text) as [name| |] end; cbn [bind]; [|discriminate|discriminate].
  intros H. injection H as <-. repeat split. eexists. reflexivity.
Qed.

(** A pass keeps nothing of the passes before it: two states with the same
    clock and the same token table, the value of the version token set
    aside, give the same result for the same text and listing, whatever
    their other attributes; a pass leaves the clock as it was, the pattern
    as the text it was given, and the token table as it was but for the
    value of the version token; and a pass run again on its own result,
    with the same text and listing, returns that result. *)
Theorem update_folder_keeps_no_state (text : string) (dirs : list string) :
  (forall s1 s2,
      now s1 = now s2 ->
      set_value "Version" "" (tokens s1) = set_value "Version" "" (tokens s2) ->
      update_folder text dirs s1 = update_folder text dirs s2)
  /\ (forall self s',
        update_folder text dirs self = Returns s' ->
        now s' = now self /\ pattern s' = text
        /\ (exists v, tokens s' = set_value "Version" v (tokens self))
        /\ update_folder text dirs s' = Returns s').
Proof.
  split; [apply update_folder_agree|].
  intros self s' H. destruct (update_folder_frame _ _ _ _ H) as (Hn & Hp & v & Hv).
  repeat split; [exact Hn | exact Hp | eauto |].
  rewrite <- H. apply update_folder_agree; [exact Hn|].
  rewrite Hv. apply set_value_twice.
Qed.

Lemma update_folder_keeps_no_state_witness :
  update_folder "proj_{version##}" ["proj_01"; "proj_07"]
    (set_folder_new (set_folders (generate_tokens (blank clock_2023)) [("old", None)]) "stale")
  = update_folder "proj_{version##}" ["proj_01"; "proj_07"] (generate_tokens (blank clock_2023)).
Proof.
  apply (proj1 (update_folder_keeps_no_state "proj_{version##}" ["proj_01"; "proj_07"]));
    reflexivity.
Defined.

End PassState.

Section ListingOrder.

Lemma find_folders_loop_cons (regex d : string) (dirs : list string) :
  find_folders_loop regex (d :: dirs) []
  = (l <- find_folder regex d ;;
     found <- find_folders_loop regex dirs [] ;; Returns (l ++ found)%list).
Proof.
  cbn [find_folders_loop]. destruct (find_folder regex d) as [l| |]; cbn [bind]; try reflexivity.
  apply find_folders_loop_acc.
Qed.

Lemma find_folders_loop_perm (regex : string) (dirs dirs' : list string) :
  Permutation dirs dirs' ->
  forall fs, find_folders_loop regex dirs [] = Returns fs ->
    exists fs', find_folders_loop regex dirs' [] = Returns fs' /\ Permutation fs fs'.
Proof.
  induction 1 as [|x l l' Hp IH|x y l|l l' l'' H1 IH1 H2 IH2]; intros fs H.
  - exists fs. split; [exact H | apply Permutation_refl].
  - rewrite find_folders_loop_cons in *.
    destruct (find_folder regex x) as [fx| |]; cbn [bind] in *; try discriminate.
    destruct (find_folders_loop regex l []) as [fl| |]; cbn [bind] in H; try discriminate.
    injection H as <-. destruct (IH fl eq_refl) as (fl' & -> & Hperm). cbn [bind].
    eexists. split; [reflexivity|]. now apply Permutation_app_head.
  - rewrite !find_folders_loop_cons in *.
    destruct (find_folder regex y) as [fy| |]; cbn [bind] in *; try discriminate.
    destruct (find_folder regex x) as [fx| |]; cbn [bind] in *; try discriminate.
    destruct (find_folders_loop regex l []) as [fl| |]; cbn [bind] in *; try discriminate.
    injection H as <-. eexists. split; [reflexivity|].
    rewrite !app_assoc. apply Permutation_app_tail, Permutation_app_comm.
  - destruct (IH1 fs H) as (fs' & H' & Hp1). destruct (IH2 fs' H') as (fs'' & H'' & Hp2).
    exists fs''. split; [exact H''|]. eapply perm_trans; eauto.
Qed.

Lemma versions_perm (fs fs' : list folder_tuple) :
  Permutation fs fs' -> Permutation (versions fs) (versions fs').
Proof. apply Permutation_flat_map. Qed.

(** The largest member, by what characterises it. *)
Lemma maximum_unique (v : Z) (vs : list Z) (mx : Z) :
  In mx (v :: vs) -> (forall w, In w (v :: vs) -> (w <= mx)%Z) -> Spec.maximum v vs = mx.
Proof.
  intros Hin Hall. pose proof (maximum_ge v vs mx Hin).
  pose proof (Hall _ (maximum_in v vs)). lia.
Qed.

Lemma resolve_next_perm (l l' : list Z) :
  Permutation l l' -> Spec.resolve_next l = Spec.resolve_next l'.
Proof.
  intros Hp. destruct l as [|v vs].
  - apply Permutation_nil in Hp. now subst.
  - destruct l' as [|v' vs']; [apply Permutation_sym, Permutation_nil in Hp; discriminate|].
    cbn [Spec.resolve_next]. f_equal. apply maximum_unique.
    + eapply Permutation_in; [apply Permutation_sym; exact Hp | apply maximum_in].
    + intros w Hw. apply maximum_ge. eapply Permutation_in; eassumption.
Qed.

Lemma next_version_perm (fs sorted : list folder_tuple) (v : Z) :
  next_version fs = Returns (sorted, v) -> Permutation fs sorted.
Proof.
  unfold next_version, sort_by_version.
  destruct (sort_keys fs) as [ks|e|] eqn:Ek; cbn [bind].
  - destruct (last_version (fold_right insert_sorted [] fs)) as [w|e|]; cbn [bind].
    + intros H. injection H as <- _. apply sort_fold_perm.
    + destruct e; try discriminate. intros H. injection H as <- _. apply Permutation_refl.
    + discriminate.
  - destruct e; try discriminate. intros H. injection H as <- _. apply Permutation_refl.
  - discriminate.
Qed.

(** The next version of a scan's list depends on the versions in it only. *)
Lemma next_version_of_perm (b : bool) (fs fs' sorted : list folder_tuple) (v : Z) :
  Forall (fun f => has_version f = b) fs -> Permutation fs fs' ->
  next_version fs = Returns (sorted, v) ->
  exists sorted', next_version fs' = Returns (sorted', v) /\ Permutation sorted sorted'.
Proof.
  intros Hb Hp H. destruct (next_version_uniform b fs Hb) as [s0 E0].
  rewrite E0 in H. injection H as -> <-.
  assert (Hb' : Forall (fun f => has_version f = b) fs')
    by (eapply Permutation_Forall; eassumption).
  destruct (next_version_uniform b fs' Hb') as [s1 E1].
  exists s1. split.
  - rewrite E1. now rewrite (resolve_next_perm _ _ (versions_perm _ _ Hp)).
  - eapply perm_trans; [apply Permutation_sym, (next_version_perm _ _ _ E0)|].
    eapply perm_trans; [exact Hp|]. apply (next_version_perm _ _ _ E1).
Qed.

(** The order in which the directory is listed does not change what a pass
    proposes: for a rearranged listing the pass returns as well, with the
    same new folder name, the same token table and padding, and the same
    folder tuples (in some order). *)
Theorem update_folder_listing_order (text : string) (dirs dirs' : list string)
  (self s1 : ContinueFolder) :
  Permutation dirs dirs' ->
  update_folder text dirs self = Returns s1 ->
  exists s2,
    update_folder text dirs' self = Returns s2
    /\ folder_new s2 = folder_new s1
    /\ tokens s2 = tokens s1
    /\ version_padding s2 = version_padding s1
    /\ pattern_regex s2 = pattern_regex s1
    /\ Permutation (folders s1) (folders s2).
Proof.
  intros Hp. rewrite !update_folder_pass. unfold pass.
  destruct (sub_tokens pattern_regex_of (tokens self) text) as [r| |]; cbn [bind];
    [|discriminate|discriminate].
  case_eq (find_folders_loop r dirs []); [intros fs Es | discriminate | discriminate].
  destruct (find_folders_loop_perm r dirs dirs' Hp fs Es) as (fs' & Es' & Hfs).
  rewrite Es'. cbn [bind].
  destruct (scan_uniform _ _ _ Es) as [b Hb].
  destruct (padding_of text) as [p| |]; cbn [bind]; [|discriminate|discriminate].
  case_eq (next_version fs); [intros [sorted v] En | discriminate | discriminate].
  destruct (next_version_of_perm b fs fs' sorted v Hb Hfs En) as (sorted' & En' & Hs).
  rewrite En'. cbn [bind fst snd].
  match goal with |- context [sub_tokens value ?d text] =>
    destruct (sub_tokens value d text) as [name| |] end; cbn [bind]; [|discriminate|discriminate].
  intros H. injection H as <-. eexists. split; [reflexivity|]. repeat split. exact Hs.
Qed.

Lemma update_folder_listing_order_witness :
  exists s2,
    update_folder "proj_{version##}" ["proj_07"; "other"; "proj_01"]
                  (generate_tokens (blank clock_2023)) = Returns s2
    /\ folder_new s2 = "proj_08".
Proof.
  destruct (update_folder_listing_order "proj_{version##}"
              ["proj_01"; "proj_07"; "other"] ["proj_07"; "other"; "proj_01"]
              (generate_tokens (blank clock_2023))
              (set_folder_new
                 (set_tokens
                    (set_version_padding
                       (set_folders
                          (set_pattern_regex
                             (set_pattern (generate_tokens (blank clock_2023))
                                          "proj_{version##}")
                             "proj_0*(?P<version>[1-9][0-9]*)")
                          [("proj_01", Some 1%Z); ("proj_07", Some 7%Z)])
                       2)
                    (table_with clock_2023 "08"))
                 "proj_08"))
    as (s2 & E & Hn & _).
  - apply perm_trans with (l' := ["proj_07"; "proj_01"; "other"]);
      [apply perm_swap | apply perm_skip, perm_swap].
  - reflexivity.
  - exists s2. split; [exact E | exact Hn].
Defined.

End ListingOrder.

Section PlainPrefix.

Lemma parse_seq_plain_step (c : ascii) (s : string) (f : nat) (items : list Re.item)
  (st : Re.pstate) :
  plain c = true ->
  Re.parse_seq (S f) (String c s) items st
  = Re.parse_seq f s ((Re.RChar c, false) :: items) st.
Proof.
  destruct c as [[] [] [] [] [] [] [] []]; intros H; try discriminate H; reflexivity.
Qed.

Lemma parse_seq_plain (pre : string) :
  all_chars plain pre = true ->
  forall s f items st,
    Re.parse_seq (String.length pre + f) (pre ++ s) items st
    = Re.parse_seq f s (lit_items pre items) st.
Proof.
  induction pre as [|c pre IH]; intros H s f items st; [reflexivity|].
  cbn [all_chars] in H. apply andb_true_iff in H as [Hc Hp].
  cbn [String.length append Nat.add lit_items].
  rewrite (parse_seq_plain_step _ _ _ _ _ Hc). now apply IH.
Qed.

Lemma parse_version_fragment (f : nat) (items : list Re.item) :
  Re.parse_seq (10 + f) "0*(?P<version>[1-9][0-9]*)" items
               {| Re.groups := 0; Re.names := [] |}
  = Re.POk (Re.seq_of ((Re.RGroup 1 version_body, false)
                         :: (Re.RRepeat 0 None (Re.RChar "0"), true) :: items) Re.REmpty,
            "", {| Re.groups := 1; Re.names := ["version"] |}).
Proof. reflexivity. Qed.

Lemma seq_lit_seq (pre : string) (a b : Re.regex) :
  exists x y, seq_lit pre (Re.RSeq a b) = Re.RSeq x y.
Proof. destruct pre; simpl; eauto. Qed.

Lemma seq_of_lit_items (pre : string) :
  forall items a b,
    Re.seq_of (lit_items pre items) (Re.RSeq a b)
    = Re.seq_of items (seq_lit pre (Re.RSeq a b)).
Proof.
  induction pre as [|c pre IH]; intros items a b; [reflexivity|].
  cbn [lit_items seq_lit]. rewrite IH. cbn [Re.seq_of].
  destruct (seq_lit_seq pre a b) as (x & y & ->). reflexivity.
Qed.

(** The regex of a literal text followed by the version fragment. *)
Lemma compile_version_after (pre : string) :
  all_chars plain pre = true ->
  Re.compile (pre ++ "0*(?P<version>[1-9][0-9]*)") = Re.POk (version_after pre, 1).
Proof.
  intros H. unfold Re.compile.
  replace (2 * String.length (pre ++ "0*(?P<version>[1-9][0-9]*)") + 3)
    with (S (String.length pre + (10 + (String.length pre + 44))))
    by (rewrite length_append; cbn [String.length]; lia).
  cbn [Re.parse_alt]. rewrite (parse_seq_plain pre H), parse_version_fragment.
  cbn [Re.seq_of]. rewrite seq_of_lit_items. reflexivity.
Qed.

End PlainPrefix.

Section VersionPattern.

Lemma plain_no_brace (pre : string) :
  all_chars plain pre = true -> Re.has_char "{" pre = false.
Proof. now apply all_chars_has_char. Qed.

Lemma plain_no_newline (pre : string) :
  all_chars plain pre = true -> Re.has_char Re.newline pre = false.
Proof. now apply all_chars_has_char. Qed.

Lemma hashes_no_brace (p : nat) (s : string) :
  Re.has_char "{" s = false -> Re.has_char "{" (Spec.hashes p ++ s) = false.
Proof. intros H. induction p; simpl; auto. Qed.

Lemma occurs_skip (old u post : string) :
  Re.has_char "{" u = false ->
  Spec.occurs (String "{" old) (u ++ post) = Spec.occurs (String "{" old) post.
Proof.
  induction u as [|c u IH]; [reflexivity|]. cbn [Re.has_char]. intros H.
  apply orb_false_iff in H as [Hc Hu]. cbn [append]. rewrite occurs_eq.
  cbn [Spec.strip_prefix]. rewrite Hc. auto.
Qed.

(** A placeholder other than the version token's does not occur in a
    version pattern without other braces. *)
Lemma occurs_version_pattern (old pre : string) (p : nat) :
  Re.has_char "{" pre = false ->
  Spec.strip_prefix old "version" = None ->
  (forall s, Spec.strip_prefix old ("version" ++ s) = None) ->
  Spec.occurs (String "{" old) (version_pattern pre p) = false.
Proof.
  intros Hpre _ Hold. unfold version_pattern. rewrite (occurs_skip _ _ _ Hpre).
  change ("{version" ++ Spec.hashes p ++ "}")
    with (String "{" ("version" ++ Spec.hashes p ++ "}")).
  rewrite occurs_eq. cbn [Spec.strip_prefix]. rewrite Ascii.eqb_refl, Hold.
  apply occurs_no_brace. change ("version" ++ Spec.hashes p ++ "}")
    with (String "v" (String "e" (String "r" (String "s" (String "i" (String "o"
           (String "n" (Spec.hashes p ++ "}")))))))).
  cbn [Re.has_char Ascii.eqb Bool.eqb orb]. now apply hashes_no_brace.
Qed.

Lemma version_token_hashes (k : nat) (post : string) :
  Spec.version_token ("{version" ++ Spec.hashes k ++ String "}" post) = Some (k, post).
Proof.
  unfold Spec.version_token. rewrite strip_prefix_append, skip_hashes.
  f_equal. f_equal. induction k; simpl; auto.
Qed.

Lemma replace_version_empty (new : string) : Spec.replace_version new "" = "".
Proof. reflexivity. Qed.

Lemma replace_version_pattern (new pre : string) (p : nat) :
  Re.has_char "{" pre = false ->
  Spec.replace_version new (version_pattern pre p) = pre ++ new.
Proof.
  unfold version_pattern. set (tok := "{version" ++ Spec.hashes p ++ "}").
  induction pre as [|c pre IH]; intros H.
  - cbn [append]. unfold tok.
    rewrite (replace_version_here _ _ _ _ (version_token_hashes p "")).
    rewrite replace_version_empty. apply append_nil_r.
  - cbn [Re.has_char] in H. apply orb_false_iff in H as [Hc Hp]. cbn [append].
    rewrite replace_version_next by now apply version_token_brace.
    now rewrite IH.
Qed.

Lemma replace_no_brace (old new s : string) :
  Re.has_char "{" s = false -> Spec.replace (String "{" old) new s = s.
Proof. intros H. apply replace_absent. now apply occurs_no_brace. Qed.

Lemma replace_version_pattern_other (old new pre : string) (p : nat) :
  Re.has_char "{" pre = false ->
  (forall s, Spec.strip_prefix old ("version" ++ s) = None) ->
  Spec.replace (String "{" old) new (version_pattern pre p) = version_pattern pre p.
Proof.
  intros Hpre Hold. apply replace_absent.
  apply occurs_version_pattern; [exact Hpre | apply (Hold "") | exact Hold].
Qed.

(** The substitutions of the table in a version pattern, one after the
    other: only the version token's changes the text. *)
Lemma fold_version_pattern (repl : token_values -> string) (t : datetime) (v pre : string)
  (p : nat) :
  Re.has_char "{" pre = false ->
  Re.has_char "{" (repl (mk "{version}" (Some "{version#*}")
                           "0*(?P<version>[1-9][0-9]*)" v)) = false ->
  fold_left (fun text nv => Spec.substitute (snd nv) (repl (snd nv)) text)
            (table_with t v) (version_pattern pre p)
  = pre ++ repl (mk "{version}" (Some "{version#*}") "0*(?P<version>[1-9][0-9]*)" v).
Proof.
  intros Hpre Hv. unfold table_with, table, generate_tokens, set_tokens, tokens.
  cbn [set_value String.eqb Ascii.eqb Bool.eqb fold_left snd].
  unfold Spec.substitute, mk in *. cbn [token token_regex pattern_regex_of].
  rewrite !replace_version_pattern_other by (try exact Hpre; intros s; reflexivity).
  rewrite (replace_version_pattern _ _ _ Hpre).
  match goal with |- Spec.replace _ _ (Spec.replace _ _ ?x) = _ =>
    assert (Hall : Re.has_char "{" x = false)
      by (rewrite has_char_append, Hpre, Hv; reflexivity)
  end.
  rewrite (replace_no_brace _ _ _ Hall). apply (replace_no_brace _ _ _ Hall).
Qed.

Lemma compile_version_pattern (t : datetime) (v pre : string) (p : nat) :
  Re.has_char "{" pre = false ->
  Spec.compile (table_with t v) (version_pattern pre p)
  = pre ++ "0*(?P<version>[1-9][0-9]*)".
Proof.
  intros H. unfold Spec.compile.
  now rewrite (fold_version_pattern pattern_regex_of t v pre p H).
Qed.

Lemma resolve_version_pattern (t : datetime) (v pre : string) (p : nat) :
  Re.has_char "{" pre = false -> Re.has_char "{" v = false ->
  Spec.resolve (table_with t v) (version_pattern pre p) = pre ++ v.
Proof.
  intros H Hv. unfold Spec.resolve.
  now rewrite (fold_version_pattern value t v pre p H).
Qed.

Lemma padding_of_version_pattern (pre : string) (p : nat) :
  Re.has_char Re.newline pre = false ->
  padding_of (version_pattern pre p) = Returns p.
Proof.
  intros H. unfold padding_of, version_pattern.
  rewrite (capture_tokens_compiled _ _ _ _ padding_regex_compiled). cbn [bind].
  rewrite (match_at_padding_token pre "" p H eq_refl).
  cbn [Re.group Re.mgroups nth]. now rewrite length_hashes.
Qed.

End VersionPattern.

Section Continuation.

Lemma skip_split (p : ascii -> bool) (s : string) :
  exists a, s = a ++ Spec.skip p s /\ all_chars p a = true.
Proof.
  induction s as [|c s (a & E & Ha)]; [exists ""; split; reflexivity|].
  cbn [Spec.skip]. destruct (p c) eqn:Ec.
  - exists (String c a). split; [cbn [append]; now rewrite <- E|].
    cbn [all_chars]. now rewrite Ec, Ha.
  - exists "". split; reflexivity.
Qed.

Lemma skip_skip (p : ascii -> bool) (s : string) :
  Spec.skip p (Spec.skip p s) = Spec.skip p s.
Proof.
  induction s as [|c s IH]; [reflexivity|]. cbn [Spec.skip].
  destruct (p c) eqn:Ec; [exact IH|]. cbn [Spec.skip]. now rewrite Ec.
Qed.

Lemma zeros_split (s : string) : exists k, s = PyStr.zeros k ++ Spec.skip is_zero s.
Proof.
  induction s as [|c s [k E]]; [exists 0; reflexivity|].
  cbn [Spec.skip]. destruct (is_zero c) eqn:Ec.
  - exists (S k). unfold is_zero in Ec. apply Ascii.eqb_eq in Ec. subst c.
    cbn [PyStr.zeros append]. now rewrite <- E.
  - exists 0. reflexivity.
Qed.

(** The group of the version fragment needs a digit from 1 to 9 first. *)
Lemma group_needs_nonzero (k : Re.cont) (s : string) (cs : Re.caps) :
  match s with
  | String c _ => Spec.is_nonzero_digit c = false
  | EmptyString => True
  end ->
  Re.m (Re.RGroup 1 version_body) k s cs = None.
Proof.
  destruct s as [|c s]; [reflexivity|]. intros H.
  cbn [Re.m version_body]. unfold Re.one at 1. cbn [xorb].
  unfold Re.in_set. cbn [existsb].
  change (nat_of_ascii "1") with 49. change (nat_of_ascii "9") with 57.
  unfold Spec.is_nonzero_digit in H. now rewrite H.
Qed.

(** What a match of a literal text and the version fragment is made of. *)
Lemma match_version_after_inv (pre s rest : string) (cs : Re.caps) :
  Re.match_at (version_after pre) 1 s = Some (rest, cs) ->
  exists k w,
    s = pre ++ PyStr.zeros k ++ w ++ rest
    /\ Spec.is_version_text w = true
    /\ Spec.skip PyStr.is_digit rest = rest
    /\ cs = [Some w].
Proof.
  intros H. pose proof H as H0. unfold Re.match_at, version_after in H.
  rewrite m_seq_lit in H.
  destruct (Spec.strip_prefix pre s) as [r|] eqn:Ep; [|discriminate].
  apply strip_prefix_sound in Ep. subst s.
  change (Re.m (Re.RSeq ?a ?b) Re.accept) with (Re.m a (Re.m b Re.accept)) in H.
  rewrite m_star_char in H. fold is_zero in H.
  rewrite (star_all is_zero _ (group_fails_on_zero Re.accept)) in H.
  destruct (zeros_split r) as [k Er].
  destruct (Spec.skip is_zero r) as [|c r'] eqn:Es.
  - rewrite group_needs_nonzero in H by exact I. discriminate.
  - destruct (Spec.is_nonzero_digit c) eqn:Ec.
    2:{ rewrite group_needs_nonzero in H by exact Ec. discriminate. }
    destruct (skip_split PyStr.is_digit r') as (a & Ea & Ha).
    assert (Hw : Spec.is_version_text (String c a) = true).
    { cbn [Spec.is_version_text]. now rewrite Ec, (skip_all _ _ Ha). }
    pose proof (match_version_after pre k (String c a) (Spec.skip PyStr.is_digit r') Hw
                  (skip_skip _ _)) as Hm.
    cbn [append] in Hm. rewrite <- Ea, <- Er in Hm.
    rewrite Hm in H0. injection H0 as <- <-.
    exists k, (String c a). repeat split; auto.
    + rewrite Er at 1. cbn [append]. now rewrite <- Ea.
    + apply skip_skip.
Qed.

Lemma consumed_all (s : string) : Re.consumed s "" = s.
Proof. rewrite <- (append_nil_r s) at 1. apply consumed_append. Qed.

(** What one entry adds to the list under the regex of a version pattern:
    nothing, or its name up to the end of the digits, with the number they
    write. *)
Lemma find_folder_version_after (regex pre d : string) :
  Re.compile regex = Re.POk (version_after pre, 1) ->
  find_folder regex d = Returns []
  \/ exists k w rest v,
       d = pre ++ PyStr.zeros k ++ w ++ rest
       /\ Spec.is_version_text w = true
       /\ Spec.skip PyStr.is_digit rest = rest
       /\ PyStr.int w = Returns v /\ (1 <= v)%Z
       /\ find_folder regex d = Returns [(pre ++ PyStr.zeros k ++ w, Some v)].
Proof.
  intros Hc. unfold find_folder. rewrite (capture_tokens_compiled _ _ _ _ Hc). cbn [bind].
  destruct (Re.match_at (version_after pre) 1 d) as [[rest cs]|] eqn:Em; [|now left].
  right. apply match_version_after_inv in Em as (k & w & -> & Hw & Hrest & ->).
  destruct (int_version_text w Hw) as (v & Hv & Hv1).
  exists k, w, rest, v. repeat split; auto.
  cbn [Re.mgroups Re.group Re.group0 List.length Nat.eqb nth]. rewrite Hv. cbn [bind].
  rewrite <- !append_assoc, consumed_append. now rewrite !append_assoc.
Qed.

Lemma scan_version_after (regex pre : string) (dirs : list string) :
  Re.compile regex = Re.POk (version_after pre, 1) ->
  exists fs,
    find_folders_loop regex dirs [] = Returns fs
    /\ Forall (fun f => exists v, snd f = Some v /\ (1 <= v)%Z) fs.
Proof.
  intros Hc. induction dirs as [|d dirs (fs & E & Hfs)].
  - exists []. split; [reflexivity | constructor].
  - rewrite find_folders_loop_cons, E.
    destruct (find_folder_version_after regex pre d Hc)
      as [->|(k & w & rest & v & _ & _ & _ & _ & Hv & ->)]; cbn [bind app].
    + eauto.
    + eexists. split; [reflexivity|]. constructor; [|exact Hfs]. cbn [snd]. eauto.
Qed.

Lemma scan_member (regex d : string) (dirs : list string) (fs : list folder_tuple) :
  find_folders_loop regex dirs [] = Returns fs -> In d dirs ->
  exists l, find_folder regex d = Returns l /\ incl l fs.
Proof.
  revert fs. induction dirs as [|x dirs IH]; intros fs H Hin; [destruct Hin|].
  rewrite find_folders_loop_cons in H.
  destruct (find_folder regex x) as [lx| |] eqn:Ex; cbn [bind] in H;
    [|discriminate|discriminate].
  destruct (find_folders_loop regex dirs []) as [fl| |]; cbn [bind] in H;
    [|discriminate|discriminate].
  injection H as <-. destruct Hin as [<-|Hin].
  - exists lx. split; [exact Ex | now apply incl_appl].
  - destruct (IH fl eq_refl Hin) as (l & El & Hl). exists l. split; [exact El|].
    now apply incl_appr.
Qed.

(** The text of a number from 1 on is a version text. *)
Lemma nzhead_no_zero (d l : Decimal.uint) : Decimal.nzhead d <> Decimal.D0 l.
Proof. induction d; simpl; try discriminate. exact IHd. Qed.

Lemma str_version_text (q : positive) : Spec.is_version_text (PyStr.str (Zpos q)) = true.
Proof.
  destruct (str_pos q) as [E _]. rewrite E.
  pose proof (DecimalPos.Unsigned.to_of (Pos.to_uint q)) as Hn.
  rewrite DecimalPos.Unsigned.of_to in Hn. cbn [N.to_uint] in Hn.
  pose proof (digits_uint (Pos.to_uint q)) as Hd.
  pose proof (DecimalPos.Unsigned.to_uint_nonnil q) as Hnil.
  destruct (Pos.to_uint q) as [|u|u|u|u|u|u|u|u|u|u] eqn:Eu; try congruence;
    cbn [NilEmpty.string_of_uint all_chars] in *;
    try (cbn [Spec.is_version_text]; apply andb_true_iff in Hd as [_ Hd];
         now rewrite (skip_all _ _ Hd)).
  exfalso. unfold Decimal.unorm in Hn. cbn [Decimal.nzhead] in Hn.
  destruct (Decimal.nzhead u) eqn:En; try discriminate.
  - injection Hn as Hn. subst u. exact (DecimalPos.Unsigned.to_uint_nonzero q Eu).
  - exact (nzhead_no_zero _ _ En).
Qed.

Lemma find_folder_proposed (regex pre : string) (n : Z) (p : nat) :
  Re.compile regex = Re.POk (version_after pre, 1) -> (1 <= n)%Z ->
  find_folder regex (pre ++ PyStr.zfill (PyStr.str n) p)
  = Returns [(pre ++ PyStr.zfill (PyStr.str n) p, Some n)].
Proof.
  intros Hc Hn. destruct n as [|q|q]; try lia.
  unfold find_folder. rewrite (capture_tokens_compiled _ _ _ _ Hc). cbn [bind].
  rewrite (zfill_digits _ _ (digits_str_pos q)).
  pose proof (match_version_after pre (p - String.length (PyStr.str (Zpos q)))
                (PyStr.str (Zpos q)) "" (str_version_text q) eq_refl) as Hm.
  rewrite append_nil_r in Hm. rewrite Hm.
  cbn [Re.mgroups Re.group Re.group0 List.length Nat.eqb nth].
  rewrite consumed_all.
  pose proof (int_zfill_str (Zpos q) 0) as Hi.
  rewrite (zfill_digits _ _ (digits_str_pos q)) in Hi. cbn [Nat.sub PyStr.zeros append] in Hi.
  rewrite Hi. reflexivity.
Qed.

Lemma resolve_next_max (l : list Z) (mx : Z) :
  In mx l -> (forall w, In w l -> (w <= mx)%Z) -> Spec.resolve_next l = (mx + 1)%Z.
Proof.
  destruct l as [|v vs]; [intros []|]. intros Hin Hall.
  cbn [Spec.resolve_next]. now rewrite (maximum_unique v vs mx Hin Hall).
Qed.

Lemma resolve_next_above (l : list Z) :
  Forall (fun v => (1 <= v)%Z) l ->
  (1 <= Spec.resolve_next l)%Z /\ forall w, In w l -> (w < Spec.resolve_next l)%Z.
Proof.
  destruct l as [|v vs]; intros H.
  - split; [cbn; lia | intros w []].
  - cbn [Spec.resolve_next]. inversion H as [|? ? Hv _]; subst.
    pose proof (maximum_ge v vs v (or_introl eq_refl)). split; [lia|].
    intros w Hw. pose proof (maximum_ge v vs w Hw). lia.
Qed.

Lemma versions_app (a b : list folder_tuple) :
  versions (a ++ b) = (versions a ++ versions b)%list.
Proof. apply flat_map_app. Qed.

Lemma versions_in (fs : list folder_tuple) (v : Z) :
  In v (versions fs) <-> exists g, In (g, Some v) fs.
Proof.
  unfold versions. rewrite in_flat_map. split.
  - intros ([g [w|]] & Hin & Hv); cbn [snd] in Hv; [|destruct Hv].
    destruct Hv as [<-|[]]. eauto.
  - intros [g Hg]. exists (g, Some v). split; [exact Hg | now left].
Qed.

Lemma versions_at_least (fs : list folder_tuple) :
  Forall (fun f => exists v, snd f = Some v /\ (1 <= v)%Z) fs ->
  Forall (fun v => (1 <= v)%Z) (versions fs)
  /\ Forall (fun f => has_version f = true) fs.
Proof.
  induction 1 as [|[g o] fs (v & Hv & Hv1) _ [IH1 IH2]]; [split; constructor|].
  cbn [snd] in Hv. subst o. split; constructor; auto.
Qed.

End Continuation.

Section VersionSequence.

(** The pass for a version pattern, given the list of the scan. *)
Lemma pass_version_pattern (tm t : datetime) (v0 pre : string) (p : nat)
  (dirs : list string) (fs : list folder_tuple) :
  all_chars plain pre = true ->
  find_folders_loop (pre ++ "0*(?P<version>[1-9][0-9]*)") dirs [] = Returns fs ->
  Forall (fun f => exists v, snd f = Some v /\ (1 <= v)%Z) fs ->
  exists sorted,
    pass tm (table_with t v0) (version_pattern pre p) dirs
    = Returns {| now := tm;
                 tokens := table_with t (PyStr.zfill
                                           (PyStr.str (Spec.resolve_next (versions fs))) p);
                 pattern := version_pattern pre p;
                 pattern_regex := pre ++ "0*(?P<version>[1-9][0-9]*)";
                 folders := sorted;
                 version_padding := p;
                 folder_new := pre ++ PyStr.zfill
                                        (PyStr.str (Spec.resolve_next (versions fs))) p |}
    /\ Permutation fs sorted.
Proof.
  intros Hpre Hscan Hfs. destruct (versions_at_least fs Hfs) as [Hv Hall].
  destruct (resolve_next_above _ Hv) as [Hn _].
  destruct (next_version_uniform true fs Hall) as [sorted En].
  exists sorted. split; [|exact (next_version_perm _ _ _ En)].
  unfold pass.
  rewrite compile_table, (compile_version_pattern _ _ _ _ (plain_no_brace _ Hpre)).
  cbn [bind]. rewrite Hscan. cbn [bind].
  rewrite (padding_of_version_pattern _ _ (plain_no_newline _ Hpre)). cbn [bind].
  rewrite En. cbn [bind fst snd]. rewrite table_with_twice.
  assert (Hd : all_chars PyStr.is_digit
                 (PyStr.zfill (PyStr.str (Spec.resolve_next (versions fs))) p) = true)
    by (apply digits_zfill, digits_str; lia).
  rewrite (resolve_table _ _ _ (digits_no_backslash _ Hd)).
  rewrite (resolve_version_pattern _ _ _ _ (plain_no_brace _ Hpre) (digits_no_brace _ Hd)).
  reflexivity.
Qed.

(** With a pattern made of plain literal text and a version token, a pass
    returns, whatever the directory holds, and proposes the literal text
    followed by a number [n] from 1 on, filled with zeros to the width of
    the token, that is above every version found; no entry of the directory
    has the proposed name; and once a folder of that name is added to the
    directory, anywhere in the listing, the next pass proposes [n + 1]. *)
Theorem version_pattern_continues (t : datetime) (v0 pre : string) (p : nat)
  (dirs : list string) (self : ContinueFolder) :
  all_chars plain pre = true ->
  tokens self = table_with t v0 ->
  exists s1 n,
    update_folder (version_pattern pre p) dirs self = Returns s1
    /\ (1 <= n)%Z
    /\ folder_new s1 = pre ++ PyStr.zfill (PyStr.str n) p
    /\ Forall (fun f => exists v, snd f = Some v /\ (1 <= v < n)%Z) (folders s1)
    /\ ~ In (folder_new s1) dirs
    /\ forall a b, dirs = (a ++ b)%list ->
         exists s2,
           update_folder (version_pattern pre p) (a ++ folder_new s1 :: b)%list s1
           = Returns s2
           /\ folder_new s2 = pre ++ PyStr.zfill (PyStr.str (n + 1)) p.
Proof.
  intros Hpre Ht.
  pose proof (compile_version_after pre Hpre) as Hc.
  destruct (scan_version_after _ pre dirs Hc) as (fs & Hscan & Hfs).
  destruct (versions_at_least fs Hfs) as [Hv Hall].
  destruct (resolve_next_above _ Hv) as [Hn Habove].
  destruct (pass_version_pattern (now self) t v0 pre p dirs fs Hpre Hscan Hfs)
    as (sorted & Hpass & Hperm).
  set (n := Spec.resolve_next (versions fs)) in *.
  assert (Hlt : Forall (fun f => exists v, snd f = Some v /\ (1 <= v < n)%Z) fs).
  { apply Forall_forall. intros [g o] Hin.
    pose proof (proj1 (Forall_forall _ _) Hfs _ Hin) as (v & Ev & Hv1).
    cbn [snd] in *. subst o. exists v. split; [reflexivity|]. split; [exact Hv1|].
    apply Habove, versions_in. eauto. }
  eexists. exists n. rewrite update_folder_pass, Ht. split; [exact Hpass|].
  cbn [folder_new folders]. split; [exact Hn|]. split; [reflexivity|].
  split; [eapply Permutation_Forall; eassumption|]. split.
  - intros Hin. destruct (scan_member _ _ _ _ Hscan Hin) as (l & El & Hl).
    rewrite (find_folder_proposed _ _ _ _ Hc Hn) in El. injection El as <-.
    pose proof (proj1 (Forall_forall _ _) Hlt _ (Hl _ (or_introl eq_refl)))
      as (v & Ev & Hv1).
    cbn [snd] in Ev. injection Ev as <-. lia.
  - intros a b ->. rewrite update_folder_pass. cbn [now tokens].
    rewrite find_folders_loop_app in Hscan.
    destruct (scan_version_after _ pre a Hc) as (fa & Ha & Hfa).
    destruct (scan_version_after _ pre b Hc) as (fb & Hb & Hfb).
    rewrite Ha in Hscan. cbn [bind] in Hscan.
    rewrite find_folders_loop_acc, Hb in Hscan. cbn [bind] in Hscan.
    injection Hscan as Hfs_eq.
    set (new := pre ++ PyStr.zfill (PyStr.str n) p).
    assert (Hscan' : find_folders_loop (pre ++ "0*(?P<version>[1-9][0-9]*)")
                       (a ++ new :: b)%list []
                     = Returns (fa ++ (new, Some n) :: fb)%list).
    { rewrite find_folders_loop_app, Ha. cbn [bind].
      rewrite find_folders_loop_acc, find_folders_loop_cons. unfold new.
      rewrite (find_folder_proposed _ _ _ _ Hc Hn), Hb. reflexivity. }
    assert (Hfs' : Forall (fun f => exists v, snd f = Some v /\ (1 <= v)%Z)
                     (fa ++ (new, Some n) :: fb)%list).
    { apply Forall_app. split; [exact Hfa|]. constructor; [|exact Hfb].
      cbn [snd]. eauto. }
    destruct (pass_version_pattern (now self) t (PyStr.zfill (PyStr.str n) p) pre p _ _
                Hpre Hscan' Hfs') as (sorted' & Hpass' & _).
    eexists. split; [exact Hpass'|]. cbn [folder_new].
    replace (Spec.resolve_next (versions (fa ++ (new, Some n) :: fb)%list))
      with (n + 1)%Z; [reflexivity|].
    symmetry. apply resolve_next_max.
    + rewrite versions_app. apply in_or_app. right. now left.
    + intros w Hw. rewrite versions_app in Hw. apply in_app_or in Hw.
      assert (Hin : In w (versions fs) \/ w = n).
      { subst fs. rewrite versions_app. destruct Hw as [Hw|[Hw|Hw]].
        - left. apply in_or_app. now left.
        - right. now symmetry.
        - left. apply in_or_app. now right. }
      destruct Hin as [Hin| ->]; [|lia]. pose proof (Habove _ Hin). lia.
Qed.

Lemma version_pattern_continues_witness :
  exists s1 n,
    update_folder (version_pattern "shot_v" 3) ["shot_v001"; "shot_v002_old"; "notes"]
                  (generate_tokens (blank clock_2023)) = Returns s1
    /\ (1 <= n)%Z
    /\ folder_new s1 = "shot_v" ++ PyStr.zfill (PyStr.str n) 3
    /\ ~ In (folder_new s1) ["shot_v001"; "shot_v002_old"; "notes"].
Proof.
  destruct (version_pattern_continues clock_2023 "1" "shot_v" 3
              ["shot_v001"; "shot_v002_old"; "notes"]
              (generate_tokens (blank clock_2023)) eq_refl eq_refl)
    as (s1 & n & E & Hn & Hf & _ & Hfresh & _).
  exists s1, n. repeat split; assumption.
Defined.

End VersionSequence.

Section TokenTable.

Lemma two_digits_match (n : nat) :
  n < 100 -> matches_in_full "[0-9]{2}" (two_digits n) = true.
Proof.
  intros H.
  assert (Hall : forallb (fun n => matches_in_full "[0-9]{2}" (two_digits n)) (seq 0 100)
                 = true) by (vm_compute; reflexivity).
  apply (proj1 (forallb_forall _ _) Hall). apply in_seq. lia.
Qed.

Lemma zrange_in (len : nat) :
  forall a z, (a <= z < a + Z.of_nat len)%Z -> In z (zrange a len).
Proof.
  induction len as [|len IH]; intros a z H; [lia|].
  cbn [zrange]. destruct (Z.eq_dec a z) as [->|Hne]; [now left|].
  right. apply IH. lia.
Qed.

(** An exact number of digits, as the repeat of a digit test reads them. *)
Lemma rep_exact_digits (mr : Re.cont -> Re.cont) (k : Re.cont) (rest : string)
  (cs : Re.caps) (s : string) :
  (forall K d u, PyStr.is_digit d = true -> mr K (String d u) cs = K u cs) ->
  all_chars PyStr.is_digit s = true ->
  forall fuel, String.length s < fuel ->
    Re.rep mr fuel (String.length s) (Some (String.length s)) k (s ++ rest) cs
    = k rest cs.
Proof.
  intros Hmr. induction s as [|a s IH]; intros Hs fuel Hf.
  - destruct fuel as [|f]; [cbn in Hf; lia | reflexivity].
  - cbn [all_chars] in Hs. apply andb_true_iff in Hs as [Ha Hs].
    destruct fuel as [|f]; [lia|]. cbn [String.length] in Hf.
    cbn [Re.rep String.length append option_map pred]. rewrite (Hmr _ _ _ Ha).
    replace (String.length (s ++ rest) <? S (String.length (s ++ rest)))%nat with true
      by (symmetry; apply Nat.ltb_lt; lia).
    apply IH; [exact Hs | lia].
Qed.

Lemma digit_set_step (K : Re.cont) (d : ascii) (u : string) (cs : Re.caps) :
  PyStr.is_digit d = true ->
  Re.m (Re.RSet false [("0", "9")%char]) K (String d u) cs = K u cs.
Proof. intros H. cbn [Re.m Re.one]. now rewrite xorb_false_l, in_set_digit, H. Qed.

Lemma year_length (z : Z) :
  (1000 <= z <= 9999)%Z -> String.length (PyStr.str z) = 4.
Proof.
  intros H.
  assert (Hall : forallb (fun z => (String.length (PyStr.str z) =? 4)%nat)
                         (zrange 1000 (Z.to_nat 9000)) = true) by (vm_compute; reflexivity).
  apply Nat.eqb_eq. apply (proj1 (forallb_forall _ _) Hall). apply zrange_in.
  rewrite Z2Nat.id by lia. lia.
Qed.

Lemma year_match (z : Z) :
  (1000 <= z <= 9999)%Z -> matches_in_full "[0-9]{4}" (PyStr.str z) = true.
Proof.
  intros H. unfold matches_in_full, Re.re_match.
  change (Re.compile "[0-9]{4}")
    with (Re.POk (Re.RRepeat 4 (Some 4) (Re.RSet false [("0", "9")%char]), 0)).
  unfold Re.match_at. cbn [Re.m repeat].
  pose proof (rep_exact_digits (Re.m (Re.RSet false [("0", "9")%char])) Re.accept "" []
                (PyStr.str z) (fun K d u => digit_set_step K d u [])
                (digits_str z ltac:(lia)) (S (String.length (PyStr.str z)))
                ltac:(lia)) as Hm.
  rewrite append_nil_r in Hm. rewrite (year_length z H) in Hm at 2 3.
  change (Re.m (Re.RSet false [("0", "9")%char]))
    with (fun k : Re.cont =>
            Re.one (fun d => xorb false (Re.in_set d [("0", "9")%char])) k) in Hm.
  rewrite Hm. unfold Re.accept. cbn [Re.group0]. rewrite consumed_all.
  apply String.eqb_refl.
Qed.

(** At a clock within the ranges of [datetime] and with a year of four
    digits, the value [generate_tokens] gives each token is matched in full
    by the match fragment it gives the same token. *)
Theorem token_values_match_fragments (t : datetime) :
  valid_clock t ->
  Forall (fun nv => matches_in_full (pattern_regex_of (snd nv)) (value (snd nv)) = true)
         (tokens (generate_tokens (blank t))).
Proof.
  intros (Hy & Hmo & Hd & Hh & Hmi).
  unfold generate_tokens, set_tokens, tokens, strftime.
  cbn [now blank]. repeat apply Forall_cons; try apply Forall_nil;
    cbn [snd mk pattern_regex_of value].
  - destruct (hour t <? 12)%nat; vm_compute; reflexivity.
  - destruct (hour t <? 12)%nat; vm_compute; reflexivity.
  - apply two_digits_match. lia.
  - apply two_digits_match. pose proof (Nat.mod_upper_bound (hour t) 12).
    destruct (hour t mod 12)%nat; lia.
  - apply two_digits_match. lia.
  - apply two_digits_match. lia.
  - apply two_digits_match. lia.
  - vm_compute. reflexivity.
  - apply two_digits_match.
    pose proof (Nat.mod_upper_bound (year t) 100 ltac:(discriminate)). lia.
  - apply year_match. exact Hy.
Qed.

Lemma token_values_match_fragments_witness :
  Forall (fun nv => matches_in_full (pattern_regex_of (snd nv)) (value (snd nv)) = true)
         (tokens (generate_tokens (blank clock_2023))).
Proof.
  apply (token_values_match_fragments clock_2023). unfold valid_clock, clock_2023.
  cbn [year month day hour minute]. lia.
Defined.

End TokenTable.

(** ** The presets *)

Section StringOrder.

Lemma ascii_compare_refl (a : ascii) : Ascii.compare a a = Eq.
Proof. apply N.compare_refl. Qed.

Lemma string_compare_refl (s : string) : String.compare s s = Eq.
Proof. induction s as [|a s IH]; [reflexivity|]. cbn. now rewrite ascii_compare_refl. Qed.

Lemma ascii_compare_lt_trans (a b c : ascii) :
  Ascii.compare a b = Lt -> Ascii.compare b c = Lt -> Ascii.compare a c = Lt.
Proof. unfold Ascii.compare. rewrite !N.compare_lt_iff. lia. Qed.

Lemma string_compare_lt_trans (x : string) :
  forall y z, String.compare x y = Lt -> String.compare y z = Lt -> String.compare x z = Lt.
Proof.
  induction x as [|a x IH]; intros [|b y] [|c z]; cbn; try discriminate; try reflexivity.
  destruct (Ascii.compare a b) eqn:Eab; try discriminate.
  - apply Ascii.compare_eq_iff in Eab. subst b.
    destruct (Ascii.compare a c); try discriminate; [apply IH | reflexivity].
  - intros _. destruct (Ascii.compare b c) eqn:Ebc; try discriminate.
    + apply Ascii.compare_eq_iff in Ebc. subst c. now rewrite Eab.
    + now rewrite (ascii_compare_lt_trans _ _ _ Eab Ebc).
Qed.

Lemma ltb_lt (x y : string) : String.ltb x y = true <-> String.compare x y = Lt.
Proof. unfold String.ltb. destruct (String.compare x y); split; congruence. Qed.

Lemma ltb_irrefl (x : string) : String.ltb x x = false.
Proof. unfold String.ltb. now rewrite string_compare_refl. Qed.

Lemma ltb_asym (x y : string) : String.ltb x y = true -> String.ltb y x = false.
Proof.
  unfold String.ltb. rewrite (String.compare_antisym x y).
  destruct (String.compare y x); cbn; congruence.
Qed.

(** [x <= y] and [y <= z] give [x <= z], with [a <= b] read as not [b < a]. *)
Lemma ltb_false_trans (x y z : string) :
  String.ltb y x = false -> String.ltb z y = false -> String.ltb z x = false.
Proof.
  intros Hyx Hzy. destruct (String.ltb z x) eqn:Hzx; [|reflexivity].
  apply ltb_lt in Hzx. unfold String.ltb in Hyx, Hzy.
  destruct (String.compare y x) eqn:Eyx; try discriminate.
  - apply String.compare_eq_iff in Eyx. subst y. now rewrite Hzx in Hzy.
  - rewrite String.compare_antisym in Eyx.
    destruct (String.compare x y) eqn:Exy; try discriminate.
    now rewrite (string_compare_lt_trans _ _ _ Hzx Exy) in Hzy.
Qed.

Lemma ltb_false_antisym (x y : string) :
  String.ltb x y = false -> String.ltb y x = false -> x = y.
Proof.
  unfold String.ltb. rewrite (String.compare_antisym y x).
  destruct (String.compare x y) eqn:E; cbn; try discriminate.
  intros _ _. now apply String.compare_eq_iff.
Qed.

End StringOrder.

Section SortPresets.

Import ETree Presets.

Lemma key_lt_asym (a b : string * option string) :
  key_lt a b = Some true -> key_lt b a = Some false.
Proof.
  unfold key_lt. rewrite (String.eqb_sym (fst b)).
  destruct (String.eqb (fst a) (fst b)).
  - destruct (snd a), (snd b); try discriminate.
    intros H. injection H as H. now rewrite (ltb_asym _ _ H).
  - intros H. injection H as H. now rewrite (ltb_asym _ _ H).
Qed.

Lemma key_le_trans (a b c : string * option string) :
  key_lt b a = Some false -> key_lt c b = Some false -> key_lt c a <> None ->
  key_lt c a = Some false.
Proof.
  unfold key_lt. destruct a as [ta na], b as [tb nb], c as [tc nc]. cbn [fst snd].
  destruct (String.eqb tb ta) eqn:Eba.
  - apply String.eqb_eq in Eba. subst tb.
    destruct (String.eqb tc ta) eqn:Eca.
    + destruct na, nb, nc; try discriminate; try congruence.
      intros H1 H2 _. injection H1 as H1. injection H2 as H2.
      now rewrite (ltb_false_trans _ _ _ H1 H2).
    + auto.
  - destruct (String.eqb tc tb) eqn:Ecb.
    + apply String.eqb_eq in Ecb. subst tc. rewrite Eba. auto.
    + intros H1 H2. injection H1 as H1. injection H2 as H2.
      destruct (String.eqb tc ta) eqn:Eca.
      * apply String.eqb_eq in Eca. subst tc.
        rewrite (ltb_false_antisym _ _ H1 H2), String.eqb_refl in Eba. discriminate.
      * intros _. now rewrite (ltb_false_trans _ _ _ H1 H2).
Qed.

Lemma insert_child_perm (x : element) (l : list element) :
  Permutation (x :: l) (insert_child x l).
Proof.
  induction l as [|y l IH]; cbn [insert_child]; [apply Permutation_refl|].
  destruct (key_lt (sort_key y) (sort_key x)) as [[|]|]; try apply Permutation_refl.
  eapply perm_trans; [apply perm_swap|]. now constructor.
Qed.

Lemma sorted_children_perm (cs : list element) : Permutation cs (sorted_children cs).
Proof.
  induction cs as [|x cs IH]; [constructor|]. cbn [sorted_children fold_right].
  eapply perm_trans; [|apply insert_child_perm]. now constructor.
Qed.

Lemma insert_child_sorted (x : element) (l : list element) :
  Forall (fun y => key_lt (sort_key y) (sort_key x) <> None) l ->
  key_sorted l -> key_sorted (insert_child x l).
Proof.
  unfold key_sorted. intros Hc Hs. induction Hs as [|y l Hs IH Hy]; cbn [insert_child].
  - repeat constructor.
  - inversion Hc as [|? ? Hyx Hl]; subst.
    destruct (key_lt (sort_key y) (sort_key x)) as [[|]|] eqn:E; [| |congruence].
    + constructor; [now apply IH|].
      eapply Permutation_Forall; [apply insert_child_perm|].
      constructor; [now apply key_lt_asym | exact Hy].
    + constructor; [now constructor|]. constructor; [exact E|].
      apply Forall_forall. intros b Hb.
      apply (key_le_trans _ (sort_key y)); [exact E | |].
      * exact (proj1 (Forall_forall _ _) Hy b Hb).
      * exact (proj1 (Forall_forall _ _) Hl b Hb).
Qed.

Lemma comparable_forall (cs : list element) :
  comparable cs = true ->
  forall a b, In a cs -> In b cs -> key_lt (sort_key a) (sort_key b) <> None.
Proof.
  unfold comparable. intros H a b Ha Hb.
  pose proof (proj1 (forallb_forall _ _) H a Ha) as H1.
  pose proof (proj1 (forallb_forall _ _) H1 b Hb) as H2.
  cbv beta in H2. intros E. rewrite E in H2. discriminate.
Qed.

Lemma sorted_children_sorted (cs : list element) :
  (forall a b, In a cs -> In b cs -> key_lt (sort_key a) (sort_key b) <> None) ->
  key_sorted (sorted_children cs).
Proof.
  induction cs as [|x cs IH]; intros Hc; [constructor|].
  cbn [sorted_children fold_right]. apply insert_child_sorted.
  - apply Forall_forall. intros y Hy. apply Hc; [right|left; reflexivity].
    eapply Permutation_in; [apply Permutation_sym, sorted_children_perm | exact Hy].
  - apply IH. intros a b Ha Hb. apply Hc; now right.
Qed.

End SortPresets.

Section PresetStore.

Import ETree Presets.

Lemma fold_exists {A : Type} (f : A -> bool) (l : list A) :
  forall acc, fold_left (fun d p => if f p then true else d) l acc = (acc || existsb f l)%bool.
Proof.
  induction l as [|x l IH]; intros acc; cbn [fold_left existsb]; [now rewrite orb_false_r|].
  rewrite IH. destruct (f x), acc; reflexivity.
Qed.

Lemma duplicate_check_exists (root : element) (n : string) :
  duplicate_check root n = existsb (named n) (findall root "preset").
Proof. unfold duplicate_check. now rewrite fold_exists. Qed.

Lemma filter_nil_exists {A : Type} (f : A -> bool) (l : list A) :
  existsb f l = false <-> filter f l = [].
Proof.
  induction l as [|x l IH]; cbn [existsb filter]; [tauto|].
  destruct (f x); cbn [orb]; [split; discriminate | exact IH].
Qed.

Lemma duplicate_check_named (root : element) (n : string) :
  duplicate_check root n = false <-> presets_named root n = [].
Proof. rewrite duplicate_check_exists. apply filter_nil_exists. Qed.

Lemma filter_perm {A : Type} (f : A -> bool) (l l' : list A) :
  Permutation l l' -> Permutation (filter f l) (filter f l').
Proof.
  induction 1 as [|x l l' _ IH|x y l|l l' l'' _ IH1 _ IH2]; cbn [filter].
  - constructor.
  - destruct (f x); [now constructor | exact IH].
  - destruct (f x), (f y); try apply Permutation_refl. apply perm_swap.
  - eapply perm_trans; eassumption.
Qed.

Lemma filter_and {A : Type} (f g : A -> bool) (l : list A) :
  filter g (filter f l) = filter (fun x => f x && g x)%bool l.
Proof.
  induction l as [|x l IH]; [reflexivity|]. cbn [filter].
  destruct (f x); cbn [filter andb]; [destruct (g x)|]; now rewrite IH.
Qed.

(** The presets of a name among the children of a root. *)
Lemma presets_named_children (root : element) (n : string) :
  presets_named root n
  = filter (fun c => String.eqb (tag c) "preset" && named n c)%bool (children root).
Proof. unfold presets_named, findall. apply filter_and. Qed.

Lemma named_new (n pat : string) : named n (new_preset n pat) = true.
Proof. unfold named, new_preset, get. cbn. apply String.eqb_refl. Qed.

Lemma named_one (n m : string) (c : element) :
  named n c = true -> named m c = true -> n = m.
Proof.
  unfold named. destruct (get c "name") as [x|]; [|discriminate].
  intros H1 H2. apply String.eqb_eq in H1, H2. congruence.
Qed.

(** [update_pattern]'s loop stops at the first preset of the name. *)
Lemma update_pattern_loop_first (presets : list element) (n : string) :
  update_pattern_loop presets n
  = match filter (named n) presets with
    | preset :: _ =>
        match find preset "pattern" with
        | Some p => SetText (text p)
        | None => NoPattern
        end
    | [] => Keep
    end.
Proof.
  induction presets as [|c presets IH]; [reflexivity|].
  cbn [update_pattern_loop filter]. destruct (named n c); [reflexivity | exact IH].
Qed.

Lemma update_pattern_named (root : element) (n : string) :
  n <> "" ->
  update_pattern root n
  = match presets_named root n with
    | preset :: _ =>
        match find preset "pattern" with
        | Some p => SetText (text p)
        | None => NoPattern
        end
    | [] => Keep
    end.
Proof.
  intros Hn. unfold update_pattern, presets_named. rewrite <- update_pattern_loop_first.
  destruct n; [congruence | reflexivity].
Qed.

(** [save_preset], when it returns, leaves the children of the root with
    the new preset among them, in the order of the keys [(tag, name)]; the
    rest of the root is as before; the name is then a duplicate; and when it
    was not one before, the new preset is the only one of its name and
    [update_pattern] shows its pattern. *)
Theorem save_preset_sorted (root root' : element) (n pat : string) :
  save_preset root n pat = Returns root' ->
  tag root' = tag root /\ attrib root' = attrib root /\ text root' = text root
  /\ Permutation (children root ++ [new_preset n pat]) (children root')
  /\ key_sorted (children root')
  /\ duplicate_check root' n = true
  /\ (duplicate_check root n = false ->
      presets_named root' n = [new_preset n pat]
      /\ (n <> "" -> update_pattern root' n = SetText (Some pat))).
Proof.
  unfold save_preset, sort_presets. cbn [children set_children].
  destruct (comparable (children root ++ [new_preset n pat])) eqn:Ec; [|discriminate].
  intros H. injection H as <-. cbn [tag attrib text children set_children].
  pose proof (sorted_children_perm (children root ++ [new_preset n pat])) as Hp.
  repeat split; try reflexivity.
  - exact Hp.
  - apply sorted_children_sorted, comparable_forall, Ec.
  - rewrite duplicate_check_exists. apply existsb_exists. exists (new_preset n pat).
    split; [|apply named_new]. unfold findall. cbn [children set_children].
    apply filter_In. split; [|reflexivity].
    eapply Permutation_in; [exact Hp|]. apply in_or_app. right. now left.
  - apply duplicate_check_named in H. rewrite presets_named_children in *.
    cbn [children set_children].
    pose proof (filter_perm (fun c => String.eqb (tag c) "preset" && named n c)%bool _ _ Hp)
      as Hf.
    rewrite filter_app, H in Hf. cbn [filter app] in Hf.
    change (String.eqb (tag (new_preset n pat)) "preset") with true in Hf.
    rewrite named_new in Hf. cbn [andb] in Hf.
    now apply Permutation_length_1_inv in Hf.
  - intros Hn. rewrite (update_pattern_named _ _ Hn).
    apply duplicate_check_named in H. rewrite presets_named_children in *.
    cbn [children set_children].
    pose proof (filter_perm (fun c => String.eqb (tag c) "preset" && named n c)%bool _ _ Hp)
      as Hf.
    rewrite filter_app, H in Hf. cbn [filter app] in Hf.
    change (String.eqb (tag (new_preset n pat)) "preset") with true in Hf.
    rewrite named_new in Hf. cbn [andb] in Hf.
    apply Permutation_length_1_inv in Hf. rewrite Hf. reflexivity.
Qed.

Lemma save_preset_sorted_witness :
  key_sorted
    [Element "preset" [("name", "dailies")] None [Element "pattern" [] (Some "d_{version}") []];
     new_preset "shots" "shot_{version##}";
     Element "preset" [("name", "vfx")] None [Element "pattern" [] (Some "vfx_{version}") []]]
  /\ update_pattern
       (Element "continue_folder_presets" [] None
          [Element "preset" [("name", "dailies")] None
                   [Element "pattern" [] (Some "d_{version}") []];
           new_preset "shots" "shot_{version##}";
           Element "preset" [("name", "vfx")] None
                   [Element "pattern" [] (Some "vfx_{version}") []]])
       "shots"
     = SetText (Some "shot_{version##}").
Proof.
  destruct (save_preset_sorted
              (Element "continue_folder_presets" [] None
                 [Element "preset" [("name", "dailies")] None
                          [Element "pattern" [] (Some "d_{version}") []];
                  Element "preset" [("name", "vfx")] None
                          [Element "pattern" [] (Some "vfx_{version}") []]])
              _ "shots" "shot_{version##}" eq_refl)
    as (_ & _ & _ & _ & Hs & _ & Hu).
  split; [exact Hs|]. apply (proj2 (Hu eq_refl)). discriminate.
Defined.

End PresetStore.

Section PresetEdits.

Import ETree Presets.

Lemma set_first_pattern_none (cs : list element) (pat : string) :
  set_first_pattern cs pat = None <-> filter (fun c => String.eqb (tag c) "pattern") cs = [].
Proof.
  induction cs as [|c cs IH]; cbn [set_first_pattern filter]; [tauto|].
  destruct (String.eqb (tag c) "pattern"); [split; discriminate|].
  destruct (set_first_pattern cs pat); cbn [option_map]; split; intros H;
    try discriminate; try (apply IH in H; discriminate); apply IH; auto.
Qed.

Lemma set_first_pattern_some (cs cs' : list element) (pat : string) :
  set_first_pattern cs pat = Some cs' ->
  exists p rest,
    filter (fun c => String.eqb (tag c) "pattern") cs' = p :: rest /\ text p = Some pat.
Proof.
  revert cs'. induction cs as [|c cs IH]; intros cs'; cbn [set_first_pattern];
    [discriminate|].
  destruct (String.eqb (tag c) "pattern") eqn:Et.
  - intros H. injection H as <-. cbn [filter]. destruct c as [t a x ch].
    cbn [set_text tag] in *. rewrite Et. eexists. eexists. split; reflexivity.
  - destruct (set_first_pattern cs pat) as [cs0|]; cbn [option_map]; [|discriminate].
    intros H. injection H as <-. cbn [filter]. rewrite Et. now apply IH.
Qed.

Lemma find_pattern_none (c : element) (pat : string) :
  set_first_pattern (children c) pat = None <-> find c "pattern" = None.
Proof.
  rewrite set_first_pattern_none. unfold find, findall.
  destruct (filter _ (children c)); split; congruence.
Qed.

Lemma named_set_children (n : string) (c : element) (cs : list element) :
  named n (set_children c cs) = named n c.
Proof. reflexivity. Qed.

Lemma overwrite_loop_keeps (n pat : string) (cs : list element) :
  Forall2 (overwritten n pat) cs (fst (overwrite_loop cs n pat)).
Proof.
  induction cs as [|c cs IH]; cbn [overwrite_loop fst]; [constructor|].
  destruct (String.eqb (tag c) "preset" && named n c)%bool eqn:E.
  - destruct (set_first_pattern (children c) pat) as [cs'|].
    + destruct (overwrite_loop cs n pat) as [rest' raised]. cbn [fst] in *.
      constructor; [|exact IH]. split; [reflexivity | intros H; congruence].
    + cbn [fst]. constructor.
      * split; auto.
      * clear. induction cs; constructor; [split; auto | assumption].
  - destruct (overwrite_loop cs n pat) as [rest' raised]. cbn [fst] in *.
    constructor; [|exact IH]. split; auto.
Qed.

Lemma overwrite_loop_raised (n pat : string) (cs : list element) :
  snd (overwrite_loop cs n pat) = true
  <-> exists c, In c cs /\ (String.eqb (tag c) "preset" && named n c)%bool = true
                /\ find c "pattern" = None.
Proof.
  induction cs as [|c cs IH]; cbn [overwrite_loop snd].
  - split; [discriminate | intros (c & [] & _)].
  - destruct (String.eqb (tag c) "preset" && named n c)%bool eqn:E.
    + destruct (set_first_pattern (children c) pat) as [cs'|] eqn:Es.
      * destruct (overwrite_loop cs n pat) as [rest' raised]. cbn [snd] in *.
        rewrite IH. split.
        -- intros (x & Hx & H). exists x. split; [now right | exact H].
        -- intros (x & [<-|Hx] & Hp & Hf); [|eauto].
           apply find_pattern_none with (pat := pat) in Hf. congruence.
      * cbn [snd]. split; [|reflexivity]. intros _. exists c.
        split; [now left|]. split; [exact E|]. now apply (find_pattern_none c pat).
    + destruct (overwrite_loop cs n pat) as [rest' raised]. cbn [snd] in *.
      rewrite IH. split.
      * intros (x & Hx & H). exists x. split; [now right | exact H].
      * intros (x & [<-|Hx] & Hp & Hf); [congruence | eauto].
Qed.

Lemma overwrite_loop_done (n pat : string) (cs : list element) :
  snd (overwrite_loop cs n pat) = false ->
  Forall (fun c' => (String.eqb (tag c') "preset" && named n c')%bool = true ->
                    exists p, find c' "pattern" = Some p /\ text p = Some pat)
         (fst (overwrite_loop cs n pat)).
Proof.
  induction cs as [|c cs IH]; cbn [overwrite_loop fst snd]; [constructor|].
  destruct (String.eqb (tag c) "preset" && named n c)%bool eqn:E.
  - destruct (set_first_pattern (children c) pat) as [cs'|] eqn:Es; [|discriminate].
    destruct (overwrite_loop cs n pat) as [rest' raised]. cbn [fst snd] in *.
    intros Hr. constructor; [|now apply IH]. intros _.
    destruct (set_first_pattern_some _ _ _ Es) as (p & rest & Hf & Hp).
    exists p. split; [|exact Hp]. unfold find, findall. cbn [children set_children].
    now rewrite Hf.
  - destruct (overwrite_loop cs n pat) as [rest' raised]. cbn [fst snd] in *.
    intros Hr. constructor; [|now apply IH]. intros H.
    rewrite E in H. discriminate.
Qed.

Lemma overwritten_keys (n pat : string) (cs cs' : list element) :
  Forall2 (overwritten n pat) cs cs' -> map sort_key cs' = map sort_key cs.
Proof. induction 1 as [|c c' cs cs' [Hk _] _ IH]; cbn [map]; congruence. Qed.

Lemma overwritten_filter (n pat : string) (f : element -> bool) (cs cs' : list element) :
  (forall c, f c = true -> (String.eqb (tag c) "preset" && named n c)%bool = false) ->
  (forall c c', sort_key c' = sort_key c -> f c' = f c) ->
  Forall2 (overwritten n pat) cs cs' -> filter f cs' = filter f cs.
Proof.
  intros Hf Hk. induction 1 as [|c c' cs cs' [Hkey Hsame] _ IH]; [reflexivity|].
  cbn [filter]. rewrite (Hk _ _ Hkey), IH. destruct (f c) eqn:E; [|reflexivity].
  now rewrite (Hsame (Hf _ E)).
Qed.

Lemma Forall2_member {A B : Type} (R : A -> B -> Prop) (l : list A) (l' : list B) (x : A) :
  Forall2 R l l' -> In x l -> exists y, In y l' /\ R x y.
Proof.
  induction 1 as [|a b l l' Hab _ IH]; intros Hin; [destruct Hin|].
  destruct Hin as [<-|Hin]; [exists b; split; [now left | exact Hab]|].
  destruct (IH Hin) as (y & Hy & Hr). exists y. split; [now right | exact Hr].
Qed.

Lemma sort_key_named (n : string) (c c' : element) :
  sort_key c' = sort_key c ->
  (String.eqb (tag c') "preset" && named n c')%bool
  = (String.eqb (tag c) "preset" && named n c)%bool.
Proof.
  unfold sort_key, named. intros H. injection H as Ht Hn. now rewrite Ht, Hn.
Qed.

(** [overwrite_preset] keeps the children of the root in their places, with
    their tags and names; it raises [AttributeError] exactly when a preset
    of the name has no pattern child; when it returns, every preset of the
    name has the new text in its pattern and, for a name in use,
    [update_pattern] shows that text; presets of other names are as they
    were, whether it returns or raises. *)
Theorem overwrite_preset_changes_pattern_only (root : element) (n pat : string) :
  exists root',
    (overwrite_preset root n pat = Returns root'
     \/ overwrite_preset root n pat = Raises AttributeError root')
    /\ tag root' = tag root /\ attrib root' = attrib root /\ text root' = text root
    /\ map sort_key (children root') = map sort_key (children root)
    /\ (overwrite_preset root n pat = Raises AttributeError root'
        <-> exists preset, In preset (presets_named root n) /\ find preset "pattern" = None)
    /\ (forall m, m <> n -> presets_named root' m = presets_named root m)
    /\ (overwrite_preset root n pat = Returns root' ->
        Forall (fun preset => exists p, find preset "pattern" = Some p /\ text p = Some pat)
               (presets_named root' n)
        /\ (n <> "" -> duplicate_check root n = true ->
            update_pattern root' n = SetText (Some pat))).
Proof.
  pose proof (overwrite_loop_keeps n pat (children root)) as Hkeep.
  pose proof (overwrite_loop_raised n pat (children root)) as Hraised.
  pose proof (overwrite_loop_done n pat (children root)) as Hdone.
  unfold overwrite_preset.
  destruct (overwrite_loop (children root) n pat) as [cs raised]. cbn [fst snd] in *.
  exists (set_children root cs).
  assert (Hnamed : forall m, m <> n -> presets_named (set_children root cs) m
                                      = presets_named root m).
  { intros m Hm. rewrite !presets_named_children. cbn [children set_children].
    apply (overwritten_filter n pat); [| |exact Hkeep].
    - intros c Hc. apply andb_true_iff in Hc as [Ht Hc].
      rewrite Ht. cbn [andb]. destruct (named n c) eqn:En; [|reflexivity].
      elim Hm. symmetry. exact (named_one _ _ _ En Hc).
    - intros c c'. apply sort_key_named. }
  assert (Hraise : raised = true
                   <-> exists preset, In preset (presets_named root n)
                                      /\ find preset "pattern" = None).
  { rewrite Hraised. rewrite presets_named_children. split.
    - intros (c & Hin & Hp & Hf). exists c. split; [|exact Hf].
      apply filter_In. auto.
    - intros (c & Hin & Hf). apply filter_In in Hin as [Hin Hp]. eauto. }
  split; [destruct raised; auto|].
  cbn [tag attrib text children set_children].
  split; [reflexivity|]. split; [reflexivity|]. split; [reflexivity|].
  split; [exact (overwritten_keys _ _ _ _ Hkeep)|].
  split; [|split; [exact Hnamed|]].
  - destruct raised.
    + split; [intros _; now apply Hraise | reflexivity].
    + split; [discriminate|]. intros H. apply Hraise in H. discriminate.
  - destruct raised; [discriminate|]. intros _.
    assert (Hall : Forall (fun preset => exists p, find preset "pattern" = Some p
                                                   /\ text p = Some pat)
                          (presets_named (set_children root cs) n)).
    { rewrite presets_named_children. cbn [children set_children].
      apply Forall_forall. intros c Hc. apply filter_In in Hc as [Hin Hp].
      exact (proj1 (Forall_forall _ _) (Hdone eq_refl) c Hin Hp). }
    split; [exact Hall|]. intros Hn Hdup.
    rewrite (update_pattern_named _ _ Hn).
    destruct (presets_named (set_children root cs) n) as [|c rest] eqn:Ep.
    + exfalso. apply duplicate_check_named in Ep.
      rewrite duplicate_check_exists in Ep, Hdup.
      apply existsb_exists in Hdup as (c & Hin & Hc).
      unfold findall in Hin. apply filter_In in Hin as [Hin Ht].
      destruct (Forall2_member _ _ _ _ Hkeep Hin) as (c' & Hin' & Hk).
      assert (Hex : existsb (named n) (findall (set_children root cs) "preset") = true).
      { apply existsb_exists. exists c'. pose proof (sort_key_named n _ _ (proj1 Hk)) as E.
        rewrite Ht, Hc in E. apply andb_true_iff in E as [Et En].
        split; [|exact En]. unfold findall. cbn [children set_children].
        apply filter_In. auto. }
      congruence.
    + inversion Hall as [|? ? (p & Hf & Hp) _]; subst. now rewrite Hf, Hp.
Qed.

Lemma overwrite_preset_changes_pattern_only_witness :
  exists root',
    overwrite_preset
      (Element "continue_folder_presets" [] None
         [Element "preset" [("name", "shots")] None
                  [Element "pattern" [] (Some "shot_{version}") []]])
      "shots" "shot_{version###}" = Returns root'
    /\ update_pattern root' "shots" = SetText (Some "shot_{version###}").
Proof.
  destruct (overwrite_preset_changes_pattern_only
              (Element "continue_folder_presets" [] None
                 [Element "preset" [("name", "shots")] None
                          [Element "pattern" [] (Some "shot_{version}") []]])
              "shots" "shot_{version###}")
    as (root' & [E|E] & _ & _ & _ & _ & _ & _ & Hret); [|discriminate E].
  exists root'. split; [exact E|].
  apply (proj2 (Hret E)); [discriminate | reflexivity].
Defined.

Lemma filter_key_length (n pat : string) (f : element -> bool) (cs cs' : list element) :
  (forall c c', sort_key c' = sort_key c -> f c' = f c) ->
  Forall2 (overwritten n pat) cs cs' ->
  List.length (filter f cs') = List.length (filter f cs).
Proof.
  intros Hk. induction 1 as [|c c' cs cs' [Hkey _] _ IH]; [reflexivity|].
  cbn [filter]. rewrite (Hk _ _ Hkey). destruct (f c); cbn [List.length]; congruence.
Qed.

Lemma overwrite_preset_root (root : element) (n pat : string) :
  exists cs,
    Forall2 (overwritten n pat) (children root) cs
    /\ (overwrite_preset root n pat = Returns (set_children root cs)
        \/ overwrite_preset root n pat = Raises AttributeError (set_children root cs)).
Proof.
  pose proof (overwrite_loop_keeps n pat (children root)) as Hkeep.
  unfold overwrite_preset.
  destruct (overwrite_loop (children root) n pat) as [cs raised]. cbn [fst] in Hkeep.
  exists cs. split; [exact Hkeep|]. destruct raised; auto.
Qed.

(** [save_button] keeps the names of the presets apart: when no two presets
    of the root have the same name, none have in the root it leaves, whether
    it returns or raises. *)
Theorem save_button_keeps_names_apart (root root' : element) (n pat : string)
  (confirm : bool) :
  (forall m, List.length (presets_named root m) <= 1) ->
  save_button root n pat confirm = Returns root'
  \/ save_button root n pat confirm = Raises AttributeError root' ->
  forall m, List.length (presets_named root' m) <= 1.
Proof.
  intros Hone Hsave m. unfold save_button in Hsave.
  destruct (duplicate_check root n) eqn:Ed.
  - destruct confirm.
    + destruct (overwrite_preset_root root n pat) as (cs & Hkeep & Hcase).
      assert (Hroot : root' = set_children root cs).
      { destruct Hcase as [E|E], Hsave as [E'|E']; rewrite E in E'; congruence. }
      subst root'. rewrite presets_named_children. cbn [children set_children].
      rewrite (filter_key_length n pat _ _ _ (fun c c' => sort_key_named m c c') Hkeep).
      rewrite <- presets_named_children. apply Hone.
    + destruct Hsave as [E|E]; [|discriminate]. injection E as <-. apply Hone.
  - destruct Hsave as [E|E].
    2:{ unfold save_preset, sort_presets in E. destruct (comparable _); discriminate. }
    unfold save_preset, sort_presets in E. cbn [children set_children] in E.
    destruct (comparable _); [|discriminate]. injection E as <-.
    rewrite presets_named_children. cbn [children set_children].
    pose proof (filter_perm (fun c => String.eqb (tag c) "preset" && named m c)%bool _ _
                  (sorted_children_perm (children root ++ [new_preset n pat]))) as Hf.
    rewrite <- (Permutation_length Hf), filter_app, length_app.
    rewrite <- presets_named_children. cbn [filter].
    change (String.eqb (tag (new_preset n pat)) "preset") with true. cbn [andb].
    destruct (named m (new_preset n pat)) eqn:Em; cbn [List.length].
    + rewrite (named_one _ _ _ Em (named_new n pat)).
      apply duplicate_check_named in Ed. rewrite Ed. cbn [List.length]. lia.
    + specialize (Hone m). lia.
Qed.

Lemma save_button_keeps_names_apart_witness :
  List.length
    (presets_named
       (Element "continue_folder_presets" [] None
          [new_preset "a" "a_{version}"; new_preset "b" "b_{version}"]) "a") <= 1.
Proof.
  apply (save_button_keeps_names_apart
           (Element "continue_folder_presets" [] None [new_preset "b" "b_{version}"])
           _ "a" "a_{version}" false).
  - intros m. unfold presets_named, findall. cbn [children filter tag new_preset].
    cbn [String.eqb Ascii.eqb Bool.eqb]. cbn [filter].
    destruct (named m (new_preset "b" "b_{version}")); cbn [List.length]; lia.
  - left. reflexivity.
Defined.

Lemma names_filter (n : string) (cs : list element) :
  map (fun preset => get preset "name")
      (filter (fun c => String.eqb (tag c) "preset")
              (filter (fun c => negb (String.eqb (tag c) "preset" && named n c)) cs))
  = filter (fun o => negb match o with Some x => String.eqb x n | None => false end)
           (map (fun preset => get preset "name")
                (filter (fun c => String.eqb (tag c) "preset") cs)).
Proof.
  induction cs as [|c cs IH]; [reflexivity|]. cbn [filter].
  destruct (String.eqb (tag c) "preset") eqn:Et; cbn [andb negb filter map].
  - unfold named at 1. destruct (get c "name") as [x|] eqn:Eg.
    + destruct (String.eqb x n); cbn [negb filter map]; rewrite ?Et; cbn [map];
        rewrite ?Eg; now rewrite IH.
    + cbn [negb filter map]. rewrite Et. cbn [map]. rewrite Eg. now rewrite IH.
  - rewrite Et. exact IH.
Qed.

(** After a confirmed [preset_delete_button] no preset of the name is left:
    the name is no duplicate and [update_pattern] finds nothing for it; the
    presets of other names, the children that are not presets and the rest
    of the root are as before, in their order; the names listed are the
    former ones without that name; deleting the name again changes nothing;
    and without confirmation the root is as it was. *)
Theorem preset_delete_button_removes_name (root : element) (n : string) :
  presets_named (preset_delete_button root n true) n = []
  /\ duplicate_check (preset_delete_button root n true) n = false
  /\ update_pattern (preset_delete_button root n true) n = Keep
  /\ (forall m, m <> n ->
        presets_named (preset_delete_button root n true) m = presets_named root m)
  /\ (forall t, t <> "preset" ->
        findall (preset_delete_button root n true) t = findall root t)
  /\ get_preset_names (preset_delete_button root n true)
     = filter (fun o => negb match o with Some x => String.eqb x n | None => false end)
              (get_preset_names root)
  /\ preset_delete_button (preset_delete_button root n true) n true
     = preset_delete_button root n true
  /\ preset_delete_button root n false = root.
Proof.
  assert (Hnone : presets_named (preset_delete_button root n true) n = []).
  { rewrite presets_named_children. cbn [preset_delete_button children set_children].
    rewrite filter_and. induction (children root) as [|c cs IH]; [reflexivity|].
    cbn [filter]. destruct (String.eqb (tag c) "preset" && named n c)%bool; exact IH. }
  split; [exact Hnone|]. split; [now apply duplicate_check_named|]. split.
  { destruct n as [|a n']; [reflexivity|].
    rewrite update_pattern_named by discriminate. now rewrite Hnone. }
  split.
  { intros m Hm. rewrite !presets_named_children.
    cbn [preset_delete_button children set_children]. rewrite filter_and.
    apply filter_ext. intros c.
    destruct (String.eqb (tag c) "preset"); cbn [andb negb]; [|reflexivity].
    destruct (named n c) eqn:En; [|reflexivity]. cbn [negb andb].
    destruct (named m c) eqn:Em; [|reflexivity].
    elim Hm. exact (named_one _ _ _ Em En). }
  split.
  { intros t Ht. unfold findall. cbn [preset_delete_button children set_children].
    rewrite filter_and. apply filter_ext. intros c.
    destruct (String.eqb (tag c) "preset") eqn:Ep; cbn [andb negb]; [|reflexivity].
    apply String.eqb_eq in Ep. rewrite Ep.
    destruct (String.eqb "preset" t) eqn:E; [|now destruct (named n c)].
    apply String.eqb_eq in E. congruence. }
  split; [apply names_filter|]. split; [|reflexivity].
  cbn [preset_delete_button children set_children tag attrib text]. unfold set_children.
  cbn [tag attrib text children]. f_equal. rewrite filter_and. apply filter_ext.
  intros c. now destruct (negb _).
Qed.

Lemma preset_delete_button_removes_name_witness :
  presets_named
    (preset_delete_button
       (Element "continue_folder_presets" [] None
          [new_preset "a" "a_{version}"; new_preset "b" "b_{version}"]) "a" true) "b"
  = [new_preset "b" "b_{version}"].
Proof.
  rewrite (proj1 (proj2 (proj2 (proj2
             (preset_delete_button_removes_name
                (Element "continue_folder_presets" [] None
                   [new_preset "a" "a_{version}"; new_preset "b" "b_{version}"]) "a"))))
             "b"); [reflexivity | discriminate].
Defined.

End PresetEdits.

Section FirstPreset.

Import ETree.

(** At the start the preset button shows the name of the first preset and
    [load_pattern] takes the pattern of the first preset: for a name that is
    not empty this is the pattern [update_pattern] shows for that name (or
    both fail for want of a pattern child); and when every preset has a
    pattern with a text, [load_pattern] sets the pattern to the first of
    these texts, [{version}] when there is no preset. *)
Theorem load_pattern_of_selected_preset (root : element) :
  (forall n, Presets.get_selected_preset root = Some n -> n <> "" ->
             Presets.update_pattern root n = Presets.load_pattern root)
  /\ (forall texts self,
        Forall2 (fun preset t => exists p, find preset "pattern" = Some p /\ text p = Some t)
                (findall root "preset") texts ->
        Presets.load_pattern root = Presets.SetText (Some (pattern (load_pattern texts self)))).
Proof.
  split.
  - intros n Hsel Hn. rewrite (update_pattern_named _ _ Hn).
    unfold Presets.get_selected_preset, Presets.load_pattern, presets_named in *.
    destruct (findall root "preset") as [|p rest]; [congruence|].
    cbn [filter]. unfold Presets.named at 1. rewrite Hsel, String.eqb_refl. reflexivity.
  - intros texts self H. unfold Presets.load_pattern, load_pattern.
    destruct H as [|p t rest texts (q & Hq & Ht) _]; [reflexivity|].
    now rewrite Hq, Ht.
Qed.

Lemma load_pattern_of_selected_preset_witness :
  Presets.update_pattern
    (Element "continue_folder_presets" [] None
       [Presets.new_preset "a" "a_{version}"; Presets.new_preset "b" "b_{version}"]) "a"
  = Presets.load_pattern
      (Element "continue_folder_presets" [] None
         [Presets.new_preset "a" "a_{version}"; Presets.new_preset "b" "b_{version}"]).
Proof.
  apply (proj1 (load_pattern_of_selected_preset
                  (Element "continue_folder_presets" [] None
                     [Presets.new_preset "a" "a_{version}";
                      Presets.new_preset "b" "b_{version}"])));
    [reflexivity | discriminate].
Defined.

End FirstPreset.

Section Creation.

Lemma append_inv_head (p x y : string) : p ++ x = p ++ y -> x = y.
Proof. induction p as [|c p IH]; cbn [append]; [auto|]. intros H. injection H as H. auto. Qed.

Lemma join_inj (path a b : string) :
  starts_with_slash a = false -> starts_with_slash b = false ->
  join path a = join path b -> a = b.
Proof.
  unfold join. intros -> ->.
  destruct (_ || _)%bool; intros H; apply append_inv_head in H; [exact H|].
  now apply (append_inv_head "/") in H.
Qed.

Lemma encode_ascii (s : string) :
  all_chars is_ascii s = true -> encode_ascii_ignore s = s.
Proof.
  induction s as [|c s IH]; [reflexivity|]. cbn [all_chars encode_ascii_ignore].
  intros H. apply andb_true_iff in H as [-> Hs]. now rewrite IH.
Qed.

Lemma digits_ascii (s : string) :
  all_chars PyStr.is_digit s = true -> all_chars is_ascii s = true.
Proof.
  induction s as [|c s IH]; [reflexivity|]. cbn [all_chars]. intros H.
  apply andb_true_iff in H as [Hc Hs]. rewrite (IH Hs), andb_true_r.
  unfold PyStr.is_digit in Hc. unfold is_ascii.
  apply andb_true_iff in Hc as [_ Hc]. apply Nat.leb_le in Hc. apply Nat.ltb_lt. lia.
Qed.

Lemma starts_with_slash_append (pre s : string) :
  starts_with_slash pre = false ->
  match s with String c _ => PyStr.is_digit c = true | EmptyString => True end ->
  starts_with_slash (pre ++ s) = false.
Proof.
  destruct pre as [|c pre]; cbn [append]; [|now destruct s].
  intros _. destruct s as [|d s]; [reflexivity|].
  intros Hd. cbn [starts_with_slash].
  destruct d as [[] [] [] [] [] [] [] []]; try reflexivity; discriminate.
Qed.

(** The pass for a version pattern: what it proposes is no entry of the
    listing. *)
Lemma version_pattern_fresh (t : datetime) (v0 pre : string) (p : nat)
  (dirs : list string) (self : ContinueFolder) :
  all_chars plain pre = true ->
  tokens self = table_with t v0 ->
  exists s1 n,
    update_folder (version_pattern pre p) dirs self = Returns s1
    /\ (1 <= n)%Z
    /\ folder_new s1 = pre ++ PyStr.zfill (PyStr.str n) p
    /\ ~ In (folder_new s1) dirs.
Proof.
  intros Hpre Ht.
  pose proof (compile_version_after pre Hpre) as Hc.
  destruct (scan_version_after _ pre dirs Hc) as (fs & Hscan & Hfs).
  destruct (versions_at_least fs Hfs) as [Hv Hall].
  destruct (resolve_next_above _ Hv) as [Hn Habove].
  destruct (pass_version_pattern (now self) t v0 pre p dirs fs Hpre Hscan Hfs)
    as (sorted & Hpass & Hperm).
  eexists. exists (Spec.resolve_next (versions fs)).
  rewrite update_folder_pass, Ht. split; [exact Hpass|].
  cbn [folder_new]. split; [exact Hn|]. split; [reflexivity|].
  intros Hin. destruct (scan_member _ _ _ _ Hscan Hin) as (l & El & Hl).
  rewrite (find_folder_proposed _ _ _ _ Hc Hn) in El. injection El as <-.
  assert (Hmem : In (Spec.resolve_next (versions fs)) (versions fs))
    by (apply versions_in; eexists; apply Hl; now left).
  pose proof (Habove _ Hmem). lia.
Qed.

(** For a pattern of plain literal text and a version token: the path
    [create_media_hub_folder] gives to [os.mkdir] is the path of no listed
    directory, when the literal text does not start with a slash (the names
    of the listing do not either); when it does, the path is the new name
    itself, whatever [self.path] is; and for a literal text within ASCII the
    reel [create_desktop_reel] makes has the name of the folder. *)
Theorem created_folder_is_new (t : datetime) (v0 pre : string) (p : nat)
  (dirs : list string) (path : string) (self : ContinueFolder) :
  all_chars plain pre = true ->
  tokens self = table_with t v0 ->
  exists s1,
    update_folder (version_pattern pre p) dirs self = Returns s1
    /\ (starts_with_slash pre = false ->
        Forall (fun d => starts_with_slash d = false) dirs ->
        ~ In (create_media_hub_folder path s1) (map (join path) dirs))
    /\ (starts_with_slash pre = true -> create_media_hub_folder path s1 = folder_new s1)
    /\ (all_chars is_ascii pre = true -> create_desktop_reel s1 = folder_new s1).
Proof.
  intros Hpre Ht.
  destruct (version_pattern_fresh t v0 pre p dirs self Hpre Ht)
    as (s1 & n & E & Hn & Hnew & Hfresh).
  exists s1. split; [exact E|].
  assert (Hd : all_chars PyStr.is_digit (PyStr.zfill (PyStr.str n) p) = true)
    by (apply digits_zfill, digits_str; lia).
  unfold create_media_hub_folder, create_desktop_reel. repeat split.
  - intros Hs Hdirs Hin. apply in_map_iff in Hin as (d & Hj & Hd').
    apply Hfresh. replace (folder_new s1) with d; [exact Hd'|].
    apply (join_inj path); [exact (proj1 (Forall_forall _ _) Hdirs d Hd') | | exact Hj].
    rewrite Hnew. apply starts_with_slash_append; [exact Hs|].
    destruct (PyStr.zfill (PyStr.str n) p) as [|c z]; [exact I|].
    cbn [all_chars] in Hd. now apply andb_true_iff in Hd as [Hc _].
  - intros Hs. unfold join. rewrite Hnew.
    destruct pre as [|c pre']; [discriminate|]. cbn [append].
    cbn [starts_with_slash] in *. now rewrite Hs.
  - intros Ha. apply encode_ascii. rewrite Hnew, all_chars_append, Ha.
    now apply digits_ascii.
Qed.

Lemma created_folder_is_new_witness :
  exists s1,
    update_folder (version_pattern "shot_v" 3) ["shot_v001"; "shot_v002_old"; "notes"]
                  (generate_tokens (blank clock_2023)) = Returns s1
    /\ ~ In (create_media_hub_folder "/mnt/media" s1)
            (map (join "/mnt/media") ["shot_v001"; "shot_v002_old"; "notes"])
    /\ create_desktop_reel s1 = folder_new s1.
Proof.
  destruct (created_folder_is_new clock_2023 "1" "shot_v" 3
              ["shot_v001"; "shot_v002_old"; "notes"] "/mnt/media"
              (generate_tokens (blank clock_2023)) eq_refl eq_refl)
    as (s1 & E & Hfresh & _ & Hreel).
  exists s1. split; [exact E|]. split.
  - apply Hfresh; [reflexivity | repeat constructor].
  - apply Hreel. reflexivity.
Defined.

End Creation.

Section Unescaped.

Lemma parse_seq_dot_step (s : string) (f : nat) (items : list Re.item) (st : Re.pstate) :
  Re.parse_seq (S f) (String "." s) items st
  = Re.parse_seq f s ((Re.RAny, false) :: items) st.
Proof. reflexivity. Qed.

Lemma seq_of_version_after_dot (pre1 pre2 : string) :
  Re.seq_of ((Re.RGroup 1 version_body, false)
               :: (Re.RRepeat 0 None (Re.RChar "0"), true)
               :: lit_items pre2 ((Re.RAny, false) :: lit_items pre1 [])) Re.REmpty
  = version_after_dot pre1 pre2.
Proof.
  cbn [Re.seq_of]. rewrite seq_of_lit_items. cbn [Re.seq_of].
  destruct (seq_lit_seq pre2 (Re.RRepeat 0 None (Re.RChar "0"))
                        (Re.RGroup 1 version_body)) as (x & y & E).
  rewrite E, <- E. apply seq_of_lit_items.
Qed.

Lemma parse_version_after_dot (pre1 pre2 : string) (f : nat) :
  all_chars plain pre1 = true -> all_chars plain pre2 = true ->
  Re.parse_seq (String.length pre1 + S (String.length pre2 + (10 + f)))
               (pre1 ++ "." ++ pre2 ++ "0*(?P<version>[1-9][0-9]*)") []
               {| Re.groups := 0; Re.names := [] |}
  = Re.POk (version_after_dot pre1 pre2, "", {| Re.groups := 1; Re.names := ["version"] |}).
Proof.
  intros H1 H2. rewrite (parse_seq_plain pre1 H1).
  change ("." ++ pre2 ++ "0*(?P<version>[1-9][0-9]*)")
    with (String "." (pre2 ++ "0*(?P<version>[1-9][0-9]*)")).
  rewrite parse_seq_dot_step, (parse_seq_plain pre2 H2), parse_version_fragment.
  now rewrite seq_of_version_after_dot.
Qed.

Lemma compile_version_after_dot (pre1 pre2 : string) :
  all_chars plain pre1 = true -> all_chars plain pre2 = true ->
  Re.compile (pre1 ++ "." ++ pre2 ++ "0*(?P<version>[1-9][0-9]*)")
  = Re.POk (version_after_dot pre1 pre2, 1).
Proof.
  intros H1 H2. unfold Re.compile.
  replace (2 * String.length (pre1 ++ "." ++ pre2 ++ "0*(?P<version>[1-9][0-9]*)") + 3)
    with (S (String.length pre1
             + S (String.length pre2
                  + (10 + (String.length pre1 + String.length pre2 + 45)))))
    by (rewrite !length_append; cbn [String.length]; lia).
  cbn [Re.parse_alt]. now rewrite (parse_version_after_dot pre1 pre2 _ H1 H2).
Qed.

Lemma match_version_after_dot (pre1 pre2 : string) (c : ascii) (k : nat) (w : string) :
  Ascii.eqb c Re.newline = false -> Spec.is_version_text w = true ->
  Re.match_at (version_after_dot pre1 pre2) 1 (pre1 ++ String c (pre2 ++ PyStr.zeros k ++ w))
  = Some ("", [Some w]).
Proof.
  intros Hc Hw. unfold Re.match_at, version_after_dot.
  rewrite m_seq_lit, strip_prefix_append.
  change (Re.m (Re.RSeq Re.RAny ?b) Re.accept) with (Re.m Re.RAny (Re.m b Re.accept)).
  cbn [Re.m Re.one]. rewrite Hc. cbn [negb].
  pose proof (match_version_after pre2 k w "" Hw eq_refl) as Hm.
  rewrite append_nil_r in Hm. exact Hm.
Qed.

(** A dot in the literal text of a pattern is not escaped: it stands for
    any character but a line break.  With a pattern of plain text, a dot,
    plain text and a version token, an entry that has any such character in
    the place of the dot is recorded with the version its digits write, and
    the pass, when it returns, proposes a number above that version. *)
Theorem dot_in_pattern_matches_any_character (t : datetime) (v0 pre1 pre2 : string)
  (p k : nat) (c : ascii) (v : Z) (dirs : list string) (self s1 : ContinueFolder) :
  all_chars plain pre1 = true -> all_chars plain pre2 = true ->
  tokens self = table_with t v0 ->
  Ascii.eqb c Re.newline = false -> (1 <= v)%Z ->
  In (pre1 ++ String c (pre2 ++ PyStr.zfill (PyStr.str v) k)) dirs ->
  update_folder (version_pattern (pre1 ++ "." ++ pre2) p) dirs self = Returns s1 ->
  In (pre1 ++ String c (pre2 ++ PyStr.zfill (PyStr.str v) k), Some v) (folders s1)
  /\ exists n, (v < n)%Z
               /\ folder_new s1 = (pre1 ++ "." ++ pre2) ++ PyStr.zfill (PyStr.str n) p.
Proof.
  intros H1 H2 Ht Hc Hv Hin. rewrite update_folder_pass, Ht. unfold pass.
  assert (Hb : Re.has_char "{" (pre1 ++ "." ++ pre2) = false).
  { rewrite !has_char_append, (plain_no_brace _ H1), (plain_no_brace _ H2). reflexivity. }
  rewrite compile_table, (compile_version_pattern _ _ _ _ Hb). cbn [bind].
  rewrite !append_assoc.
  pose proof (compile_version_after_dot pre1 pre2 H1 H2) as Hcomp.
  case_eq (find_folders_loop (pre1 ++ "." ++ pre2 ++ "0*(?P<version>[1-9][0-9]*)") dirs []);
    [intros fs Hscan | discriminate | discriminate].
  cbn [bind].
  set (d := pre1 ++ String c (pre2 ++ PyStr.zfill (PyStr.str v) k)) in *.
  assert (Hfound : In (d, Some v) fs).
  { destruct (scan_member _ _ _ _ Hscan Hin) as (l & El & Hl). apply Hl.
    unfold find_folder in El. rewrite (capture_tokens_compiled _ _ _ _ Hcomp) in El.
    cbn [bind] in El. unfold d in El. destruct v as [|q|q]; try lia.
    rewrite (zfill_digits _ _ (digits_str_pos q)) in El.
    rewrite (match_version_after_dot pre1 pre2 c _ _ Hc (str_version_text q)) in El.
    cbn [Re.mgroups Re.group Re.group0 List.length Nat.eqb nth] in El.
    rewrite consumed_all in El.
    pose proof (int_zfill_str (Zpos q) 0) as Hi.
    rewrite (zfill_digits _ _ (digits_str_pos q)) in Hi.
    cbn [Nat.sub PyStr.zeros append] in Hi. rewrite Hi in El. cbn [bind] in El.
    injection El as <-. left. unfold d.
    now rewrite (zfill_digits _ _ (digits_str_pos q)). }
  destruct (scan_uniform _ _ _ Hscan) as [b Hu].
  assert (Eb : b = true).
  { pose proof (proj1 (Forall_forall _ _) Hu _ Hfound) as E. exact (eq_sym E). }
  subst b. destruct (next_version_uniform true fs Hu) as [sorted En].
  destruct (padding_of (version_pattern (pre1 ++ "." ++ pre2) p)) as [w| |] eqn:Ep;
    cbn [bind]; [|discriminate|discriminate].
  assert (Hw : w = p).
  { rewrite padding_of_version_pattern in Ep; [congruence|].
    rewrite !has_char_append, (plain_no_newline _ H1), (plain_no_newline _ H2).
    reflexivity. }
  subst w. rewrite En. cbn [bind fst snd]. rewrite table_with_twice.
  assert (Hmax : (v < Spec.resolve_next (versions fs))%Z).
  { assert (Hm : In v (versions fs)) by (apply versions_in; eauto).
    destruct (versions fs) as [|x xs]; [destruct Hm|].
    cbn [Spec.resolve_next]. pose proof (maximum_ge x xs v Hm). lia. }
  assert (Hd : all_chars PyStr.is_digit
                 (PyStr.zfill (PyStr.str (Spec.resolve_next (versions fs))) p) = true)
    by (apply digits_zfill, digits_str; lia).
  rewrite (resolve_table _ _ _ (digits_no_backslash _ Hd)).
  rewrite (resolve_version_pattern _ _ _ _ Hb (digits_no_brace _ Hd)). cbn [bind].
  intros H. injection H as <-. cbn [folders folder_new]. split.
  - eapply Permutation_in; [exact (next_version_perm _ _ _ En) | exact Hfound].
  - eexists. split; [exact Hmax | reflexivity].
Qed.

Lemma dot_in_pattern_matches_any_character_witness :
  exists s1,
    update_folder (version_pattern ("v1" ++ "." ++ "") 0) ["v1x7"]
                  (generate_tokens (blank clock_2023)) = Returns s1
    /\ In ("v1x7", Some 7%Z) (folders s1).
Proof.
  eexists. split; [vm_compute; reflexivity|].
  apply (dot_in_pattern_matches_any_character clock_2023 "1" "v1" "" 0 0 "x" 7 ["v1x7"]
           (generate_tokens (blank clock_2023)) _ eq_refl eq_refl eq_refl eq_refl
           ltac:(lia) (or_introl eq_refl)).
  vm_compute. reflexivity.
Defined.

End Unescaped.

Section YearToken.

Lemma replace_skip (old new u s : string) :
  Re.has_char "{" u = false ->
  Spec.replace (String "{" old) new (u ++ s) = u ++ Spec.replace (String "{" old) new s.
Proof.
  induction u as [|c u IH]; [reflexivity|]. cbn [Re.has_char]. intros H.
  apply orb_false_iff in H as [Hc Hu]. cbn [append].
  rewrite replace_next; [now rewrite IH | discriminate|].
  cbn [Spec.strip_prefix]. now rewrite Hc.
Qed.

Lemma replace_version_skip (new u s : string) :
  Re.has_char "{" u = false ->
  Spec.replace_version new (u ++ s) = u ++ Spec.replace_version new s.
Proof.
  induction u as [|c u IH]; [reflexivity|]. cbn [Re.has_char]. intros H.
  apply orb_false_iff in H as [Hc Hu]. cbn [append].
  rewrite replace_version_next by now apply version_token_brace.
  now rewrite IH.
Qed.

Lemma version_pattern_no_brace_after (pre v : string) :
  Re.has_char "{" pre = false -> Re.has_char "{" v = false ->
  Re.has_char "{" (pre ++ v) = false.
Proof. intros H1 H2. now rewrite has_char_append, H1, H2. Qed.

(** A placeholder other than the year's and the version token's does not
    change a year pattern. *)
Lemma replace_year_pattern_other (old new pre1 pre2 : string) (p : nat) :
  Re.has_char "{" pre1 = false -> Re.has_char "{" pre2 = false ->
  (forall s, Spec.strip_prefix old ("version" ++ s) = None) ->
  (forall s, Spec.strip_prefix old ("YYYY}" ++ s) = None) ->
  Spec.replace (String "{" old) new (year_pattern pre1 pre2 p) = year_pattern pre1 pre2 p.
Proof.
  intros H1 H2 Hv Hy. unfold year_pattern. rewrite (replace_skip _ _ _ _ H1). f_equal.
  change ("{YYYY}" ++ version_pattern pre2 p)
    with (String "{" ("YYYY}" ++ version_pattern pre2 p)).
  rewrite replace_next; [|discriminate|].
  2:{ cbn [Spec.strip_prefix]. rewrite Ascii.eqb_refl. apply Hy. }
  f_equal. rewrite (replace_skip _ _ "YYYY}" _ eq_refl). f_equal.
  now apply replace_version_pattern_other.
Qed.

Lemma replace_version_year_pattern (new pre1 pre2 : string) (p : nat) :
  Re.has_char "{" pre1 = false -> Re.has_char "{" pre2 = false ->
  Spec.replace_version new (year_pattern pre1 pre2 p) = pre1 ++ "{YYYY}" ++ pre2 ++ new.
Proof.
  intros H1 H2. unfold year_pattern. rewrite (replace_version_skip _ _ _ H1). f_equal.
  change ("{YYYY}" ++ version_pattern pre2 p)
    with (String "{" ("YYYY}" ++ version_pattern pre2 p)).
  rewrite replace_version_next by reflexivity.
  rewrite (replace_version_skip _ "YYYY}" _ eq_refl).
  now rewrite (replace_version_pattern _ _ _ H2).
Qed.

Lemma replace_short_year (new pre1 s : string) :
  Re.has_char "{" pre1 = false -> Re.has_char "{" s = false ->
  Spec.replace "{YY}" new (pre1 ++ "{YYYY}" ++ s) = pre1 ++ "{YYYY}" ++ s.
Proof.
  intros H1 H2. rewrite (replace_skip _ _ _ _ H1). f_equal.
  change ("{YYYY}" ++ s) with (String "{" ("YYYY}" ++ s)).
  rewrite replace_next; [|discriminate|reflexivity].
  f_equal. rewrite (replace_skip _ _ "YYYY}" _ eq_refl). f_equal.
  now apply replace_no_brace.
Qed.

Lemma replace_long_year (new pre1 s : string) :
  Re.has_char "{" pre1 = false -> Re.has_char "{" s = false ->
  Spec.replace "{YYYY}" new (pre1 ++ "{YYYY}" ++ s) = pre1 ++ new ++ s.
Proof.
  intros H1 H2. rewrite (replace_skip _ _ _ _ H1). f_equal.
  rewrite replace_here by discriminate. f_equal. now apply replace_no_brace.
Qed.

(** The substitutions of the table in a year pattern. *)
Lemma fold_year_pattern (repl : token_values -> string) (t : datetime)
  (v pre1 pre2 : string) (p : nat) :
  Re.has_char "{" pre1 = false -> Re.has_char "{" pre2 = false ->
  Re.has_char "{" (repl (mk "{version}" (Some "{version#*}")
                           "0*(?P<version>[1-9][0-9]*)" v)) = false ->
  fold_left (fun text nv => Spec.substitute (snd nv) (repl (snd nv)) text)
            (table_with t v) (year_pattern pre1 pre2 p)
  = pre1 ++ repl (mk "{YYYY}" None "[0-9]{4}" (strftime t DY)) ++ pre2
         ++ repl (mk "{version}" (Some "{version#*}") "0*(?P<version>[1-9][0-9]*)" v).
Proof.
  intros H1 H2 Hv. unfold table_with, table, generate_tokens, set_tokens, tokens.
  cbn [set_value String.eqb Ascii.eqb Bool.eqb fold_left snd now blank].
  unfold Spec.substitute, mk in *. cbn [token token_regex pattern_regex_of].
  rewrite !replace_year_pattern_other
    by (try exact H1; try exact H2; intros s; reflexivity).
  rewrite (replace_version_year_pattern _ _ _ _ H1 H2).
  rewrite (replace_short_year _ _ _ H1 (version_pattern_no_brace_after _ _ H2 Hv)).
  apply (replace_long_year _ _ _ H1 (version_pattern_no_brace_after _ _ H2 Hv)).
Qed.

Lemma parse_year_fragment (s : string) (f : nat) (items : list Re.item) (st : Re.pstate) :
  match s with
  | String c _ => negb (Ascii.eqb c "?" || Ascii.eqb c "+") = true
  | EmptyString => True
  end ->
  Re.parse_seq (S (S f)) ("[0-9]{4}" ++ s) items st
  = Re.parse_seq f s ((Re.RRepeat 4 (Some 4) (Re.RSet false [("0", "9")%char]), true)
                        :: items) st.
Proof.
  destruct s as [|c s]; [reflexivity|].
  destruct c as [[] [] [] [] [] [] [] []]; intros H; try discriminate H; reflexivity.
Qed.

Lemma plain_first (s : string) :
  all_chars plain s = true ->
  match s ++ "0*(?P<version>[1-9][0-9]*)" with
  | String c _ => negb (Ascii.eqb c "?" || Ascii.eqb c "+") = true
  | EmptyString => True
  end.
Proof.
  destruct s as [|c s]; [reflexivity|]. cbn [all_chars append]. intros H.
  apply andb_true_iff in H as [Hc _].
  destruct c as [[] [] [] [] [] [] [] []]; try reflexivity; discriminate.
Qed.

Lemma seq_of_version_after_year (pre1 pre2 : string) :
  Re.seq_of ((Re.RGroup 1 version_body, false)
               :: (Re.RRepeat 0 None (Re.RChar "0"), true)
               :: lit_items pre2
                    ((Re.RRepeat 4 (Some 4) (Re.RSet false [("0", "9")%char]), true)
                       :: lit_items pre1 [])) Re.REmpty
  = version_after_year pre1 pre2.
Proof.
  cbn [Re.seq_of]. rewrite seq_of_lit_items. cbn [Re.seq_of].
  destruct (seq_lit_seq pre2 (Re.RRepeat 0 None (Re.RChar "0"))
                        (Re.RGroup 1 version_body)) as (x & y & E).
  rewrite E, <- E. apply seq_of_lit_items.
Qed.

Lemma compile_version_after_year (pre1 pre2 : string) :
  all_chars plain pre1 = true -> all_chars plain pre2 = true ->
  Re.compile (pre1 ++ "[0-9]{4}" ++ pre2 ++ "0*(?P<version>[1-9][0-9]*)")
  = Re.POk (version_after_year pre1 pre2, 1).
Proof.
  intros H1 H2. unfold Re.compile.
  replace (2 * String.length (pre1 ++ "[0-9]{4}" ++ pre2 ++ "0*(?P<version>[1-9][0-9]*)") + 3)
    with (S (String.length pre1
             + S (S (String.length pre2
                     + (10 + (String.length pre1 + String.length pre2 + 58))))))
    by (rewrite !length_append; cbn [String.length]; lia).
  cbn [Re.parse_alt]. rewrite (parse_seq_plain pre1 H1).
  rewrite (parse_year_fragment _ _ _ _ (plain_first pre2 H2)).
  rewrite (parse_seq_plain pre2 H2), parse_version_fragment.
  now rewrite seq_of_version_after_year.
Qed.

Lemma match_version_after_year (pre1 pre2 yyyy : string) (k : nat) (w : string) :
  all_chars PyStr.is_digit yyyy = true -> String.length yyyy = 4 ->
  Spec.is_version_text w = true ->
  Re.match_at (version_after_year pre1 pre2) 1 (pre1 ++ yyyy ++ pre2 ++ PyStr.zeros k ++ w)
  = Some ("", [Some w]).
Proof.
  intros Hd Hl Hw. unfold Re.match_at, version_after_year.
  rewrite m_seq_lit, strip_prefix_append.
  change (Re.m (Re.RSeq ?a ?b) Re.accept) with (Re.m a (Re.m b Re.accept)).
  change (Re.m (Re.RRepeat 4 (Some 4) ?r) ?K ?s ?cs)
    with (Re.rep (Re.m r) (S (String.length s)) 4 (Some 4) K s cs).
  rewrite <- Hl.
  rewrite (rep_exact_digits (Re.m (Re.RSet false [("0", "9")%char])) _ _ _ yyyy
             (fun K d u => digit_set_step K d u _) Hd)
    by (rewrite length_append; lia).
  pose proof (match_version_after pre2 k w "" Hw eq_refl) as Hm.
  rewrite append_nil_r in Hm. exact Hm.
Qed.

(** The token of the year matches any four digits, not the year of the
    clock only: with a pattern of plain text, [{YYYY}], plain text and a
    version token, an entry written with any year is recorded with the
    version its digits write, and the pass, when it returns, proposes the
    name with the year of the clock and a number above that version. *)
Theorem year_token_matches_any_year (t : datetime) (v0 pre1 pre2 yyyy : string)
  (p k : nat) (v : Z) (dirs : list string) (self s1 : ContinueFolder) :
  all_chars plain pre1 = true -> all_chars plain pre2 = true ->
  tokens self = table_with t v0 ->
  all_chars PyStr.is_digit yyyy = true -> String.length yyyy = 4 -> (1 <= v)%Z ->
  In (pre1 ++ yyyy ++ pre2 ++ PyStr.zfill (PyStr.str v) k) dirs ->
  update_folder (year_pattern pre1 pre2 p) dirs self = Returns s1 ->
  In (pre1 ++ yyyy ++ pre2 ++ PyStr.zfill (PyStr.str v) k, Some v) (folders s1)
  /\ exists n, (v < n)%Z
               /\ folder_new s1
                  = pre1 ++ PyStr.str (Z.of_nat (year t)) ++ pre2
                         ++ PyStr.zfill (PyStr.str n) p.
Proof.
  intros H1 H2 Ht Hy Hl Hv Hin. rewrite update_folder_pass, Ht. unfold pass.
  pose proof (plain_no_brace _ H1) as Hb1. pose proof (plain_no_brace _ H2) as Hb2.
  rewrite compile_table. unfold Spec.compile.
  rewrite (fold_year_pattern pattern_regex_of t v0 pre1 pre2 p Hb1 Hb2 eq_refl).
  cbn [mk pattern_regex_of bind].
  pose proof (compile_version_after_year pre1 pre2 H1 H2) as Hcomp.
  case_eq (find_folders_loop
             (pre1 ++ "[0-9]{4}" ++ pre2 ++ "0*(?P<version>[1-9][0-9]*)") dirs []);
    [intros fs Hscan | discriminate | discriminate].
  cbn [bind].
  set (d := pre1 ++ yyyy ++ pre2 ++ PyStr.zfill (PyStr.str v) k) in *.
  assert (Hfound : In (d, Some v) fs).
  { destruct (scan_member _ _ _ _ Hscan Hin) as (l & El & Hl'). apply Hl'.
    unfold find_folder in El. rewrite (capture_tokens_compiled _ _ _ _ Hcomp) in El.
    cbn [bind] in El. unfold d in El. destruct v as [|q|q]; try lia.
    rewrite (zfill_digits _ _ (digits_str_pos q)) in El.
    rewrite (match_version_after_year pre1 pre2 yyyy _ _ Hy Hl (str_version_text q)) in El.
    cbn [Re.mgroups Re.group Re.group0 List.length Nat.eqb nth] in El.
    rewrite consumed_all in El.
    pose proof (int_zfill_str (Zpos q) 0) as Hi.
    rewrite (zfill_digits _ _ (digits_str_pos q)) in Hi.
    cbn [Nat.sub PyStr.zeros append] in Hi. rewrite Hi in El. cbn [bind] in El.
    injection El as <-. left. unfold d.
    now rewrite (zfill_digits _ _ (digits_str_pos q)). }
  destruct (scan_uniform _ _ _ Hscan) as [b Hu].
  assert (Eb : b = true).
  { pose proof (proj1 (Forall_forall _ _) Hu _ Hfound) as E. exact (eq_sym E). }
  subst b. destruct (next_version_uniform true fs Hu) as [sorted En].
  destruct (padding_of (year_pattern pre1 pre2 p)) as [w| |] eqn:Ep;
    cbn [bind]; [|discriminate|discriminate].
  assert (Hw : w = p).
  { assert (Er : year_pattern pre1 pre2 p = version_pattern (pre1 ++ "{YYYY}" ++ pre2) p).
    { unfold year_pattern, version_pattern. now rewrite !append_assoc. }
    rewrite Er, padding_of_version_pattern in Ep; [congruence|].
    rewrite !has_char_append, (plain_no_newline _ H1), (plain_no_newline _ H2).
    reflexivity. }
  subst w. rewrite En. cbn [bind fst snd]. rewrite table_with_twice.
  assert (Hmax : (v < Spec.resolve_next (versions fs))%Z).
  { assert (Hm : In v (versions fs)) by (apply versions_in; eauto).
    destruct (versions fs) as [|x xs]; [destruct Hm|].
    cbn [Spec.resolve_next]. pose proof (maximum_ge x xs v Hm). lia. }
  assert (Hd : all_chars PyStr.is_digit
                 (PyStr.zfill (PyStr.str (Spec.resolve_next (versions fs))) p) = true)
    by (apply digits_zfill, digits_str; lia).
  rewrite (resolve_table _ _ _ (digits_no_backslash _ Hd)). unfold Spec.resolve.
  rewrite (fold_year_pattern value t _ pre1 pre2 p Hb1 Hb2 (digits_no_brace _ Hd)).
  cbn [mk value bind strftime].
  intros H. injection H as <-. cbn [folders folder_new]. split.
  - eapply Permutation_in; [exact (next_version_perm _ _ _ En) | exact Hfound].
  - eexists. split; [exact Hmax | reflexivity].
Qed.

Lemma year_token_matches_any_year_witness :
  exists s1,
    update_folder (year_pattern "" "_v" 2) ["1999_v07"]
                  (generate_tokens (blank clock_2023)) = Returns s1
    /\ In ("1999_v07", Some 7%Z) (folders s1).
Proof.
  eexists. split; [vm_compute; reflexivity|].
  apply (year_token_matches_any_year clock_2023 "1" "" "_v" "1999" 2 2 7 ["1999_v07"]
           (generate_tokens (blank clock_2023)) _ eq_refl eq_refl eq_refl eq_refl eq_refl
           ltac:(lia) (or_introl eq_refl)).
  vm_compute. reflexivity.
Defined.

End YearToken.
